(* ===== verification/_CoqProject ===== *)
-Q . S2P
Prelude.v
Regex.v
RegexComplete.v
Patterns.v
RegexParse.v
Resolver.v
Masker.v
Demasker.v
Pipeline.v
Models.v
Api.v
System.v
Interleave.v
Deploy.v
Scenario.v
