(* ===== verification/Prelude.v ===== *)
(** * A verification of the PII masking engine of Email-Classification-for-Support-Team

    ** The program

    The repository ([src/]) is a small FastAPI service.  [api.py] receives
    an e-mail body, masks it with [utils.mask_pii] and classifies the
    MASKED text with a scikit-learn pipeline loaded at start-up by
    [models.load_model].  [utils.py] holds the core: the registry
    [PATTERNS] of eight regular expressions (lines 9-18); [mask_pii]
    (lines 20-61), which runs every pattern with [re.finditer], sorts the
    matches by start, keeps a match when it starts at or after the end of
    the last kept one, replaces the kept spans by tags [[kind]] from the
    rightmost to the leftmost and returns the masked text with one record
    per span; and [demask_pii] (lines 63-78), which puts the originals
    back by searching each tag with [str.find].

    ** The files, in dependency order

    - [Prelude] (this file): texts as [list ascii], Python slicing, the
      exceptions and the [outcome] error monad with its notation in
      [pii_scope], [first_some] (the first success of a list of
      attempts), chains of non-overlapping spans, the [Finditer]
      interface between the masker and the regex engine, the [pii] hint
      databases and the [pii_bool] / [case_test] tactics.
    - [Regex]: the part of CPython's [sre] engine the patterns use: a
      continuation-passing backtracking matcher [sre_match] whose repeat
      loop [rep_loop] follows [MAX_UNTIL]/[MIN_UNTIL] (greedy and lazy,
      zero-width protection), [search], and the finditer loop
      [finditer_loop] with its must-advance rule; the instance
      [regex_finditer] discharges the [Finditer] interface; the
      reference [ends] lists the ends of the matches at a position in
      [sre]'s order of preference, and [ref_search] is leftmost-first
      search over it.
    - [RegexComplete]: completeness of the engine against the declarative
      semantics of [Regex]: the matcher, the search and the finditer loop
      miss no occurrence.
    - [Patterns]: [PATTERNS] as syntax trees, character classes as lists
      of items (literals, ranges, [\d], [\s], [\w]).
    - [RegexParse]: [re.compile] on the syntax the patterns use, after
      CPython's [sre_parse], with its errors; [PATTERN_STRINGS], the
      registry of the source verbatim, and [compile_registry].
    - [Resolver]: lines 31-47 of [mask_pii], generic in the pattern type:
      [collect_matches], Python's stable [sorted] as [sort_by_start], the
      [prev_end] filter [filter_from], and [kept_spans].
    - [Masker]: the record type, the tag, the right-to-left replacement
      loop [mask_step] and [mask_pii]; [render], the left-to-right
      reference rendering.
    - [Demasker]: [str.find] as [py_find], [demask_step], [demask_pii].
    - [Pipeline]: [mask_pii] on the pattern strings of the source; the
      engine with [PATTERNS] run by [vm_compute] on the inputs of the
      specification and others; soundness and completeness of the scanner
      on [PATTERNS]; the witnesses of the engine's theorems.
    - [Models]: [models.py]: the disk as a map from paths to files (a
      DataFrame or a pickle), [read_csv], column lookup, sklearn's
      [train_test_split] (sizes, errors, a black-box seeded permutation
      behind the [Shuffle] class), NaN validation, the fit behind the
      [Estimator] class, [train_model] writing [MODEL_PATH], [load_model]
      and [classify_email] over the [Classifier] class.
    - [Api]: the request and response models ([EmailRequest],
      [MaskedEntity], [EmailResponse]), the service state (the global
      [model]), the start-up handler and the endpoint, as a step relation
      [step] over events and its runs [run].
    - [System]: the training script and the service process on one disk:
      [sys_step] over training runs, (re)starts and requests, [sys_run].
    - [Interleave]: the same two processes with the write of the model
      file in its two steps ([open(MODEL_PATH, 'wb')], then
      [pickle.dump]): [cstep] over the steps of the training process and
      of the service, [crun] over a schedule, and the simulation [sim]
      between it and [System].
    - [Deploy]: the top level of the three modules as it runs when a
      process starts: the imports of [utils.py] (lines 1-6, with
      [spacy.load("en_core_web_sm")]), [models.py] (lines 1-9) and
      [api.py] (lines 1-7) against an installation [PyEnv]
      ([import_utils], [import_models], [import_api], raising
      [ModuleNotFoundError] or [OSError]); [start_service], and
      [dstep]/[drun], the events of [System] in a deployment whose
      service process is not running after a failed start.
    - [Scenario]: stub instances of the black boxes, a small data file,
      and runs of training and of the whole system by [vm_compute].

    ** The theorems

    - Functional correctness of the masker: [Masker.mask_pii_render]
      (right-to-left in-place replacement equals left-to-right rendering
      with the original offsets; records in left-to-right order) and
      [Masker.mask_pii_records] (records sorted, non-overlapping, carrying
      the original text).
    - Round trip: [Demasker.demask_mask_roundtrip], demasking the output of
      [mask_pii] gives back the text when no tag occurs before its own
      span; [Demasker.demask_same_tag_swapped] shows the condition is
      needed: with two tags of one kind, whatever the texts around them,
      the two entities come back swapped.
    - Conflict resolution: [Resolver.kept_spans_ok] (kept spans form a
      chain of well-formed spans of the text), [Resolver.kept_spans_cover]
      (every dropped candidate starts inside a kept span that starts no
      later, and ties at a start go to the first non-empty match in
      registry-then-match order), [Resolver.sort_by_start_spec] (the sort is exactly Python's
      stable [sorted] by start).
    - Errors: [Demasker.demask_pii_raises] ([ValueError] exactly on a
      malformed [position], missing tags skipped silently);
      [Api.request_answer] (HTTP 500 without a model, otherwise the
      classifier receives the rendered masked text); [Api.run_model] (the
      loaded model after any run of events).
    - Types: [Api.response_schema], every response satisfies the
      specification's data model of records, checked by computation;
      [Api.response_roundtrip], a response demasks back to its input from
      its own fields when the input has no [[] and its records have
      pairwise different classifications; [Masker.mask_pii_length], the length of the masked
      text.
    - Training and loading: [Models.train_model_saves] (what a successful
      training read, fitted and wrote), [Models.train_then_load] (the
      round trip through the model file), [Models.train_model_rejects_NaN]
      and [Models.train_model_errors] (its failures, in the code's order),
      [Models.load_model_spec].
    - The system: [Interleave.served_outside_window] (liveness: once the
      service has a model and the disk a pickle, every later request is
      answered, whatever the training runs and restarts, as long as no
      restart falls between the [open] and the [dump] of a training run),
      [System.model_fixed_until_boot] (a model
      trained later is not used before a restart),
      [Interleave.interleaved_refines] (the atomic model of [System] is
      correct for every interleaving without a restart between [open]
      and [dump]), [Interleave.restart_during_dump] (a restart inside
      that window leaves the service answering HTTP 500 although the
      training succeeded).
    - The deployment: [Deploy.no_pipeline_never_served] (without the
      spaCy pipeline that [nlp] loads but nothing uses, the service never
      starts and every request of every run is refused);
      [Deploy.start_service_spec] (the process starts exactly when every
      package and the pipeline are installed) and [Deploy.drun_of_sys]
      (with a complete installation the deployment is [System] step for
      step).
    - The engine: [Regex.re_finditer_chained] (matches are non-overlapping,
      left to right, inside the text), [Regex.re_finditer_sound] (every
      reported match is in the language of the pattern, for the
      declarative semantics [matches]), and the fuel theorems
      [Regex.rep_fuel_enough] and [Regex.finditer_fuel_enough];
      [Pipeline.kept_spans_match] lifts soundness to the scanner: every
      span [mask_pii] masks matches the pattern of its kind.
      [RegexComplete.re_finditer_complete] is the converse: every
      occurrence of a pattern starts a reported match or starts inside
      one; [Pipeline.candidates_complete] lifts it to the scanner of
      [mask_pii].
    - The compiler: [RegexParse.re_compile_total] (termination),
      [RegexParse.re_compile_wf] (compiled bounds are well formed),
      and the lemma [Pipeline.mask_pii_source] (on every text,
      [mask_pii] with the pattern strings of the source compiled by
      [re_compile] is [mask_pii] with [PATTERNS]).
    - Which match the engine reports: [Regex.re_search_first], the
      search of the engine equals the leftmost-first reference, whose
      end at a start is the first in the order of preference (the
      optimised continuation-passing matcher against a list of
      successes).
    - What a pattern can mask: [Pipeline.full_name_ascii_only], every
      [full_name] span of every text consists of ASCII letters and white
      space, so a name with a Latin-1 letter is never masked whole;
      it rests on [RegexComplete.matches_within] (a match covers only
      characters its classes admit).
    - Examples, computed by [vm_compute] on the specification's examples
      and on inputs where the code leaks ([Pipeline.mask_contact_example],
      [mask_phone_shadows], [demask_swaps_same_kind],
      [mask_indian_phone], [mask_accented_name],
      [malformed_pattern_per_call], [RegexParse.re_compile_errors]): the
      evidence of the findings, and the inputs at which the theorems'
      witnesses apply them.

    ** Bounds and fuel

    The parser [re_compile] gets [length pattern + 1] steps: each step
    consumes at least one character ([RegexParse.pstep_len]).
    The repeat loop of a repetition [r{lo,hi}] starting at [i] gets
    [lo + 2 * (length t - i) + 2] units of fuel: [lo] forced iterations,
    then at most one iteration per remaining character plus one empty
    iteration before zero-width protection stops it.  The finditer loop
    gets [2 * length t + 2]: each match either advances the position or
    is an empty match, after which the next search must advance.
    [rep_fuel_enough] and [finditer_fuel_enough] prove that more fuel never
    changes the result, so the bounds never cut the search short.

    ** What is not modelled

    A text is a list of [ascii], each read as a Latin-1 code point
    (U+0000 to U+00FF); on these Python's Unicode [\d], [\s], [\w] and
    [\b] are modelled exactly (checked against CPython's [re] on 160
    Latin-1 texts, and on 156 ASCII ones); code points above U+00FF are
    not modelled.  The compiler and the engine together agree with
    CPython 3.11 on 1,900 random patterns (see [RegexParse]).  The parser of [re] covers the syntax the patterns use;
    other syntax is reported [Unsupported] rather than modelled.  The spaCy
    pipeline loaded at [utils.py] line 6 is never used; its loading (and
    its failure) is modelled in [Deploy], the pipeline's behaviour is not.
    An import is modelled by its top-level package: the sub-modules of
    [sklearn] that [models.py] names are part of every installation.  In [models.py] the
    libraries are modelled at the calls the code makes: pandas' CSV
    parsing is not modelled (a CSV file is the DataFrame it yields), the
    seeded shuffle, the fit and the prediction of the pipeline are black
    boxes behind classes, the printed classification report (standard
    output) is not modelled; the partial writes of [pickle.dump] are not
    modelled (a reader sees the empty file [open] leaves, which fails to
    load as a truncated pickle would).  Disks are functions from paths to
    files, compared with [Models.fs_equiv] (pointwise equality), which the
    operations of the code respect ([Proper] instances).  [n_test] is sklearn's [ceil(0.2 * n)]
    computed exactly, which is the floating-point result for every
    realistic [n].  FastAPI's routing and JSON (de)serialisation are not
    modelled; the request and response models are.

    ** Plan for the next sittings

    The endpoint run on the pattern strings, with the per-request
    [re.error] of a malformed registry; the rest of [sre]'s syntax
    (negated classes, [.], anchors) in the compiler and the engine; the
    liveness of [System] carried to [Interleave] through the simulation. *)

From Stdlib Require Import Ascii String.
From Stdlib Require Import List Arith Lia ZArith.
Import ListNotations.
Open Scope list_scope.

(** ** Text *)

(** A Python [str] of code points U+0000 to U+00FF, one [ascii] each. *)
Abbreviation str := (list ascii).

(** A string literal of the source, as a [str]. *)
Definition lit (s : String.string) : str := String.list_ascii_of_string s.

Example lit_ok : lit "ab"%string = ["a"%char; "b"%char]. Proof. reflexivity. Qed.

(** Python slicing with non-negative bounds: [s[:i]], [s[i:]], [s[i:j]]. *)
Definition py_take (s : str) (i : nat) : str := firstn i s.
Definition py_drop (s : str) (i : nat) : str := skipn i s.
Definition py_slice (s : str) (i j : nat) : str := firstn (j - i) (skipn i s).

Lemma py_slice_split (s : str) (i j : nat) :
  i <= j <= length s -> py_take s i ++ py_slice s i j ++ py_drop s j = s.
Proof.
  intros H. unfold py_take, py_slice, py_drop.
  rewrite <- (firstn_skipn i s) at 4. f_equal.
  replace (skipn j s) with (skipn (j - i) (skipn i s)).
  - apply firstn_skipn.
  - rewrite skipn_skipn. f_equal. lia.
Qed.

Lemma length_py_slice (s : str) (i j : nat) :
  i <= j <= length s -> length (py_slice s i j) = j - i.
Proof.
  intros H. unfold py_slice. rewrite length_firstn, length_skipn. lia.
Qed.

Lemma py_take_app_le (a b : str) (n : nat) : n <= length a -> py_take (a ++ b) n = py_take a n.
Proof.
  intros H. unfold py_take. rewrite firstn_app.
  replace (n - length a) with 0 by lia. apply app_nil_r.
Qed.

Lemma py_drop_app_le (a b : str) (n : nat) : n <= length a -> py_drop (a ++ b) n = py_drop a n ++ b.
Proof.
  intros H. unfold py_drop. rewrite skipn_app. now replace (n - length a) with 0 by lia.
Qed.

Lemma py_drop_app_length (a b : str) : py_drop (a ++ b) (length a) = b.
Proof. rewrite py_drop_app_le by lia. unfold py_drop. now rewrite skipn_all. Qed.

Lemma py_take_slice (t : str) (i j : nat) :
  i <= j -> py_take t i ++ py_slice t i j = py_take t j.
Proof.
  intros H. unfold py_take, py_slice.
  rewrite firstn_skipn_comm. replace (i + (j - i)) with j by lia.
  rewrite <- (firstn_skipn i (firstn j t)) at 2. f_equal.
  rewrite firstn_firstn. f_equal. lia.
Qed.

Lemma py_slice_take (t : str) (i j n : nat) : j <= n -> py_slice (py_take t n) i j = py_slice t i j.
Proof.
  intros H. unfold py_slice, py_take. rewrite skipn_firstn_comm, firstn_firstn.
  f_equal. lia.
Qed.

Lemma py_drop_take (t : str) (i n : nat) : py_drop (py_take t n) i = py_slice t i n.
Proof. unfold py_drop, py_take, py_slice. apply skipn_firstn_comm. Qed.

Lemma py_drop_slice (t : str) (i j : nat) :
  i <= j -> py_drop t i = py_slice t i j ++ py_drop t j.
Proof.
  intros H. unfold py_drop, py_slice.
  replace (skipn j t) with (skipn (j - i) (skipn i t)) by (rewrite skipn_skipn; f_equal; lia).
  symmetry. apply firstn_skipn.
Qed.

Lemma length_py_take (t : str) (n : nat) : n <= length t -> length (py_take t n) = n.
Proof. intros H. unfold py_take. rewrite length_firstn. lia. Qed.

Lemma py_take_take (t : str) (i n : nat) : i <= n -> py_take (py_take t n) i = py_take t i.
Proof. intros H. unfold py_take. rewrite firstn_firstn. f_equal. lia. Qed.

Lemma py_slice_nil (t : str) (i : nat) : py_slice t i i = [].
Proof. unfold py_slice. now rewrite Nat.sub_diag. Qed.

(** A character of [s[i:j]] is a character of [s] at an index in [i, j). *)
Lemma In_py_slice_nth (s : str) i j a :
  In a (py_slice s i j) -> exists k, i <= k < j /\ nth_error s k = Some a.
Proof.
  unfold py_slice. intros H. apply In_nth_error in H as [n Hn].
  rewrite nth_error_firstn in Hn. destruct (n <? j - i) eqn:E; [|discriminate].
  rewrite nth_error_skipn in Hn. apply Nat.ltb_lt in E. exists (i + n). split; [lia|exact Hn].
Qed.

Lemma py_take_length (a b : str) : py_take (a ++ b) (length a) = a.
Proof. unfold py_take. rewrite firstn_app, Nat.sub_diag, firstn_all. apply app_nil_r. Qed.

Lemma py_drop_length2 (a b c : str) : py_drop (a ++ b ++ c) (length a + length b) = c.
Proof. rewrite app_assoc, <- length_app. apply py_drop_app_length. Qed.

(** A character of a slice is a character of the text. *)
Lemma In_py_take (s : str) n a : In a (py_take s n) -> In a s.
Proof. intros H. rewrite <- (firstn_skipn n s). apply in_or_app. now left. Qed.

Lemma In_py_drop (s : str) n a : In a (py_drop s n) -> In a s.
Proof. intros H. rewrite <- (firstn_skipn n s). apply in_or_app. now right. Qed.

Lemma In_py_slice (s : str) i j a : In a (py_slice s i j) -> In a s.
Proof. intros H. apply (In_py_drop s i). exact (In_py_take (py_drop s i) (j - i) a H). Qed.

(** ** Splitting a list at the first occurrence of an element *)

Section FirstOccurrence.

Context {A : Type} (eq_dec : forall x y : A, {x = y} + {x <> y}).

Lemma in_split_first (x : A) l : In x l -> exists l1 l2, l = l1 ++ x :: l2 /\ ~ In x l1.
Proof.
  induction l as [|a l IH]; intros Hin; [destruct Hin|].
  destruct (eq_dec a x) as [->|Hne]; [exists [], l; split; [reflexivity|intros []]|].
  destruct Hin as [->|Hin]; [contradiction|].
  destruct (IH Hin) as (l1 & l2 & -> & Hn). exists (a :: l1), l2. split; [reflexivity|].
  intros [->|H]; [contradiction|exact (Hn H)].
Qed.

End FirstOccurrence.

(** What comes before the first occurrence of [x] comes before any
    occurrence of it. *)
Lemma split_first_prefix {A : Type} (x : A) p q p' q' :
  p ++ x :: q = p' ++ x :: q' -> ~ In x p -> forall y, In y p -> In y p'.
Proof.
  revert p'. induction p as [|a p IH]; intros p' Heq Hn y Hy; [destruct Hy|].
  destruct p' as [|b p']; cbn in Heq; injection Heq as Hab Heq.
  - exfalso. apply Hn. left. exact Hab.
  - subst b. destruct Hy as [<-|Hy]; [now left|right].
    apply (IH p' Heq); [intros H; apply Hn; now right|exact Hy].
Qed.

(** ** Python exceptions and a small error monad *)

(** The exceptions the modelled code raises. *)
Inductive py_exc :=
| ValueError                                (* tuple unpacking of a wrong-size list; sklearn's checks *)
| FileNotFoundError (msg : str)             (* models.load_model, pandas.read_csv *)
| KeyError (key : str)                      (* a missing DataFrame column *)
| UnicodeDecodeError                        (* pandas.read_csv of a binary file *)
| UnpicklingError                           (* pickle.load of a file that is not a pickle *)
| EOFError                                  (* pickle.load of an empty file *)
| EmptyDataError                            (* pandas.read_csv of an empty file *)
| ModuleNotFoundError (name : str)          (* an import of a package that is not installed *)
| OSError (msg : str)                       (* spacy.load of a pipeline that is not installed *)
| HTTPException (status_code : Z) (detail : str).  (* api.classify_email_endpoint *)

(** A Python call either returns a value or raises. *)
Inductive outcome (A : Type) : Type :=
| Ret (a : A)
| Raise (e : py_exc).
Arguments Ret {A} a.
Arguments Raise {A} e.

Definition obind {A B : Type} (c : outcome A) (k : A -> outcome B) : outcome B :=
  match c with
  | Ret a => k a
  | Raise e => Raise e
  end.

Declare Scope pii_scope.
Delimit Scope pii_scope with pii.
Notation "x <- c ;; k" := (obind c (fun x => k))
  (at level 61, c at next level, right associativity) : pii_scope.

Lemma obind_ret {A B : Type} (a : A) (k : A -> outcome B) : obind (Ret a) k = k a.
Proof. reflexivity. Qed.

Lemma obind_Ret_inv {A B : Type} (c : outcome A) (k : A -> outcome B) (b : B) :
  obind c k = Ret b -> exists a, c = Ret a /\ k a = Ret b.
Proof. destruct c as [a|e]; cbn; [eauto|discriminate]. Qed.

Lemma obind_Raise_inv {A B : Type} (c : outcome A) (k : A -> outcome B) (e : py_exc) :
  obind c k = Raise e -> c = Raise e \/ exists a, c = Ret a /\ k a = Raise e.
Proof. destruct c as [a|e']; cbn; [eauto|intros [= ->]; auto]. Qed.

(** Split every [obind] that returned a value into its two calls. *)
Ltac obind_inv :=
  repeat match goal with
  | H : obind _ _ = Ret _ |- _ =>
      let a := fresh "a" in let Hc := fresh "Hc" in
      apply obind_Ret_inv in H; destruct H as (a & Hc & H)
  end.

(** Equality of texts, as Python's [==] on [str]. *)
Definition str_eqb (a b : str) : bool := if list_eq_dec ascii_dec a b then true else false.

Lemma str_eqb_eq (a b : str) : str_eqb a b = true <-> a = b.
Proof. unfold str_eqb. destruct (list_eq_dec ascii_dec a b); split; congruence. Qed.

Lemma str_eqb_refl (a : str) : str_eqb a a = true.
Proof. now apply str_eqb_eq. Qed.

Lemma str_eqb_neq (a b : str) : a <> b -> str_eqb a b = false.
Proof. intros H. destruct (str_eqb a b) eqn:E; [apply str_eqb_eq in E; contradiction|reflexivity]. Qed.

(** Python's [name in names] on a list of texts. *)
Lemma existsb_str_eqb (n : str) (l : list str) : existsb (str_eqb n) l = true <-> In n l.
Proof.
  rewrite existsb_exists. split; [intros (x & Hx & E); apply str_eqb_eq in E; now subst|].
  intros Hn. exists n. split; [exact Hn|apply str_eqb_refl].
Qed.

(** ** The interface between the scanner and the regex engine *)

(** [re.finditer(pattern, text)] as the masker uses it: the (start, end)
    offsets of the successive matches.  The law is what the masker relies
    on: every match is a well-formed span of the text. *)
Class Finditer (P : Type) := {
  finditer : P -> str -> list (nat * nat);
  finditer_bounds : forall p t s e, In (s, e) (finditer p t) -> s <= e <= length t
}.

(** ** Chains of spans *)

(** A list of spans [(start, end)] that go left to right without
    overlapping, from offset [pos], inside a text of length [len]. *)
Fixpoint chained (len pos : nat) (l : list (nat * nat)) : Prop :=
  match l with
  | [] => True
  | (s, e) :: l' => pos <= s <= e /\ e <= len /\ chained len e l'
  end.

Lemma chained_In len pos l s e : chained len pos l -> In (s, e) l -> pos <= s <= e /\ e <= len.
Proof.
  revert pos. induction l as [|[s' e'] l IH]; intros pos Hc Hin; [destruct Hin|].
  destruct Hc as (H1 & H2 & H3). destruct Hin as [Heq|Hin].
  - inversion Heq; subst. lia.
  - apply IH in H3 as [H4 H5]; [|exact Hin]. lia.
Qed.

Lemma chained_mono len pos pos' l : pos' <= pos -> chained len pos l -> chained len pos' l.
Proof. destruct l as [|[s e] l]; simpl; [trivial|]. intros H (H1 & H2 & H3). repeat split; auto; lia. Qed.

Lemma chained_weaken len len' pos l : len <= len' -> chained len pos l -> chained len' pos l.
Proof.
  revert pos. induction l as [|[s e] l IH]; intros pos Hle; simpl; [trivial|].
  intros (H1 & H2 & H3). repeat split; try lia. now apply IH.
Qed.

(** The last span of a chain ends it: all earlier spans end before its start. *)
Lemma chained_snoc_inv len pos l s e :
  chained len pos (l ++ [(s, e)]) -> chained s pos l /\ pos <= s <= e /\ e <= len.
Proof.
  revert pos. induction l as [|[s' e'] l IH]; intros pos; simpl; [tauto|].
  intros (H1 & H2 & H3). apply IH in H3 as (H4 & H5 & H6). repeat split; auto; lia.
Qed.

Create HintDb pii.
Create Rewrite HintDb pii_rw.

(** ** The first success of a list of attempts *)

(** Backtracking as a list of successes: the first element of [l] on
    which [f] succeeds, and what it returns. *)
Fixpoint first_some {A B : Type} (f : A -> option B) (l : list A) : option B :=
  match l with
  | [] => None
  | x :: l' => match f x with Some b => Some b | None => first_some f l' end
  end.

Section FirstSome.

Context {A B : Type}.
Implicit Types (f g : A -> option B) (l : list A).

Lemma first_some_app f l1 l2 :
  first_some f (l1 ++ l2) =
  match first_some f l1 with Some b => Some b | None => first_some f l2 end.
Proof. induction l1 as [|x l1 IH]; cbn; [reflexivity|]. destruct (f x); [reflexivity|exact IH]. Qed.

Lemma first_some_single f x : first_some f [x] = f x.
Proof. cbn. now destruct (f x). Qed.

(** Trying the successes of each attempt in turn. *)
Lemma first_some_flat_map {C : Type} f (g : C -> list A) (l : list C) :
  first_some f (flat_map g l) = first_some (fun x => first_some f (g x)) l.
Proof. induction l as [|x l IH]; cbn; [reflexivity|]. now rewrite first_some_app, IH. Qed.

Lemma first_some_ext_in f g l : (forall x, In x l -> f x = g x) -> first_some f l = first_some g l.
Proof.
  induction l as [|x l IH]; intros H; cbn; [reflexivity|].
  rewrite (H x (or_introl eq_refl)), IH; [reflexivity|]. intros y Hy. apply H. now right.
Qed.

(** The first success is a success on an element, and nothing before it
    succeeds. *)
Lemma first_some_Some f l b :
  first_some f l = Some b ->
  exists l1 x l2, l = l1 ++ x :: l2 /\ f x = Some b /\ forall y, In y l1 -> f y = None.
Proof.
  induction l as [|x l IH]; cbn; [discriminate|]. destruct (f x) eqn:E.
  - intros [= <-]. exists [], x, l. split; [reflexivity|]. split; [exact E|]. intros y [].
  - intros H. destruct (IH H) as (l1 & y & l2 & -> & Hy & Hb).
    exists (x :: l1), y, l2. split; [reflexivity|]. split; [exact Hy|].
    intros z [<-|Hz]; [exact E|exact (Hb z Hz)].
Qed.

Lemma first_some_None f l : first_some f l = None <-> forall x, In x l -> f x = None.
Proof.
  induction l as [|x l IH]; cbn; [split; [intros _ _ []|reflexivity]|].
  destruct (f x) eqn:E; split.
  - discriminate.
  - intros H. rewrite (H x (or_introl eq_refl)) in E. discriminate.
  - intros H y [<-|Hy]; [exact E|]. now apply IH.
  - intros H. apply IH. intros y Hy. apply H. now right.
Qed.

End FirstSome.

#[export] Hint Rewrite @first_some_app @first_some_flat_map @first_some_single : pii_rw.

(** ** Automation *)

#[export] Hint Rewrite length_app length_firstn length_skipn length_rev length_map : pii_rw.

(** Turn the boolean comparisons of the code into propositions. *)
Ltac pii_bool :=
  repeat match goal with
  | H : (_ <? _) = true |- _ => apply Nat.ltb_lt in H
  | H : (_ <? _) = false |- _ => apply Nat.ltb_ge in H
  | H : (_ <=? _) = true |- _ => apply Nat.leb_le in H
  | H : (_ <=? _) = false |- _ => apply Nat.leb_gt in H
  | H : (_ =? _) = true |- _ => apply Nat.eqb_eq in H
  | H : (_ =? _) = false |- _ => apply Nat.eqb_neq in H
  | H : (_ <=? _)%Z = true |- _ => apply Z.leb_le in H
  | H : (_ <=? _)%Z = false |- _ => apply Z.leb_gt in H
  | H : (_ =? _)%Z = true |- _ => apply Z.eqb_eq in H
  | H : (_ =? _)%Z = false |- _ => apply Z.eqb_neq in H
  | H : andb _ _ = true |- _ => apply andb_prop in H; destruct H
  end.

(** Case on a boolean test of the goal, keeping its equation in Prop form. *)
Ltac case_test t := let E := fresh "E" in destruct t eqn:E; pii_bool.

(** Case on the first [if] of the goal, whatever its test. *)
Ltac case_if :=
  match goal with |- context [if ?b then _ else _] => case_test b end.
