(* ===== verification/Regex.v ===== *)
(** * The regular-expression engine behind [re.finditer]

    [src/utils.py] applies every pattern of [PATTERNS] with
    [re.finditer(pattern, text)] (line 34).  This file models the part of
    CPython's [sre] engine that those patterns exercise: a backtracking
    matcher over an explicit regex syntax tree, written in
    continuation-passing style so that the order in which alternatives are
    tried (greedy or lazy repetition, ordered alternation) is the order of
    [sre]; the search loop that tries successive start positions; and the
    finditer loop with its "must advance" rule after an empty match.

    The repetition loop follows [SRE_OP_MAX_UNTIL] / [SRE_OP_MIN_UNTIL]:
    below the minimum count it must iterate; above it, it iterates again
    only when the maximum allows it and the previous iteration was not
    empty (zero-width protection), greedy repetition trying one more
    iteration first and lazy repetition trying the continuation first.

    Recursion on the repeat loop and on the finditer loop is bounded by
    fuel; the theorems [rep_fuel_enough] and [finditer_fuel_enough] show
    that the fuel chosen by the definitions never cuts a search short.

    Two specifications of the engine: the declarative language [matches]
    (soundness here, completeness in [RegexComplete]), and the
    list-of-successes reference [ends] / [ref_search], which also fixes
    which match is reported ([re_search_first]). *)

From Stdlib Require Import Ascii String.
From Stdlib Require Import List Arith Lia Bool.
From S2P Require Import Prelude.
Import ListNotations.
Open Scope list_scope.

(** ** Character classes *)

Definition in_range (lo hi : nat) (a : ascii) : bool :=
  (lo <=? nat_of_ascii a) && (nat_of_ascii a <=? hi).

(** A text is a sequence of code points; an [ascii] is read as the code
    point [nat_of_ascii a] of Latin-1, U+0000 to U+00FF.  The category
    escapes of a [str] pattern are Unicode ones ([SRE_CATEGORY_UNI_*] of
    [_sre]); on these code points they are the following. *)

(** [\d]: [Py_UNICODE_ISDECIMAL], only 0-9 below U+0100. *)
Definition is_digit : ascii -> bool := in_range 48 57.

(** [\s]: [Py_UNICODE_ISSPACE]: tab, line feed, vertical tab, form feed,
    carriage return, the separators U+001C-U+001F, space, NEXT LINE
    U+0085 and NO-BREAK SPACE U+00A0. *)
Definition is_space (a : ascii) : bool :=
  in_range 9 13 a || in_range 28 32 a || in_range 133 133 a || in_range 160 160 a.

(** [\w]: [Py_UNICODE_ISALNUM] or underscore: ASCII letters and digits,
    [_], the Latin-1 letters (ª µ º, À-Ö, Ø-ö, ø-ÿ) and the Latin-1
    numerics (² ³ ¹ ¼ ½ ¾). *)
Definition is_word (a : ascii) : bool :=
  in_range 48 57 a || in_range 65 90 a || in_range 95 95 a || in_range 97 122 a ||
  in_range 170 170 a || in_range 178 179 a || in_range 181 181 a || in_range 185 186 a ||
  in_range 188 190 a || in_range 192 214 a || in_range 216 246 a || in_range 248 255 a.

(** An item of a character class or a one-character pattern, as [sre]
    compiles it: a literal, a range [lo-hi], or a category escape. *)
Inductive class_item : Type :=
| CLit (c : ascii)
| CRange (lo hi : ascii)
| CDigit                                 (** [\d] *)
| CSpace                                 (** [\s] *)
| CWord.                                 (** [\w] *)

Definition item_mem (it : class_item) (a : ascii) : bool :=
  match it with
  | CLit c => Ascii.eqb a c
  | CRange lo hi => in_range (nat_of_ascii lo) (nat_of_ascii hi) a
  | CDigit => is_digit a
  | CSpace => is_space a
  | CWord => is_word a
  end.

(** A character is in a class when it is in one of its items. *)
Definition class_mem (cls : list class_item) (a : ascii) : bool :=
  existsb (fun it => item_mem it a) cls.

(** ** Syntax *)

Inductive regex : Type :=
| RChar (cls : list class_item)          (** one character of a class *)
| RSeq (r1 r2 : regex)                   (** concatenation *)
| RAlt (r1 r2 : regex)                   (** ordered alternation [r1|r2] *)
| RRep (greedy : bool) (lo : nat) (hi : option nat) (r : regex)
                                         (** [r{lo,hi}], greedy or lazy ([?]) *)
| RWordB                                 (** [\b] *)
| REmpty.                                (** the empty regex *)

(** Continuations receive the end position of what matched so far. *)
Abbreviation cont := (nat -> option nat).

(** Is another iteration allowed after [c] of them, given the maximum? *)
Definition below (hi : option nat) (c : nat) : bool :=
  match hi with
  | None => true
  | Some n => c <? n
  end.

Section Matcher.

(** The subject string of the match. *)
Variable t : str.

Definition word_at (i : nat) : bool :=
  match nth_error t i with
  | Some a => is_word a
  | None => false
  end.

(** [SRE_AT_UNI_BOUNDARY]: false on the empty string, otherwise the word
    status of the characters on both sides of [i] differ. *)
Definition at_boundary (i : nat) : bool :=
  match t with
  | [] => false
  | _ => xorb (match i with 0 => false | S i' => word_at i' end) (word_at i)
  end.

(** The repetition loop.  [body i k] matches one iteration at [i] and
    passes its end to [k]; [c] iterations are done; [progressed] is false
    exactly when the last iteration above the minimum matched empty. *)
Fixpoint rep_loop (body : nat -> cont -> option nat) (greedy : bool)
    (lo : nat) (hi : option nat) (k : cont) (fuel c i : nat) (progressed : bool)
    : option nat :=
  match fuel with
  | O => None
  | S f =>
      if c <? lo then
        body i (fun j => rep_loop body greedy lo hi k f (S c) j true)
      else if below hi c && progressed then
        if greedy then
          match body i (fun j => rep_loop body greedy lo hi k f (S c) j (negb (j =? i))) with
          | Some e => Some e
          | None => k i
          end
        else
          match k i with
          | Some e => Some e
          | None => body i (fun j => rep_loop body greedy lo hi k f (S c) j (negb (j =? i)))
          end
      else k i
  end.

(** The fuel given to a repetition starting at [i]. *)
Definition rep_fuel (lo i : nat) : nat := lo + 2 * (length t - i) + 2.

(** The backtracking matcher: match [r] at [i], then the continuation. *)
Fixpoint sre_match (r : regex) (i : nat) (k : cont) {struct r} : option nat :=
  match r with
  | RChar cls =>
      match nth_error t i with
      | Some a => if class_mem cls a then k (S i) else None
      | None => None
      end
  | RSeq r1 r2 => sre_match r1 i (fun j => sre_match r2 j k)
  | RAlt r1 r2 =>
      match sre_match r1 i k with
      | Some e => Some e
      | None => sre_match r2 i k
      end
  | RRep greedy lo hi r1 => rep_loop (sre_match r1) greedy lo hi k (rep_fuel lo i) 0 i true
  | RWordB => if at_boundary i then k i else None
  | REmpty => k i
  end.

(** The top-level continuation of an attempt at [p]: accept, except an
    empty match at [p] when the engine must advance. *)
Definition accept (must_advance : bool) (p : nat) : cont :=
  fun j => if must_advance && (j =? p) then None else Some j.

(** [SRE(search)]: try [p], [p+1], ..., up to the end of the text; only
    the first attempt carries the must-advance flag. *)
Fixpoint search_from (r : regex) (must_advance : bool) (fuel p : nat)
    : option (nat * nat) :=
  match fuel with
  | O => None
  | S f =>
      match sre_match r p (accept must_advance p) with
      | Some e => Some (p, e)
      | None => if p <? length t then search_from r false f (S p) else None
      end
  end.

Definition search (r : regex) (must_advance : bool) (p : nat) : option (nat * nat) :=
  search_from r must_advance (S (length t - p)) p.

(** The finditer scanner: after a match [(s, e)] the next search starts
    at [e], and must advance when the match was empty. *)
Fixpoint finditer_loop (r : regex) (fuel pos : nat) (must_advance : bool)
    : list (nat * nat) :=
  match fuel with
  | O => []
  | S f =>
      match search r must_advance pos with
      | None => []
      | Some (s, e) => (s, e) :: finditer_loop r f e (e =? s)
      end
  end.

Definition re_finditer (r : regex) : list (nat * nat) :=
  finditer_loop r (2 * length t + 2) 0 false.

End Matcher.

(** ** Continuation locality and result bounds *)

(** The optional iteration of the loop returned [Some e], greedy or lazy:
    close the case where the body produced it with [more] and the case
    where the continuation at the current position did with [stop]. *)
Ltac rep_branch H more stop :=
  repeat match type of H with
  | context [match ?x with _ => _ end] => let E := fresh "E" in destruct x eqn:E
  end;
  first [ solve [more H] | solve [stop H]
        | injection H as <-;
          match goal with E : _ = Some _ |- _ => first [solve [more E] | solve [stop E]] end ].

Section RepLoopFacts.

Variable t : str.
Variable body : nat -> cont -> option nat.
Variables (greedy : bool) (lo : nat) (hi : option nat).

(** What [sre_match r] satisfies, as a hypothesis on the loop's body: it only
    consults its continuation on positions between [i] and the end. *)
Hypothesis body_ext : forall i (k k' : cont), i <= length t ->
  (forall j, i <= j <= length t -> k j = k' j) -> body i k = body i k'.
Hypothesis body_sound : forall i (k : cont) e, i <= length t ->
  body i k = Some e -> exists j, i <= j <= length t /\ k j = Some e.

Lemma rep_loop_ext fuel : forall c i p (k k' : cont), i <= length t ->
  (forall j, i <= j <= length t -> k j = k' j) ->
  rep_loop body greedy lo hi k fuel c i p = rep_loop body greedy lo hi k' fuel c i p.
Proof.
  induction fuel as [|f IH]; intros c i p k k' Hi Hk; simpl; [reflexivity|].
  assert (Hb : forall q : nat -> bool,
    body i (fun j => rep_loop body greedy lo hi k f (S c) j (q j)) =
    body i (fun j => rep_loop body greedy lo hi k' f (S c) j (q j))).
  { intros q. apply body_ext; [exact Hi|]. intros j Hj.
    apply IH; [lia|]. intros j' Hj'. apply Hk. lia. }
  rewrite (Hb (fun _ => true)), (Hb (fun j => negb (j =? i))), (Hk i) by lia.
  reflexivity.
Qed.

Lemma rep_loop_sound fuel : forall c i p (k : cont) e, i <= length t ->
  rep_loop body greedy lo hi k fuel c i p = Some e ->
  exists j, i <= j <= length t /\ k j = Some e.
Proof.
  induction fuel as [|f IH]; intros c i p k e Hi H; simpl in H; [discriminate|].
  assert (Hb : forall q : nat -> bool,
    body i (fun j => rep_loop body greedy lo hi k f (S c) j (q j)) = Some e ->
    exists j, i <= j <= length t /\ k j = Some e).
  { intros q Hq. apply body_sound in Hq as [j [Hj Hq]]; [|exact Hi].
    apply IH in Hq as [j' [Hj' Hk]]; [|lia]. exists j'. split; [lia|exact Hk]. }
  destruct (c <? lo); [now apply (Hb (fun _ => true))|].
  destruct (below hi c && p); [|exists i; split; [lia|exact H]].
  destruct greedy; rep_branch H ltac:(fun h => exact (Hb (fun j => negb (j =? i)) h))
                               ltac:(fun h => exists i; split; [lia|exact h]).
Qed.

(** The fuel a loop state still needs: the iterations owed to the
    minimum, then two steps per character left (one that consumes, one
    that may end in an empty iteration). *)
Definition rep_need (c i : nat) (p : bool) : nat :=
  if c <? lo then (lo - c) + 2 * (length t - i) + 2
  else 2 * (length t - i) + (if p then 2 else 1).

Lemma rep_need_pos c i p : 1 <= rep_need c i p.
Proof. unfold rep_need. destruct (c <? lo), p; lia. Qed.

Lemma rep_need_step c i j p : i <= j <= length t -> (c < lo \/ p = true) ->
  rep_need (S c) j (if c <? lo then true else negb (j =? i)) < rep_need c i p.
Proof.
  intros Hj Hp. unfold rep_need.
  case_test (c <? lo); case_test (S c <? lo); try lia;
    [destruct Hp as [Hp|Hp]; [lia|subst]; case_test (j =? i); simpl; lia].
Qed.

(** The loop gives the same answer for any fuel above what it needs. *)
Lemma rep_loop_fuel f : forall f' c i p (k : cont), i <= length t ->
  rep_need c i p <= f -> rep_need c i p <= f' ->
  rep_loop body greedy lo hi k f c i p = rep_loop body greedy lo hi k f' c i p.
Proof.
  induction f as [|f IH]; intros f' c i p k Hi Hf Hf'.
  - pose proof (rep_need_pos c i p). lia.
  - destruct f' as [|f']; [pose proof (rep_need_pos c i p); lia|]. simpl.
    assert (Hb : forall q : nat -> bool, (c < lo \/ p = true) ->
      (forall j, q j = if c <? lo then true else negb (j =? i)) ->
      body i (fun j => rep_loop body greedy lo hi k f (S c) j (q j)) =
      body i (fun j => rep_loop body greedy lo hi k f' (S c) j (q j))).
    { intros q Hp Hq. apply body_ext; [exact Hi|]. intros j Hj.
      pose proof (rep_need_step c i j p Hj Hp). rewrite Hq.
      apply IH; lia. }
    destruct (c <? lo) eqn:E.
    + apply Nat.ltb_lt in E as Hc.
      apply (Hb (fun _ => true)); [now left|]. intros j. reflexivity.
    + destruct (below hi c && p) eqn:Ep; [|reflexivity].
      apply andb_prop in Ep as [_ Ep].
      rewrite (Hb _ (or_intror Ep) (fun j => eq_refl)). reflexivity.
Qed.

End RepLoopFacts.

Section MatcherFacts.

Variable t : str.

Lemma nth_error_lt (i : nat) (a : ascii) : nth_error t i = Some a -> i < length t.
Proof. intros H. apply nth_error_Some. congruence. Qed.

(** The matcher only looks at its continuation between [i] and the end. *)
Lemma sre_match_ext r : forall i (k k' : cont), i <= length t ->
  (forall j, i <= j <= length t -> k j = k' j) -> sre_match t r i k = sre_match t r i k'.
Proof.
  induction r as [cls|r1 IH1 r2 IH2|r1 IH1 r2 IH2|g lo hi r1 IH1| |];
    intros i k k' Hi Hk; simpl.
  - destruct (nth_error t i) as [a|] eqn:Ea; [|reflexivity].
    apply nth_error_lt in Ea. destruct (class_mem cls a); [apply Hk; lia|reflexivity].
  - apply IH1; [exact Hi|]. intros j Hj. apply IH2; [lia|]. intros j' Hj'. apply Hk. lia.
  - rewrite (IH1 i k k'), (IH2 i k k'); auto.
  - apply (rep_loop_ext t); auto.
  - rewrite (Hk i) by lia. reflexivity.
  - apply Hk. lia.
Qed.

(** A successful match ends between [i] and the end of the text, at a
    position its continuation accepted. *)
Lemma sre_match_sound r : forall i (k : cont) e, i <= length t ->
  sre_match t r i k = Some e -> exists j, i <= j <= length t /\ k j = Some e.
Proof.
  induction r as [cls|r1 IH1 r2 IH2|r1 IH1 r2 IH2|g lo hi r1 IH1| |];
    intros i k e Hi H; simpl in H.
  - destruct (nth_error t i) as [a|] eqn:Ea; [|discriminate].
    apply nth_error_lt in Ea. destruct (class_mem cls a); [|discriminate].
    exists (S i). split; [lia|exact H].
  - apply IH1 in H as [j [Hj H]]; [|exact Hi].
    apply IH2 in H as [j' [Hj' H]]; [|lia]. exists j'. split; [lia|exact H].
  - destruct (sre_match t r1 i k) eqn:E1.
    + inversion H; subst. now apply (IH1 i k).
    + now apply (IH2 i k).
  - eapply (rep_loop_sound t); eauto.
  - destruct (at_boundary t i); [|discriminate]. exists i. split; [lia|exact H].
  - exists i. split; [lia|exact H].
Qed.

(** C11: the fuel the matcher gives a repetition is enough: any larger fuel
    gives the same answer, so the bound never cuts a search short. *)
Theorem rep_fuel_enough g lo hi r i (k : cont) f :
  i <= length t -> rep_fuel t lo i <= f ->
  rep_loop (sre_match t r) g lo hi k f 0 i true = sre_match t (RRep g lo hi r) i k.
Proof.
  intros Hi Hf. simpl. symmetry. apply (rep_loop_fuel t); auto.
  - intros. now apply sre_match_ext.
  - unfold rep_need, rep_fuel. destruct (0 <? lo); lia.
  - unfold rep_need, rep_fuel in *. destruct (0 <? lo); lia.
Qed.

End MatcherFacts.

Section FinditerFacts.

Variable t : str.

(** A found match starts at or after [p], inside the text, and is not an
    empty match at [p] when the search had to advance. *)
Lemma search_from_sound r fuel : forall adv p s e, p <= length t ->
  search_from t r adv fuel p = Some (s, e) ->
  p <= s <= e /\ e <= length t /\ (adv = true -> s = p -> e <> s).
Proof.
  induction fuel as [|f IH]; intros adv p s e Hp H; simpl in H; [discriminate|].
  destruct (sre_match t r p (accept adv p)) as [e'|] eqn:Em.
  - inversion H; subst. apply sre_match_sound in Em as [j [Hj Hacc]]; [|exact Hp].
    unfold accept in Hacc. destruct adv; simpl in Hacc.
    + case_test (j =? s); [discriminate|]. inversion Hacc; subst. lia.
    + inversion Hacc; subst. split; [lia|]. split; [lia|discriminate].
  - case_test (p <? length t); [|discriminate].
    apply IH in H as (H1 & H2 & _); [|lia]. split; [lia|]. split; [exact H2|].
    intros _ ->. lia.
Qed.

Lemma search_sound r adv p s e : p <= length t ->
  search t r adv p = Some (s, e) ->
  p <= s <= e /\ e <= length t /\ (adv = true -> s = p -> e <> s).
Proof. apply search_from_sound. Qed.

Lemma finditer_loop_chained r f : forall pos adv, pos <= length t ->
  chained (length t) pos (finditer_loop t r f pos adv).
Proof.
  induction f as [|f IH]; intros pos adv Hpos; simpl; [exact I|].
  destruct (search t r adv pos) as [[s e]|] eqn:Es; [|exact I].
  apply search_sound in Es as (H1 & H2 & _); [|exact Hpos].
  simpl. split; [lia|]. split; [exact H2|]. apply IH. exact H2.
Qed.

(** C9: [re.finditer] yields non-overlapping matches, left to right, each
    a span of the text. *)
Theorem re_finditer_chained r : chained (length t) 0 (re_finditer t r).
Proof. apply finditer_loop_chained. lia. Qed.

(** The fuel the finditer loop still needs: an empty match is followed by
    an attempt that must advance, so two steps per position. *)
Definition fi_need (pos : nat) (adv : bool) : nat :=
  2 * (length t - pos) + (if adv then 1 else 2).

Lemma fi_need_step r pos adv s e : pos <= length t ->
  search t r adv pos = Some (s, e) -> fi_need e (e =? s) < fi_need pos adv.
Proof.
  intros Hpos Hs. apply search_sound in Hs as (H1 & H2 & H3); [|exact Hpos].
  unfold fi_need. case_test (e =? s); destruct adv; try lia.
Qed.

Lemma finditer_loop_fuel r f : forall f' pos adv, pos <= length t ->
  fi_need pos adv <= f -> fi_need pos adv <= f' ->
  finditer_loop t r f pos adv = finditer_loop t r f' pos adv.
Proof.
  induction f as [|f IH]; intros f' pos adv Hpos Hf Hf';
    [unfold fi_need in Hf; destruct adv; lia|].
  destruct f' as [|f']; [unfold fi_need in Hf'; destruct adv; lia|]. simpl.
  destruct (search t r adv pos) as [[s e]|] eqn:Es; [|reflexivity].
  pose proof (fi_need_step r pos adv s e Hpos Es).
  apply search_sound in Es as (_ & H2 & _); [|exact Hpos].
  f_equal. apply IH; lia.
Qed.

(** C10: the fuel [2 * length t + 2] of [re_finditer] is enough: the loop
    stops because the search fails, never because the fuel runs out. *)
Theorem finditer_fuel_enough r f : 2 * length t + 2 <= f ->
  finditer_loop t r f 0 false = re_finditer t r.
Proof.
  intros Hf. unfold re_finditer. apply finditer_loop_fuel; unfold fi_need; lia.
Qed.

End FinditerFacts.

(** ** Soundness against the language of the regex *)

(** Repetition bounds as Python accepts them: [{m,n}] needs [m <= n]. *)
Fixpoint wf_regex (r : regex) : bool :=
  match r with
  | RSeq r1 r2 | RAlt r1 r2 => wf_regex r1 && wf_regex r2
  | RRep _ lo hi r1 =>
      match hi with None => true | Some h => lo <=? h end && wf_regex r1
  | _ => true
  end.

Definition within (hi : option nat) (n : nat) : Prop :=
  match hi with None => True | Some h => n <= h end.

Section Semantics.

Variable t : str.

(** The declarative meaning of a regex: [matches r i j] when [r] matches
    the text between [i] and [j]; [iterates r n i j] for [n] successive
    matches of [r].  Greediness does not change the language. *)
Inductive matches : regex -> nat -> nat -> Prop :=
| MChar cls i a : nth_error t i = Some a -> class_mem cls a = true -> matches (RChar cls) i (S i)
| MSeq r1 r2 i j k : matches r1 i j -> matches r2 j k -> matches (RSeq r1 r2) i k
| MAltL r1 r2 i j : matches r1 i j -> matches (RAlt r1 r2) i j
| MAltR r1 r2 i j : matches r2 i j -> matches (RAlt r1 r2) i j
| MRep g lo hi r n i j : iterates r n i j -> lo <= n -> within hi n -> matches (RRep g lo hi r) i j
| MWordB i : at_boundary t i = true -> matches RWordB i i
| MEmpty i : matches REmpty i i
with iterates : regex -> nat -> nat -> nat -> Prop :=
| INil r i : iterates r 0 i i
| ICons r n i j k : matches r i j -> iterates r n j k -> iterates r (S n) i k.

Section RepLoopSem.

Variables (body : nat -> cont -> option nat) (r : regex).
Variables (greedy : bool) (lo : nat) (hi : option nat).
Hypothesis lo_hi : within hi lo.
Hypothesis body_sem : forall i (k : cont) e,
  body i k = Some e -> exists j, matches r i j /\ k j = Some e.

Lemma rep_loop_sem fuel : forall c i p (k : cont) e, within hi c ->
  rep_loop body greedy lo hi k fuel c i p = Some e ->
  exists n j, iterates r n i j /\ lo <= c + n /\ within hi (c + n) /\ k j = Some e.
Proof.
  induction fuel as [|f IH]; intros c i p k e Hc H; simpl in H; [discriminate|].
  assert (Hmore : forall q : nat -> bool, within hi (S c) ->
    body i (fun j => rep_loop body greedy lo hi k f (S c) j (q j)) = Some e ->
    exists n j, iterates r n i j /\ lo <= c + n /\ within hi (c + n) /\ k j = Some e).
  { intros q Hs Hb. apply body_sem in Hb as [j [Hm Hb]].
    apply IH in Hb as (n & j' & Hit & Hlo & Hhi & Hk); [|exact Hs].
    exists (S n), j'. rewrite <- plus_n_Sm. repeat split; auto. econstructor; eauto. }
  assert (Hstop : k i = Some e -> lo <= c ->
    exists n j, iterates r n i j /\ lo <= c + n /\ within hi (c + n) /\ k j = Some e).
  { intros Hk Hl. exists 0, i. rewrite Nat.add_0_r. repeat split; auto. constructor. }
  case_test (c <? lo).
  - apply (Hmore (fun _ => true)); [|exact H].
    unfold within in *. destruct hi; [lia|exact I].
  - destruct (below hi c && p) eqn:Ep; [|now apply Hstop].
    apply andb_prop in Ep as [Eb _].
    assert (Hs : within hi (S c)) by (unfold below, within in *; destruct hi; [case_test (c <? n); lia|exact I]).
    destruct greedy; rep_branch H ltac:(fun h => exact (Hmore (fun j => negb (j =? i)) Hs h))
                                 ltac:(fun h => apply Hstop; [exact h|lia]).
Qed.

End RepLoopSem.

(** The backtracking matcher only reports positions its continuation
    accepts after a match of the regex. *)
Lemma sre_match_sem r : wf_regex r = true -> forall i (k : cont) e,
  sre_match t r i k = Some e -> exists j, matches r i j /\ k j = Some e.
Proof.
  induction r as [cls|r1 IH1 r2 IH2|r1 IH1 r2 IH2|g lo hi r1 IH1| |];
    simpl; intros Hwf i k e H; pii_bool.
  - destruct (nth_error t i) as [a|] eqn:Ea; [|discriminate].
    destruct (class_mem cls a) eqn:Ec; [|discriminate]. exists (S i). split; [econstructor; eauto|exact H].
  - apply IH1 in H as [j [Hm1 H]]; [|exact H0]. apply IH2 in H as [j' [Hm2 H]]; [|exact H1].
    exists j'. split; [econstructor; eauto|exact H].
  - destruct (sre_match t r1 i k) eqn:E1.
    + inversion H; subst. apply IH1 in E1 as [j [Hm E1]]; [|exact H0].
      exists j. split; [now apply MAltL|exact E1].
    + apply IH2 in H as [j [Hm H]]; [|exact H1]. exists j. split; [now apply MAltR|exact H].
  - apply (rep_loop_sem _ r1) in H as (n & j & Hit & Hlo & Hhi & Hk).
    + exists j. split; [econstructor; eauto|exact Hk].
    + unfold within. destruct hi; [now pii_bool|exact I].
    + now apply IH1.
    + unfold within. destruct hi; [lia|exact I].
  - destruct (at_boundary t i) eqn:Eb; [|discriminate]. exists i. split; [now constructor|exact H].
  - exists i. split; [constructor|exact H].
Qed.

Lemma search_from_sem r adv fuel : forall p s e, wf_regex r = true ->
  search_from t r adv fuel p = Some (s, e) -> matches r s e.
Proof.
  revert adv. induction fuel as [|f IH]; intros adv p s e Hwf H; simpl in H; [discriminate|].
  destruct (sre_match t r p (accept adv p)) as [e'|] eqn:Em.
  - inversion H; subst. apply sre_match_sem in Em as [j [Hm Ha]]; [|exact Hwf].
    unfold accept in Ha. destruct (adv && (j =? s)); [discriminate|]. now inversion Ha; subst.
  - destruct (p <? length t); [|discriminate]. eapply IH; eauto.
Qed.

(** Every match the finditer loop reports, whatever its fuel and start,
    is a match of the pattern. *)
Lemma finditer_loop_sem r s e : wf_regex r = true ->
  forall f pos adv, In (s, e) (finditer_loop t r f pos adv) -> matches r s e.
Proof.
  intros Hwf f. induction f as [|f IH]; intros pos adv Hin; simpl in Hin; [destruct Hin|].
  unfold search in Hin. destruct (search_from t r adv _ pos) as [[s' e']|] eqn:Es; [|destruct Hin].
  destruct Hin as [Heq|Hin]; [inversion Heq; subst; eapply search_from_sem; eauto|eauto].
Qed.

(** C15: every match [re.finditer] reports is a match of the pattern in
    the declarative sense, for a pattern whose bounds Python accepts. *)
Theorem re_finditer_sound r s e : wf_regex r = true ->
  In (s, e) (re_finditer t r) -> matches r s e.
Proof. intros Hwf Hin. exact (finditer_loop_sem r s e Hwf _ _ _ Hin). Qed.

End Semantics.

Lemma re_finditer_bounds r t s e : In (s, e) (re_finditer t r) -> s <= e <= length t.
Proof.
  intros H. apply (chained_In (length t) 0 _ s e (finditer_loop_chained t r _ 0 false ltac:(lia))) in H.
  lia.
Qed.

(** The regex engine implements the interface the masker needs. *)
#[export] Instance regex_finditer : Finditer regex := {
  finditer := fun r t => re_finditer t r;
  finditer_bounds := re_finditer_bounds
}.

(** ** The priority order of the matches

    [sre_match] is an optimised backtracker: it never builds the list of
    ways a regex can match, it hands each end to the continuation in the
    order [sre] tries them and stops at the first the continuation
    accepts.  The reference below builds that list: [ends r i] is every
    end of a match of [r] at [i], once per way of matching, in the order
    of preference of [sre] (left alternative first; for a greedy
    repetition the longer iterations before stopping, for a lazy one
    stopping first), with the same zero-width protection and fuel. *)

Section Priority.

Variable t : str.

Fixpoint rep_ends (body : nat -> list nat) (greedy : bool) (lo : nat) (hi : option nat)
    (fuel c i : nat) (progressed : bool) : list nat :=
  match fuel with
  | O => []
  | S f =>
      if c <? lo then
        flat_map (fun j => rep_ends body greedy lo hi f (S c) j true) (body i)
      else if below hi c && progressed then
        let more := flat_map (fun j => rep_ends body greedy lo hi f (S c) j (negb (j =? i))) (body i) in
        if greedy then more ++ [i] else i :: more
      else [i]
  end.

Fixpoint ends (r : regex) (i : nat) : list nat :=
  match r with
  | RChar cls =>
      match nth_error t i with
      | Some a => if class_mem cls a then [S i] else []
      | None => []
      end
  | RSeq r1 r2 => flat_map (ends r2) (ends r1 i)
  | RAlt r1 r2 => ends r1 i ++ ends r2 i
  | RRep greedy lo hi r1 => rep_ends (ends r1) greedy lo hi (rep_fuel t lo i) 0 i true
  | RWordB => if at_boundary t i then [i] else []
  | REmpty => [i]
  end.

(** The end [re.search] reports for an attempt at [s]: the first end in
    the order of preference that is not an empty match where the engine
    must advance. *)
Definition first_end (r : regex) (must_advance : bool) (s : nat) : option nat :=
  first_some (accept must_advance s) (ends r s).

(** Leftmost-first search: the first start from [p] to the end of the
    text with an acceptable end, and its first acceptable end. *)
Definition ref_search (r : regex) (must_advance : bool) (p : nat) : option (nat * nat) :=
  first_some (fun s => option_map (pair s) (first_end r (must_advance && (s =? p)) s))
             (seq p (S (length t - p))).

Section RepLoopFirst.

Variables (body : nat -> cont -> option nat) (body_ends : nat -> list nat).
Variables (greedy : bool) (lo : nat) (hi : option nat).

Hypothesis body_first : forall i (k : cont), body i k = first_some k (body_ends i).

Lemma rep_loop_first fuel : forall c i p (k : cont),
  rep_loop body greedy lo hi k fuel c i p = first_some k (rep_ends body_ends greedy lo hi fuel c i p).
Proof.
  induction fuel as [|f IH]; intros c i p k; cbn [rep_loop rep_ends]; [reflexivity|].
  assert (Hb : forall q : nat -> bool,
    body i (fun j => rep_loop body greedy lo hi k f (S c) j (q j)) =
    first_some k (flat_map (fun j => rep_ends body_ends greedy lo hi f (S c) j (q j)) (body_ends i))).
  { intros q. rewrite body_first, first_some_flat_map. apply first_some_ext_in. intros j _. apply IH. }
  destruct (c <? lo); [exact (Hb (fun _ => true))|].
  destruct (below hi c && p); [|now rewrite first_some_single].
  rewrite (Hb (fun j => negb (j =? i))).
  destruct greedy; cbn [first_some]; [now rewrite first_some_app, first_some_single|reflexivity].
Qed.

End RepLoopFirst.

(** [sre_match] on any continuation is the first success of the
    continuation on the ends of [ends], in order. *)
Lemma sre_match_first r : forall i (k : cont), sre_match t r i k = first_some k (ends r i).
Proof.
  induction r as [cls|r1 IH1 r2 IH2|r1 IH1 r2 IH2|g lo hi r1 IH1| |]; intros i k;
    cbn [sre_match ends]; autorewrite with pii_rw.
  - destruct (nth_error t i); [|reflexivity].
    destruct (class_mem cls a); autorewrite with pii_rw; reflexivity.
  - rewrite IH1. apply first_some_ext_in. intros j _. apply IH2.
  - now rewrite IH1, IH2.
  - apply rep_loop_first. exact IH1.
  - destruct (at_boundary t i); autorewrite with pii_rw; reflexivity.
  - reflexivity.
Qed.

Lemma search_from_S r adv f p :
  search_from t r adv (S f) p =
  match sre_match t r p (accept adv p) with
  | Some e => Some (p, e)
  | None => if p <? length t then search_from t r false f (S p) else None
  end.
Proof. reflexivity. Qed.

Lemma search_from_first r n : forall adv p, length t - p = n ->
  search_from t r adv (S n) p =
  first_some (fun s => option_map (pair s) (first_end r (adv && (s =? p)) s)) (seq p (S n)).
Proof.
  induction n as [|n IH]; intros adv p Hn; rewrite search_from_S, <- cons_seq; cbn [first_some];
    rewrite sre_match_first; unfold first_end at 1; rewrite Nat.eqb_refl, andb_true_r;
    (destruct (first_some (accept adv p) (ends r p)); cbn [option_map]; [reflexivity|]).
  - now destruct (p <? length t).
  - case_test (p <? length t); [|lia]. rewrite IH by lia.
    apply first_some_ext_in. intros s Hs. apply in_seq in Hs.
    replace (s =? p) with false by (symmetry; apply Nat.eqb_neq; lia).
    now rewrite andb_false_r.
Qed.

(** C14: [re.search] as the engine runs it equals the leftmost-first
    reference: it reports the first start from [p] on at which some match
    is acceptable and, at that start, the first acceptable end in the
    order of preference of [ends] (left alternative first, greedy
    repetitions longest first, lazy ones shortest first). *)
Theorem re_search_first r adv p : search t r adv p = ref_search r adv p.
Proof. unfold search, ref_search. now apply search_from_first. Qed.

End Priority.
