(* ===== verification/RegexComplete.v ===== *)
(** * Completeness of the regex engine

    [Regex] proves that every match [re.finditer] reports is in the
    language of the pattern ([re_finditer_sound]).  This file proves the
    converse direction the masker relies on to find every entity: the
    backtracking matcher finds a match at [i] whenever the pattern
    matches from [i] and the continuation accepts the end
    ([sre_match_complete]), in spite of sre's zero-width protection
    (iterations of a repetition beyond its minimum that match empty are
    never needed) and of the fuel of the repeat loop; the search finds
    the leftmost start; and every occurrence of the pattern in the text
    starts a reported match or starts inside one ([re_finditer_complete]).
    Last, [matches_within]: a match only covers characters that the
    character classes of its pattern admit. *)

From Stdlib Require Import Ascii String.
From Stdlib Require Import List Arith Lia Bool.
From S2P Require Import Prelude Regex.
Import ListNotations.
Open Scope list_scope.

Scheme matches_ind2 := Induction for matches Sort Prop
  with iterates_ind2 := Induction for iterates Sort Prop.

Section Completeness.

Variable t : str.

Lemma at_boundary_le i : at_boundary t i = true -> i <= length t.
Proof.
  intros H. destruct (Nat.le_gt_cases i (length t)) as [Hle|Hgt]; [exact Hle|exfalso].
  unfold at_boundary, word_at in H. destruct t as [|a l]; [discriminate|].
  rewrite (proj2 (nth_error_None _ i)) in H by lia.
  destruct i as [|i']; [cbn in Hgt; lia|].
  rewrite (proj2 (nth_error_None _ i')) in H by (cbn in Hgt |- *; lia). discriminate.
Qed.

(** A match starting inside the text ends inside it, after its start. *)
Lemma matches_le r i j : matches t r i j -> i <= length t -> i <= j <= length t.
Proof.
  intros Hm. revert Hm.
  apply (matches_ind2 t (fun r i j _ => i <= length t -> i <= j <= length t)
                        (fun r n i j _ => i <= length t -> i <= j <= length t));
    intros;
    try match goal with E : nth_error t _ = Some _ |- _ => apply (nth_error_lt t) in E end;
    repeat match goal with H : _ <= length t -> _ |- _ => specialize (H ltac:(lia)) end; lia.
Qed.

Section RepLoopComplete.

Variables (r1 : regex) (greedy : bool) (lo : nat) (hi : option nat).

Hypothesis body_complete : forall i j (k : cont), matches t r1 i j -> i <= length t ->
  k j <> None -> sre_match t r1 i k <> None.

(** The loop finds a way through any [m] further iterations that reach
    the bounds: the forced ones as they are, the optional ones that match
    empty skipped, so that zero-width protection never stops it. *)
Lemma rep_loop_complete m : forall fuel c i j p (k : cont),
  iterates t r1 m i j -> i <= length t -> lo <= c + m -> within hi (c + m) ->
  (c < lo \/ p = true) -> rep_need t lo c i p <= fuel -> k j <> None ->
  rep_loop (sre_match t r1) greedy lo hi k fuel c i p <> None.
Proof.
  induction m as [|m IH]; intros fuel c i j p k Hit Hi Hlo Hhi Hp Hf Hk;
    (destruct fuel as [|f]; [pose proof (rep_need_pos t lo c i p); lia|]).
  - inversion Hit; subst. cbn [rep_loop]. case_test (c <? lo); [lia|].
    destruct (below hi c && p); [|exact Hk].
    destruct greedy; [destruct (sre_match t r1 j _); [discriminate|exact Hk]|].
    destruct (k j); [discriminate|contradiction].
  - inversion Hit as [|? ? ? j1 ? Hm Hrest]; subst.
    pose proof (matches_le _ _ _ Hm Hi) as Hj1.
    destruct (Nat.lt_ge_cases c lo) as [Hc|Hc].
    + cbn [rep_loop]. replace (c <? lo) with true by (symmetry; now apply Nat.ltb_lt).
      apply (body_complete i j1); [exact Hm|exact Hi|].
      pose proof (rep_need_step t lo c i j1 p Hj1 (or_introl Hc)) as Hs.
      replace (c <? lo) with true in Hs by (symmetry; now apply Nat.ltb_lt).
      apply (IH f (S c) j1 j true k); auto; try lia; unfold within in *; destruct hi; lia.
    + destruct Hp as [Hp| ->]; [lia|].
      destruct (Nat.eq_dec j1 i) as [-> | Hne].
      * apply (IH (S f) c i j true k); auto; [lia|]. unfold within in *. destruct hi; lia.
      * cbn [rep_loop]. replace (c <? lo) with false by (symmetry; now apply Nat.ltb_ge).
        assert (Hb : below hi c = true).
        { unfold below, within in *. destruct hi as [h|]; [apply Nat.ltb_lt; lia|reflexivity]. }
        rewrite Hb. cbn [andb].
        pose proof (rep_need_step t lo c i j1 true Hj1 (or_intror eq_refl)) as Hs.
        replace (c <? lo) with false in Hs by (symmetry; now apply Nat.ltb_ge).
        assert (Hbody : sre_match t r1 i
                  (fun j0 => rep_loop (sre_match t r1) greedy lo hi k f (S c) j0 (negb (j0 =? i))) <> None).
        { apply (body_complete i j1); [exact Hm|exact Hi|].
          replace (negb (j1 =? i)) with true by (symmetry; apply negb_true_iff, Nat.eqb_neq; exact Hne).
          replace (negb (j1 =? i)) with true in Hs by (symmetry; apply negb_true_iff, Nat.eqb_neq; exact Hne).
          apply (IH f (S c) j1 j true k); auto; try lia; unfold within in *; destruct hi; lia. }
        destruct greedy.
        -- destruct (sre_match t r1 i _); [discriminate|contradiction].
        -- destruct (k i); [discriminate|exact Hbody].
Qed.

End RepLoopComplete.

(** The matcher finds a match at [i] whenever the regex matches from [i]
    to some [j] its continuation accepts. *)
Lemma sre_match_complete r : forall i j (k : cont),
  matches t r i j -> i <= length t -> k j <> None -> sre_match t r i k <> None.
Proof.
  induction r as [cls|r1 IH1 r2 IH2|r1 IH1 r2 IH2|g lo hi r1 IH1| |];
    intros i j k Hm Hi Hk; inversion Hm; subst; cbn [sre_match].
  - match goal with H : nth_error t i = Some _ |- _ => rewrite H end.
    match goal with H : class_mem _ _ = true |- _ => rewrite H end. exact Hk.
  - match goal with H1 : matches t r1 i ?m, H2 : matches t r2 ?m j |- _ =>
      apply (IH1 i m); [exact H1|exact Hi|];
      apply (IH2 m j); [exact H2|apply (matches_le _ _ _ H1 Hi)|exact Hk] end.
  - destruct (sre_match t r1 i k) eqn:E; [discriminate|].
    exfalso. revert E. eapply IH1; eauto.
  - destruct (sre_match t r1 i k); [discriminate|]. eapply IH2; eauto.
  - eapply (rep_loop_complete r1 g lo hi IH1); eauto.
    unfold rep_need, rep_fuel. destruct (0 <? lo); lia.
  - match goal with H : at_boundary t j = true |- _ => rewrite H end. exact Hk.
  - exact Hk.
Qed.

(** The search finds a match starting no later than any match that
    starts at or after its position, except an empty match at the
    position when the search must advance. *)
Lemma search_from_complete r fuel : forall adv p s e,
  p <= s <= length t -> s - p < fuel -> matches t r s e ->
  ~ (adv = true /\ s = p /\ e = p) ->
  exists s' e', search_from t r adv fuel p = Some (s', e') /\ p <= s' <= s.
Proof.
  induction fuel as [|f IH]; intros adv p s e Hs Hf Hm Hb; [lia|]. cbn [search_from].
  destruct (sre_match t r p (accept adv p)) as [e'|] eqn:Em; [exists p, e'; split; [reflexivity|lia]|].
  destruct (Nat.eq_dec s p) as [->|Hne].
  - exfalso. revert Em. apply (sre_match_complete r p e); [exact Hm|lia|].
    unfold accept. destruct adv; cbn; [|discriminate].
    case_test (e =? p); [tauto|discriminate].
  - case_test (p <? length t); [|lia].
    destruct (IH false (S p) s e) as (s' & e' & H1 & H2); [lia|lia|exact Hm|intros [? _]; discriminate|].
    exists s', e'. split; [exact H1|lia].
Qed.

Lemma finditer_loop_complete r f : forall pos adv s e,
  fi_need t pos adv <= f -> pos <= s <= length t -> matches t r s e ->
  ~ (adv = true /\ s = pos /\ e = pos) ->
  exists s' e', In (s', e') (finditer_loop t r f pos adv) /\ s' <= s /\ (s < e' \/ s' = s).
Proof.
  induction f as [|f IH]; intros pos adv s e Hf Hs Hm Hb; [unfold fi_need in Hf; destruct adv; lia|].
  cbn [finditer_loop]. unfold search.
  destruct (search_from_complete r (S (length t - pos)) adv pos s e) as (s1 & e1 & Hsr & Hs1);
    [lia|lia|exact Hm|exact Hb|].
  rewrite Hsr.
  assert (Hsnd : pos <= s1 <= e1 /\ e1 <= length t /\ (adv = true -> s1 = pos -> e1 <> s1))
    by (apply (search_sound t r adv pos); [lia|exact Hsr]).
  destruct (Nat.lt_ge_cases s e1) as [Hlt|Hge]; [exists s1, e1; split; [now left|lia]|].
  destruct (Nat.eq_dec s1 s) as [Heq|Hne]; [exists s1, e1; split; [now left|lia]|].
  pose proof (fi_need_step t r pos adv s1 e1 ltac:(lia) Hsr) as Hstep.
  destruct (IH e1 (e1 =? s1) s e) as (s' & e' & Hin & H1 & H2); [lia|lia|exact Hm| |].
  - intros [Hadv [Hse _]]. apply Nat.eqb_eq in Hadv. lia.
  - exists s', e'. split; [now right|auto].
Qed.

End Completeness.

(** C29: [re.finditer] misses no occurrence: for every match [[s, e)] of
    the pattern in the language sense, with [s] inside the text, the
    scanner reports a match that starts at [s] or starts before [s] and
    ends after it. *)
Theorem re_finditer_complete t r s e :
  matches t r s e -> s <= length t ->
  exists s' e', In (s', e') (re_finditer t r) /\ s' <= s /\ (s < e' \/ s' = s).
Proof.
  intros Hm Hs. unfold re_finditer.
  apply (finditer_loop_complete t r _ 0 false s e); [unfold fi_need; lia|lia|exact Hm|].
  intros [H _]. discriminate.
Qed.

(** ** The characters a match covers *)

(** The 256 code points a character of a text can be. *)
Definition all_ascii : list ascii := map ascii_of_nat (seq 0 256).

Lemma all_ascii_In a : In a all_ascii.
Proof.
  rewrite <- (ascii_nat_embedding a). apply in_map, in_seq.
  pose proof (nat_ascii_bounded a). lia.
Qed.

(** Every class of [r] admits only characters satisfying [P]: decided
    by trying the 256 code points. *)
Fixpoint chars_within (P : ascii -> bool) (r : regex) : bool :=
  match r with
  | RChar cls => forallb (fun a => negb (class_mem cls a) || P a) all_ascii
  | RSeq r1 r2 | RAlt r1 r2 => chars_within P r1 && chars_within P r2
  | RRep _ _ _ r1 => chars_within P r1
  | RWordB | REmpty => true
  end.

Lemma chars_within_class P cls a :
  chars_within P (RChar cls) = true -> class_mem cls a = true -> P a = true.
Proof.
  cbn [chars_within]. rewrite forallb_forall. intros H Hm.
  specialize (H a (all_ascii_In a)). rewrite Hm in H. exact H.
Qed.

Section Within.

Variables (t : str) (P : ascii -> bool).

Definition covered_by (i j : nat) : Prop :=
  forall k a, i <= k < j -> nth_error t k = Some a -> P a = true.

Lemma covered_by_app i j l : covered_by i j -> covered_by j l -> i <= j -> covered_by i l.
Proof.
  intros H1 H2 Hij k a Hk. destruct (Nat.lt_ge_cases k j); [apply H1|apply H2]; lia.
Qed.

Lemma matches_within_le r i j :
  chars_within P r = true -> matches t r i j -> covered_by i j /\ i <= j.
Proof.
  intros Hr Hm. revert Hr.
  induction Hm using matches_ind2 with
    (P0 := fun r n i j _ => chars_within P r = true -> covered_by i j /\ i <= j);
    cbn [chars_within]; intros Hr;
    repeat match goal with H : _ && _ = true |- _ => apply andb_prop in H as [? ?] end;
    try (split; [intros k b Hk; lia|lia]).
  - split; [|lia]. intros k b Hk Hb. replace k with i in Hb by lia. rewrite e in Hb.
    injection Hb as <-. exact (chars_within_class P cls a Hr e0).
  - destruct IHHm1, IHHm2; auto. split; [apply (covered_by_app i j k)|]; auto; lia.
  - auto.
  - auto.
  - auto.
  - destruct IHHm, IHHm0; auto. split; [apply (covered_by_app i j k)|]; auto; lia.
Qed.

(** A match of a pattern whose classes admit only [P] covers only
    characters satisfying [P]. *)
Lemma matches_within r i j :
  chars_within P r = true -> matches t r i j -> covered_by i j.
Proof. intros Hr Hm. exact (proj1 (matches_within_le r i j Hr Hm)). Qed.

End Within.
