(* ===== verification/Patterns.v ===== *)
(** * The pattern registry [PATTERNS] of [src/utils.py]

    The dictionary [PATTERNS] (utils.py, lines 9-18) maps each entity kind
    to a regular expression.  It is modelled as an association list, in
    the dictionary's insertion order (the order [PATTERNS.items()] yields,
    which the masker's tie-break depends on), of the key string and the
    syntax tree of the regular expression, each tree a transcription of
    the pattern string of the source.

    A character class is the list of its items ([Regex.class_item]) in
    the order of the pattern: literals, ranges and the categories [\d],
    [\s], [\w].  The trees are written in the shape [re_compile]
    ([RegexParse]) gives them, which [RegexParse.PATTERNS_compiled] checks
    against the pattern strings of the source. *)

From Stdlib Require Import Ascii String.
From Stdlib Require Import List Arith Lia Bool.
From S2P Require Import Prelude Regex.
Import ListNotations.
Open Scope list_scope.

(** ** Regex combinators for the quantifiers of the patterns *)

Definition chr (c : ascii) : regex := RChar [CLit c].
Definition seqs (rs : list regex) : regex := fold_right RSeq REmpty rs.
Definition alts (r : regex) (rs : list regex) : regex := fold_left (fun a b => RAlt a b) rs r.
Definition plus (r : regex) : regex := RRep true 1 None r.           (* r+  *)
Definition opt (r : regex) : regex := RRep true 0 (Some 1) r.        (* r?  *)
Definition lazy_opt (r : regex) : regex := RRep false 0 (Some 1) r.  (* r?? *)
Definition lazy_star (r : regex) : regex := RRep false 0 None r.     (* r*? *)
Definition count (lo hi : nat) (r : regex) : regex := RRep true lo (Some hi) r. (* r{lo,hi} *)

Definition digit : regex := RChar [CDigit].
Definition space : regex := RChar [CSpace].

(** ** The patterns *)

(** [([A-Z][a-z]+(?:\s[A-Z][a-z]+)+)] *)
Definition full_name_re : regex :=
  seqs [RChar [CRange "A" "Z"]; plus (RChar [CRange "a" "z"]);
        plus (seqs [space; RChar [CRange "A" "Z"]; plus (RChar [CRange "a" "z"])])].

(** [([a-zA-Z0-9_.+-]+@[a-zA-Z0-9-]+\.[a-zA-Z0-9-.]+)] *)
Definition email_re : regex :=
  seqs [plus (RChar [CRange "a" "z"; CRange "A" "Z"; CRange "0" "9";
                     CLit "_"; CLit "."; CLit "+"; CLit "-"]);
        chr "@";
        plus (RChar [CRange "a" "z"; CRange "A" "Z"; CRange "0" "9"; CLit "-"]);
        chr ".";
        plus (RChar [CRange "a" "z"; CRange "A" "Z"; CRange "0" "9"; CLit "-"; CLit "."])].

(** [[-.\s]] *)
Definition phone_sep : regex := RChar [CLit "-"; CLit "."; CSpace].

(** [(\+?\d{1,3}[-.\s]??\d{1,4}[-.\s]??\d{3,4}[-.\s]??\d{3,4})] *)
Definition phone_number_re : regex :=
  seqs [opt (chr "+"); count 1 3 digit; lazy_opt phone_sep; count 1 4 digit;
        lazy_opt phone_sep; count 3 4 digit; lazy_opt phone_sep; count 3 4 digit].

(** [[-/]] *)
Definition date_sep : regex := RChar [CLit "-"; CLit "/"].

(** [(\b(?:0?[1-9]|[12][0-9]|3[01])[-/](?:0?[1-9]|1[012])[-/](?:19|20)\d{2}\b)] *)
Definition dob_re : regex :=
  seqs [RWordB;
        alts (seqs [opt (chr "0"); RChar [CRange "1" "9"]])
             [seqs [RChar [CLit "1"; CLit "2"]; RChar [CRange "0" "9"]];
              seqs [chr "3"; RChar [CLit "0"; CLit "1"]]];
        date_sep;
        alts (seqs [opt (chr "0"); RChar [CRange "1" "9"]])
             [seqs [chr "1"; RChar [CLit "0"; CLit "1"; CLit "2"]]];
        date_sep;
        alts (seqs [chr "1"; chr "9"]) [seqs [chr "2"; chr "0"]];
        count 2 2 digit;
        RWordB].

(** [\b\d{4}\s?\d{4}\s?\d{4}\b] *)
Definition aadhar_num_re : regex :=
  seqs [RWordB; count 4 4 digit; opt space; count 4 4 digit; opt space;
        count 4 4 digit; RWordB].

(** [\b(?:\d[ -]*?){13,16}\b] *)
Definition credit_debit_no_re : regex :=
  seqs [RWordB; count 13 16 (seqs [digit; lazy_star (RChar [CLit " "; CLit "-"])]); RWordB].

(** [\b\d{3,4}\b] *)
Definition cvv_no_re : regex := seqs [RWordB; count 3 4 digit; RWordB].

(** [\b(0[1-9]|1[0-2])\/?([0-9]{2}|[0-9]{4})\b] *)
Definition expiry_no_re : regex :=
  seqs [RWordB;
        alts (seqs [chr "0"; RChar [CRange "1" "9"]]) [seqs [chr "1"; RChar [CRange "0" "2"]]];
        opt (chr "/");
        alts (count 2 2 (RChar [CRange "0" "9"])) [count 4 4 (RChar [CRange "0" "9"])];
        RWordB].

(** [PATTERNS], in insertion order. *)
Definition PATTERNS : list (str * regex) :=
  [(lit "full_name", full_name_re);
   (lit "email", email_re);
   (lit "phone_number", phone_number_re);
   (lit "dob", dob_re);
   (lit "aadhar_num", aadhar_num_re);
   (lit "credit_debit_no", credit_debit_no_re);
   (lit "cvv_no", cvv_no_re);
   (lit "expiry_no", expiry_no_re)].
