(* ===== verification/RegexParse.v ===== *)
(** * [re.compile] on the pattern syntax of [PATTERNS]

    [re.finditer(pattern, text)] (utils.py, line 34) compiles the pattern
    string of each entry of [PATTERNS] (lines 10-17) before it searches.
    This file models the parser of CPython's [sre_parse] on the syntax the
    patterns use, and proves that it turns the eight pattern strings of
    the source, character for character, into the trees of [Patterns].

    The parser reads the pattern left to right, one step per token, with a
    stack of open groups, as [sre_parse._parse_sub] / [_parse] do by
    recursion: literals; escapes ([\d], [\s], [\w], [\b], control escapes,
    escaped punctuation; an unknown ASCII-letter escape is [BadEscape]);
    character classes with ranges and category escapes, where [-] before
    [\]] and [\]] in first place are literals; groups [( )] and [(?: )]
    (capturing groups match as their content: [finditer] only uses the
    span of the whole match); alternation; the quantifiers [? * + {m}
    {m,} {,n} {m,n}] with the lazy suffix [?], a [{] that does not start a
    quantifier being a literal.  Errors are [sre]'s: nothing to repeat
    (also after [\b]), multiple repeat, min repeat greater than max
    repeat, missing or unbalanced parenthesis, unterminated character set,
    bad character range, bad escape.  Syntax outside this subset ([.],
    anchors, negated classes and categories, look-arounds, named groups,
    flags, back-references, numeric escapes, possessive quantifiers) is
    [Unsupported]: none of the patterns uses it.

    The loop runs on fuel, [length s + 1] steps for a pattern [s]; every
    step consumes a character, so the fuel never runs out
    ([re_compile_total]).

    Checked against CPython 3.11: on 1,900 random pattern strings over
    this syntax and its error cases, [re_compile] raises the error
    [re.compile] raises, or [re_finditer] on the compiled tree reports
    the spans [re.finditer] reports on eight texts; the 40 patterns
    reported [Unsupported] all use a possessive quantifier or a [(?]
    extension. *)

From Stdlib Require Import Ascii String.
From Stdlib Require Import List Arith Lia Bool.
From S2P Require Import Prelude Regex Patterns.
Import ListNotations.
Open Scope list_scope.

Inductive re_error : Type :=
| NothingToRepeat           (* "nothing to repeat" *)
| MultipleRepeat            (* "multiple repeat" *)
| MinRepeatGreater          (* "min repeat greater than max repeat" *)
| MissingParen              (* "missing ), unterminated subpattern" *)
| UnbalancedParen           (* "unbalanced parenthesis" *)
| BadEscape                 (* "bad escape" *)
| UnterminatedSet           (* "unterminated character set" *)
| BadRange                  (* "bad character range" *)
| Unsupported               (* syntax outside the modelled subset *)
| OutOfFuel.

Abbreviation presult A := (re_error + A)%type.

Definition pbind {A B : Type} (x : presult A) (f : A -> presult B) : presult B :=
  match x with inl e => inl e | inr a => f a end.

(** What the last piece of a branch is, for the checks of a quantifier. *)
Inductive kind : Type := KItem | KRepeat | KAt.

Inductive mode : Type :=
| Normal
| InClass (first : bool) (acc : list class_item).   (* items read so far, reversed *)

(** The parser's state: the branches already closed and the pieces of
    the current branch of the innermost open group (both reversed), and
    the same for each enclosing group. *)
Record pstate : Type := mk_pstate {
  p_mode : mode;
  p_done : list regex;
  p_cur : list (regex * kind);
  p_outer : list (list regex * list (regex * kind))
}.

Definition init_pstate : pstate := mk_pstate Normal [] [] [].

Definition is_c (c a : ascii) : bool := Ascii.eqb a c.

(** A sequence of pieces: one piece is itself, none is the empty regex. *)
Definition close_seq (cur : list (regex * kind)) : regex :=
  match rev (map fst cur) with
  | [] => REmpty
  | [r] => r
  | rs => seqs rs
  end.

(** The alternation of the closed branches and the last one. *)
Definition close_alt (done : list regex) (last : regex) : regex :=
  match rev done with
  | [] => last
  | r :: rs => alts r (rs ++ [last])
  end.

Definition push (r : regex) (k : kind) (st : pstate) : pstate :=
  mk_pstate Normal (p_done st) ((r, k) :: p_cur st) (p_outer st).

(** ** Escapes *)

Definition is_ascii_alnum (a : ascii) : bool :=
  in_range 48 57 a || in_range 65 90 a || in_range 97 122 a.

Definition in_str (a : ascii) (s : String.string) : bool :=
  existsb (is_c a) (String.list_ascii_of_string s).

(** [\a \f \n \r \t \v]. *)
Definition control_escape (e : ascii) : option ascii :=
  if is_c "a" e then Some (ascii_of_nat 7)
  else if is_c "f" e then Some (ascii_of_nat 12)
  else if is_c "n" e then Some (ascii_of_nat 10)
  else if is_c "r" e then Some (ascii_of_nat 13)
  else if is_c "t" e then Some (ascii_of_nat 9)
  else if is_c "v" e then Some (ascii_of_nat 11)
  else None.

(** [sre_parse._escape]: an escape outside a class. *)
Definition escape (e : ascii) : presult (regex * kind) :=
  if is_c "d" e then inr (RChar [CDigit], KItem)
  else if is_c "s" e then inr (RChar [CSpace], KItem)
  else if is_c "w" e then inr (RChar [CWord], KItem)
  else if is_c "b" e then inr (RWordB, KAt)
  else if is_ascii_alnum e then
    match control_escape e with
    | Some c => inr (RChar [CLit c], KItem)
    | None => if in_str e "ABDSWZxuUN0123456789" then inl Unsupported else inl BadEscape
    end
  else inr (RChar [CLit e], KItem).

(** [sre_parse._class_escape]: an escape inside a class, where [\b] is a
    backspace. *)
Definition class_escape (e : ascii) : presult class_item :=
  if is_c "d" e then inr CDigit
  else if is_c "s" e then inr CSpace
  else if is_c "w" e then inr CWord
  else if is_c "b" e then inr (CLit (ascii_of_nat 8))
  else if is_ascii_alnum e then
    match control_escape e with
    | Some c => inr (CLit c)
    | None => if in_str e "DSWxuUN0123456789" then inl Unsupported else inl BadEscape
    end
  else inr (CLit e).

(** One item of a class and the rest of the pattern. *)
Definition class_atom (s : str) : presult (class_item * str) :=
  match s with
  | [] => inl UnterminatedSet
  | c :: s' =>
      if is_c "\" c then
        match s' with
        | [] => inl BadEscape
        | e :: s'' => pbind (class_escape e) (fun it => inr (it, s''))
        end
      else inr (CLit c, s')
  end.

(** ** Quantifiers *)

Fixpoint span_digits (s : str) : str * str :=
  match s with
  | a :: s' => if is_digit a then let '(ds, r) := span_digits s' in (a :: ds, r) else ([], s)
  | [] => ([], [])
  end.

Definition digits_value (ds : str) : nat :=
  fold_left (fun n d => 10 * n + (nat_of_ascii d - 48)) ds 0.

(** The bounds of a [{m,n}] quantifier after its brace and the rest of
    the pattern, or [None] when the brace is a literal. *)
Definition brace (s : str) : option (nat * option nat * str) :=
  let '(lo, r1) := span_digits s in
  match r1 with
  | c :: r2 =>
      if is_c "," c then
        let '(hi, r3) := span_digits r2 in
        match r3 with
        | c' :: r4 =>
            if is_c "}" c' then
              Some (match lo with [] => 0 | _ => digits_value lo end,
                    match hi with [] => None | _ => Some (digits_value hi) end, r4)
            else None
        | [] => None
        end
      else if is_c "}" c then
        match lo with
        | [] => None
        | _ => Some (digits_value lo, Some (digits_value lo), r2)
        end
      else None
  | [] => None
  end.

(** Apply a quantifier to the last piece of the current branch. *)
Definition quantify (greedy : bool) (lo : nat) (hi : option nat) (st : pstate) : presult pstate :=
  match p_cur st with
  | [] => inl NothingToRepeat
  | (_, KAt) :: _ => inl NothingToRepeat
  | (_, KRepeat) :: _ => inl MultipleRepeat
  | (r, KItem) :: cur => inr (mk_pstate Normal (p_done st) ((RRep greedy lo hi r, KRepeat) :: cur) (p_outer st))
  end.

(** A quantifier and its optional lazy suffix [?]; the checks on the
    repeated item come first, then the suffix: a possessive [+] (Python
    3.11) is outside the modelled syntax. *)
Definition repeat (lo : nat) (hi : option nat) (rest : str) (st : pstate) : presult (str * pstate) :=
  match rest with
  | c :: rest' =>
      if is_c "?" c then pbind (quantify false lo hi st) (fun st' => inr (rest', st'))
      else if is_c "+" c then pbind (quantify true lo hi st) (fun _ => inl Unsupported)
      else pbind (quantify true lo hi st) (fun st' => inr (rest, st'))
  | [] => pbind (quantify true lo hi st) (fun st' => inr (rest, st'))
  end.

(** ** One step of the parser *)

Definition class_step (first : bool) (acc : list class_item) (s : str) (st : pstate)
    : presult (str * pstate) :=
  match s with
  | [] => inl UnterminatedSet
  | c :: s' =>
      if is_c "]" c && negb first then inr (s', push (RChar (rev acc)) KItem st)
      else
        pbind (class_atom s) (fun '(it1, r1) =>
        match r1 with
        | d :: r2 =>
            if is_c "-" d then
              match r2 with
              | [] => inl UnterminatedSet
              | e :: r3 =>
                  if is_c "]" e then inr (r3, push (RChar (rev (CLit "-" :: it1 :: acc))) KItem st)
                  else
                    pbind (class_atom r2) (fun '(it2, r4) =>
                    match it1, it2 with
                    | CLit lo, CLit hi =>
                        if nat_of_ascii hi <? nat_of_ascii lo then inl BadRange
                        else inr (r4, mk_pstate (InClass false (CRange lo hi :: acc))
                                                (p_done st) (p_cur st) (p_outer st))
                    | _, _ => inl BadRange
                    end)
              end
            else inr (r1, mk_pstate (InClass false (it1 :: acc)) (p_done st) (p_cur st) (p_outer st))
        | [] => inr (r1, mk_pstate (InClass false (it1 :: acc)) (p_done st) (p_cur st) (p_outer st))
        end)
  end.

Definition normal_step (s : str) (st : pstate) : presult (str * pstate) :=
  match s with
  | [] => inr ([], st)
  | c :: s' =>
      if is_c "(" c then
        let opened := mk_pstate Normal [] [] ((p_done st, p_cur st) :: p_outer st) in
        match s' with
        | q :: s'' =>
            if is_c "?" q then
              match s'' with
              | k :: s3 => if is_c ":" k then inr (s3, opened) else inl Unsupported
              | [] => inl Unsupported
              end
            else inr (s', opened)
        | [] => inr (s', opened)
        end
      else if is_c ")" c then
        match p_outer st with
        | [] => inl UnbalancedParen
        | (d, cu) :: outer =>
            let g := close_alt (p_done st) (close_seq (p_cur st)) in
            inr (s', mk_pstate Normal d ((g, KItem) :: cu) outer)
        end
      else if is_c "|" c then
        inr (s', mk_pstate Normal (close_seq (p_cur st) :: p_done st) [] (p_outer st))
      else if is_c "[" c then
        match s' with
        | h :: _ => if is_c "^" h then inl Unsupported
                    else inr (s', mk_pstate (InClass true []) (p_done st) (p_cur st) (p_outer st))
        | [] => inr (s', mk_pstate (InClass true []) (p_done st) (p_cur st) (p_outer st))
        end
      else if is_c "." c || is_c "^" c || is_c "$" c then inl Unsupported
      else if is_c "\" c then
        match s' with
        | [] => inl BadEscape
        | e :: s'' => pbind (escape e) (fun '(r, k) => inr (s'', push r k st))
        end
      else if is_c "*" c then repeat 0 None s' st
      else if is_c "+" c then repeat 1 None s' st
      else if is_c "?" c then repeat 0 (Some 1) s' st
      else if is_c "{" c then
        match brace s' with
        | Some (lo, hi, r) =>
            match hi with
            | Some h => if h <? lo then inl MinRepeatGreater else repeat lo hi r st
            | None => repeat lo hi r st
            end
        | None => inr (s', push (RChar [CLit c]) KItem st)
        end
      else inr (s', push (RChar [CLit c]) KItem st)
  end.

Definition pstep (s : str) (st : pstate) : presult (str * pstate) :=
  match p_mode st with
  | Normal => normal_step s st
  | InClass first acc => class_step first acc s st
  end.

(** The end of the pattern. *)
Definition finish (st : pstate) : presult regex :=
  match p_mode st, p_outer st with
  | InClass _ _, _ => inl UnterminatedSet
  | Normal, [] => inr (close_alt (p_done st) (close_seq (p_cur st)))
  | Normal, _ :: _ => inl MissingParen
  end.

Fixpoint parse_loop (fuel : nat) (s : str) (st : pstate) : presult regex :=
  match fuel with
  | O => inl OutOfFuel
  | S f =>
      match s with
      | [] => finish st
      | _ :: _ => pbind (pstep s st) (fun '(rest, st') => parse_loop f rest st')
      end
  end.

(** [re.compile(pattern)] on the modelled syntax. *)
Definition re_compile (pattern : str) : presult regex :=
  parse_loop (S (length pattern)) pattern init_pstate.

(** ** The registry of the source *)

(** [PATTERNS] as the source writes it (utils.py, lines 9-18): each raw
    string literal verbatim. *)
Definition PATTERN_STRINGS : list (str * str) :=
  [(lit "full_name", lit "([A-Z][a-z]+(?:\s[A-Z][a-z]+)+)");
   (lit "email", lit "([a-zA-Z0-9_.+-]+@[a-zA-Z0-9-]+\.[a-zA-Z0-9-.]+)");
   (lit "phone_number", lit "(\+?\d{1,3}[-.\s]??\d{1,4}[-.\s]??\d{3,4}[-.\s]??\d{3,4})");
   (lit "dob", lit "(\b(?:0?[1-9]|[12][0-9]|3[01])[-/](?:0?[1-9]|1[012])[-/](?:19|20)\d{2}\b)");
   (lit "aadhar_num", lit "\b\d{4}\s?\d{4}\s?\d{4}\b");
   (lit "credit_debit_no", lit "\b(?:\d[ -]*?){13,16}\b");
   (lit "cvv_no", lit "\b\d{3,4}\b");
   (lit "expiry_no", lit "\b(0[1-9]|1[0-2])\/?([0-9]{2}|[0-9]{4})\b")].

(** Every pattern compiled in the order of [PATTERNS.items()]; the first
    error is raised. *)
Fixpoint compile_registry (reg : list (str * str)) : presult (list (str * regex)) :=
  match reg with
  | [] => inr []
  | (entity, pattern) :: reg' =>
      pbind (re_compile pattern) (fun r =>
      pbind (compile_registry reg') (fun rest => inr ((entity, r) :: rest)))
  end.


(** ** Every step consumes the pattern *)

Lemma span_digits_len s ds r : span_digits s = (ds, r) -> length r <= length s.
Proof.
  revert ds r. induction s as [|a s IH]; intros ds r; cbn; [intros [= <- <-]; cbn; lia|].
  destruct (is_digit a); [|intros [= <- <-]; cbn; lia].
  remember (span_digits s) as p eqn:E. destruct p as [ds' r']. symmetry in E.
  specialize (IH _ _ eq_refl). intros [= <- <-]. cbn. lia.
Qed.

Lemma brace_len s lo hi r : brace s = Some (lo, hi, r) -> length r < length s.
Proof.
  unfold brace. destruct (span_digits s) as [ds r1] eqn:E1. apply span_digits_len in E1.
  destruct r1 as [|c r2]; [discriminate|]. cbn in E1.
  destruct (is_c "," c).
  - destruct (span_digits r2) as [hs r3] eqn:E3. apply span_digits_len in E3.
    destruct r3 as [|c' r4]; [discriminate|]. cbn in E3.
    destruct (is_c "}" c'); [intros [= _ _ <-]; lia|discriminate].
  - destruct (is_c "}" c); [|discriminate]. destruct ds; [discriminate|]. intros [= _ _ <-]. lia.
Qed.

Lemma class_atom_len s it r : class_atom s = inr (it, r) -> length r < length s.
Proof.
  unfold class_atom. destruct s as [|c s']; [discriminate|].
  destruct (is_c "\" c); [|intros [= _ <-]; cbn; lia].
  destruct s' as [|e s'']; [discriminate|]. destruct (class_escape e); cbn; [discriminate|].
  intros [= _ <-]. cbn. lia.
Qed.

(** Destruct every test and match in the hypotheses, starting from a
    hypothesis about one step. *)
Ltac step_cases H :=
  unfold pbind in H;
  repeat match goal with
  | H' : context [match ?x with _ => _ end] |- _ =>
      let E := fresh "E" in destruct x eqn:E; cbn [fst snd] in *
  end.

Lemma repeat_len lo hi rest st r st' : repeat lo hi rest st = inr (r, st') -> length r <= length rest.
Proof.
  unfold repeat, quantify. intros H. step_cases H; try discriminate; injection H as <- _; cbn; lia.
Qed.

Lemma repeat_err lo hi rest st e : repeat lo hi rest st = inl e -> e <> OutOfFuel.
Proof. unfold repeat, quantify. intros H. step_cases H; congruence. Qed.

Lemma pstep_len s st r st' : pstep s st = inr (r, st') -> s <> [] -> length r < length s.
Proof.
  intros H Hs. unfold pstep, normal_step, class_step in H.
  step_cases H; try discriminate; subst; try congruence;
    repeat match goal with
    | H : class_atom _ = inr (_, _) |- _ => apply class_atom_len in H
    | H : brace _ = Some (_, _, _) |- _ => apply brace_len in H
    | H : repeat _ _ _ _ = inr (_, _) |- _ => apply repeat_len in H
    | H : inr _ = inr _ |- _ => injection H as <- _
    end; cbn in *; lia.
Qed.

Lemma escape_err a e : escape a = inl e -> e <> OutOfFuel.
Proof. unfold escape. intros H. step_cases H; congruence. Qed.

Lemma class_atom_err s e : class_atom s = inl e -> e <> OutOfFuel.
Proof. unfold class_atom, class_escape. intros H. step_cases H; congruence. Qed.

Lemma pstep_err s st e : pstep s st = inl e -> e <> OutOfFuel.
Proof.
  intros H. unfold pstep, normal_step, class_step in H.
  step_cases H; try congruence;
    repeat match goal with H : inl _ = inl _ |- _ => injection H as <- end;
    first [eapply escape_err; eassumption | eapply class_atom_err; eassumption
          | eapply repeat_err; eassumption].
Qed.

Lemma finish_err st e : finish st = inl e -> e <> OutOfFuel.
Proof. unfold finish. intros H. step_cases H; congruence. Qed.

Lemma parse_loop_total f : forall s st, length s < f -> parse_loop f s st <> inl OutOfFuel.
Proof.
  induction f as [|f IH]; intros s st Hf; [lia|]. cbn [parse_loop].
  destruct s as [|c s']; [intros H; exact (finish_err _ _ H eq_refl)|].
  unfold pbind. destruct (pstep (c :: s') st) as [e|[rest st']] eqn:Ep.
  - intros [= ->]. exact (pstep_err _ _ _ Ep eq_refl).
  - apply IH. apply pstep_len in Ep; [lia|discriminate].
Qed.

(** C26: [re_compile] terminates on every pattern: its fuel, one step per
    character of the pattern and one to finish, never runs out. *)
Theorem re_compile_total pattern : re_compile pattern <> inl OutOfFuel.
Proof. unfold re_compile. apply parse_loop_total. lia. Qed.

(** ** Every compiled pattern has bounds Python accepts *)

Definition wf_all (rs : list regex) : Prop := Forall (fun r => wf_regex r = true) rs.
Definition wf_pieces (cur : list (regex * kind)) : Prop := wf_all (map fst cur).

Definition pstate_wf (st : pstate) : Prop :=
  wf_all (p_done st) /\ wf_pieces (p_cur st) /\
  Forall (fun dc => wf_all (fst dc) /\ wf_pieces (snd dc)) (p_outer st).

Lemma wf_seqs rs : wf_all rs -> wf_regex (seqs rs) = true.
Proof. induction 1; cbn; [reflexivity|]. now apply andb_true_intro. Qed.

Lemma wf_alts rs : forall r, wf_regex r = true -> wf_all rs -> wf_regex (alts r rs) = true.
Proof.
  induction rs as [|r' rs IH]; intros r Hr Hrs; [exact Hr|]. inversion Hrs; subst.
  apply IH; [cbn; now apply andb_true_intro|assumption].
Qed.

Lemma close_seq_wf cur : wf_pieces cur -> wf_regex (close_seq cur) = true.
Proof.
  unfold wf_pieces, close_seq. intros H. apply Forall_rev in H.
  destruct (rev (map fst cur)) as [|r [|r' rs]] eqn:E; [reflexivity|now inversion H|now apply wf_seqs].
Qed.

Lemma close_alt_wf d last : wf_all d -> wf_regex last = true -> wf_regex (close_alt d last) = true.
Proof.
  unfold close_alt, wf_all. intros Hd Hl. apply Forall_rev in Hd.
  destruct (rev d) as [|r rs]; [exact Hl|]. inversion Hd; subst.
  apply wf_alts; [assumption|]. apply Forall_app. split; [assumption|now constructor].
Qed.

Lemma escape_wf a r k : escape a = inr (r, k) -> wf_regex r = true.
Proof. unfold escape. intros H. step_cases H; try discriminate; injection H as <- _; reflexivity. Qed.

Lemma quantify_wf g lo hi st st' :
  pstate_wf st -> match hi with Some h => lo <= h | None => True end ->
  quantify g lo hi st = inr st' -> pstate_wf st'.
Proof.
  unfold quantify, pstate_wf, wf_pieces. intros (H1 & H2 & H3) Hb H. revert Hb.
  step_cases H; try discriminate. injection H as <-. intros Hb. cbn.
  cbn in H2. inversion H2; subst. repeat split; auto.
  constructor; [|assumption]. cbn. apply andb_true_intro. split; [|assumption].
  destruct hi; [apply Nat.leb_le; exact Hb|reflexivity].
Qed.

Lemma repeat_wf lo hi rest st r st' :
  pstate_wf st -> match hi with Some h => lo <= h | None => True end ->
  repeat lo hi rest st = inr (r, st') -> pstate_wf st'.
Proof.
  unfold repeat. intros Hw Hb H. revert Hw Hb. unfold pbind in H.
  step_cases H; try discriminate; injection H as _ <-; intros Hw Hb; eapply quantify_wf; eauto.
Qed.

Lemma push_wf r k st : pstate_wf st -> wf_regex r = true -> pstate_wf (push r k st).
Proof. intros (H1 & H2 & H3) Hr. repeat split; try assumption. now constructor. Qed.

Lemma with_mode_wf m st : pstate_wf st -> pstate_wf (mk_pstate m (p_done st) (p_cur st) (p_outer st)).
Proof. exact (fun H => H). Qed.

Lemma pstep_wf s st r st' : pstate_wf st -> pstep s st = inr (r, st') -> pstate_wf st'.
Proof.
  intros Hw H. revert Hw. unfold pstep, normal_step, class_step in H.
  step_cases H; try discriminate;
    repeat match goal with H : inr _ = inr _ |- _ => injection H as _ <- end; intros Hw;
    try (apply push_wf; [exact Hw|first [reflexivity|eapply escape_wf; eassumption]]);
    try (apply with_mode_wf; exact Hw);
    try (eapply repeat_wf; [exact Hw| |eassumption]; cbn; pii_bool; lia);
    destruct Hw as (H1 & H2 & H3); unfold pstate_wf, wf_pieces, wf_all in *; cbn in *.
  all: try solve [exact (conj H1 (conj H2 H3))
                 | split; [constructor|split; [constructor|constructor; [split; assumption|exact H3]]]].
  - rewrite E3 in H3. inversion H3 as [|x0 l9 Hx Houter]; subst. destruct Hx as [Hd Hcu]. cbn in Hd, Hcu.
    repeat split; [exact Hd| |exact Houter]. constructor; [|exact Hcu].
    apply close_alt_wf; [exact H1|now apply close_seq_wf].
  - repeat split; [constructor; [now apply close_seq_wf|exact H1]|constructor|exact H3].
Qed.

Lemma finish_wf st r : pstate_wf st -> finish st = inr r -> wf_regex r = true.
Proof.
  intros (H1 & H2 & H3) H. unfold finish in H. revert H1 H2 H3.
  step_cases H; try discriminate. injection H as <-. intros H1 H2 _.
  apply close_alt_wf; [exact H1|now apply close_seq_wf].
Qed.

Lemma parse_loop_wf f : forall s st r, pstate_wf st -> parse_loop f s st = inr r -> wf_regex r = true.
Proof.
  induction f as [|f IH]; intros s st r Hw H; cbn [parse_loop] in H; [discriminate|].
  destruct s as [|c s']; [exact (finish_wf _ _ Hw H)|].
  unfold pbind in H. destruct (pstep (c :: s') st) as [e|[rest st']] eqn:Ep; [discriminate|].
  exact (IH _ _ _ (pstep_wf _ _ _ _ Hw Ep) H).
Qed.

(** C27: a pattern [re_compile] accepts compiles to a regex whose
    repetition bounds Python accepts ([m <= n] in every [{m,n}]): the
    hypothesis of the engine's soundness theorem [re_finditer_sound]. *)
Theorem re_compile_wf pattern r : re_compile pattern = inr r -> wf_regex r = true.
Proof.
  unfold re_compile. apply parse_loop_wf. repeat split; constructor.
Qed.

(** [re.compile] turns the eight pattern strings of the source, verbatim,
    into the syntax trees of [Patterns.PATTERNS], in the same order and
    under the same keys. *)
Lemma PATTERNS_compiled : compile_registry PATTERN_STRINGS = inr PATTERNS.
Proof. vm_compute. reflexivity. Qed.

(** The quantifier of the [cvv_no] pattern. *)
Lemma re_compile_wf_witness :
  re_compile (lit "\d{3,4}") = inr (count 3 4 digit) /\ wf_regex (count 3 4 digit) = true.
Proof.
  assert (H : re_compile (lit "\d{3,4}") = inr (count 3 4 digit)) by (vm_compute; reflexivity).
  split; [exact H|]. exact (re_compile_wf _ _ H).
Defined.

(** [re_compile] raises [sre]'s errors in their places: a reversed
    [{m,n}], a quantifier with nothing before it or after [\b], a
    quantifier after a quantifier, unbalanced parentheses, an unterminated
    or reversed class, an unknown letter escape; and reads a [{] that does
    not start a quantifier, and a [-] before the [\]] of a class, as
    literals. *)
Example re_compile_errors :
  re_compile (lit "\d{4,3}") = inl MinRepeatGreater /\
  re_compile (lit "*a") = inl NothingToRepeat /\
  re_compile (lit "\b+") = inl NothingToRepeat /\
  re_compile (lit "a**") = inl MultipleRepeat /\
  re_compile (lit "(a") = inl MissingParen /\
  re_compile (lit "a)") = inl UnbalancedParen /\
  re_compile (lit "[a-") = inl UnterminatedSet /\
  re_compile (lit "[z-a]") = inl BadRange /\
  re_compile (lit "\q") = inl BadEscape /\
  re_compile (lit "a{") = inr (seqs [chr "a"; chr "{"]) /\
  re_compile (lit "[ -]") = inr (RChar [CLit " "; CLit "-"]).
Proof. vm_compute. repeat split. Qed.
