(* ===== verification/Resolver.v ===== *)
(** * Scanner and conflict resolver of [mask_pii] ([src/utils.py], lines 31-47)

    The first half of [mask_pii]: every pattern of the registry is run
    with [re.finditer] over the text and each match becomes a candidate
    tuple [(start, end, entity, match.group())] (lines 31-36); the
    candidates are sorted by start with Python's stable [sorted] (line 39);
    the loop of lines 42-47 keeps a candidate when it starts at or after
    the end of the last kept one ([prev_end], initially [-1]).  Hence
    the selection rule of the specification (section 4.3): the earliest
    start wins, and of the candidates with one start only the first
    non-empty one in registry order, then match order, can be kept
    ([kept_spans_cover]).

    Everything here is generic in the pattern type through the [Finditer]
    interface of the prelude: the theorems use only its law (every match
    is a span of the text), and [Regex.regex_finditer] discharges it. *)

From Stdlib Require Import Ascii String.
From Stdlib Require Import List Arith Lia Bool ZArith Sorted Permutation.
From S2P Require Import Prelude.
Import ListNotations.
Open Scope list_scope.

(** The tuple [(start, end, entity, match.group())] of line 36. *)
Record candidate : Type := mk_candidate {
  c_start : nat;
  c_end : nat;
  c_kind : str;
  c_text : str
}.

Definition span (c : candidate) : nat * nat := (c_start c, c_end c).

(** Decidable equality of candidates, to split a list at the first
    occurrence of one and to check membership by computation. *)
Definition candidate_eq_dec (a b : candidate) : {a = b} + {a <> b}.
Proof. decide equality; (apply list_eq_dec; apply ascii_dec) || apply Nat.eq_dec. Defined.

Section Resolver.

Context {P : Type} `{Finditer P}.

(** Lines 32-36: the candidates of every pattern, in registry order then
    match order. *)
Definition collect_matches (registry : list (str * P)) (text : str) : list candidate :=
  flat_map (fun '(entity, pattern) =>
              map (fun '(s, e) => mk_candidate s e entity (py_slice text s e))
                  (finditer pattern text))
           registry.

(** Line 39, [sorted(matches, key=lambda x: x[0])]: a stable insertion
    sort, an element going before the first later one whose key is not
    smaller. *)
Fixpoint insert_by_start (c : candidate) (l : list candidate) : list candidate :=
  match l with
  | [] => [c]
  | d :: l' => if c_start c <=? c_start d then c :: d :: l' else d :: insert_by_start c l'
  end.

Definition sort_by_start (l : list candidate) : list candidate :=
  fold_right insert_by_start [] l.

(** Lines 42-47: the overlap filter, [prev_end] a Python [int]. *)
Fixpoint filter_from (prev_end : Z) (l : list candidate) : list candidate :=
  match l with
  | [] => []
  | m :: l' =>
      if (prev_end <=? Z.of_nat (c_start m))%Z
      then m :: filter_from (Z.of_nat (c_end m)) l'
      else filter_from prev_end l'
  end.

Definition filter_overlaps (l : list candidate) : list candidate := filter_from (-1)%Z l.

(** The value of [prev_end] after the loop has gone through [l]. *)
Fixpoint filter_end (prev_end : Z) (l : list candidate) : Z :=
  match l with
  | [] => prev_end
  | m :: l' =>
      if (prev_end <=? Z.of_nat (c_start m))%Z
      then filter_end (Z.of_nat (c_end m)) l'
      else filter_end prev_end l'
  end.

(** The spans that survive conflict resolution. *)
Definition kept_spans (registry : list (str * P)) (text : str) : list candidate :=
  filter_overlaps (sort_by_start (collect_matches registry text)).

End Resolver.

(** ** Sorting: [sort_by_start] is Python's stable [sorted] *)

Definition start_le (a b : candidate) : Prop := c_start a <= c_start b.

(** The candidates whose start is [n], in order. *)
Definition with_start (n : nat) (l : list candidate) : list candidate :=
  filter (fun c => c_start c =? n) l.

(** What a stable sort by start returns for [l]: a list sorted by start
    in which the candidates of each start come in their input order. *)
Definition stable_sort_of (l out : list candidate) : Prop :=
  Sorted start_le out /\ forall n, with_start n out = with_start n l.

Lemma insert_by_start_with_start c l n :
  with_start n (insert_by_start c l) = with_start n (c :: l).
Proof.
  induction l as [|d l IH]; simpl; [reflexivity|].
  case_if; [reflexivity|].
  unfold with_start in *; simpl in *. rewrite IH.
  case_test (c_start c =? n); case_test (c_start d =? n); simpl; try reflexivity; lia.
Qed.

Lemma insert_by_start_hd d c l : c_start d <= c_start c -> HdRel start_le d l ->
  HdRel start_le d (insert_by_start c l).
Proof.
  intros Hdc Hd. destruct l as [|e l]; simpl; [now constructor|].
  case_if; constructor; [exact Hdc|now inversion Hd].
Qed.

Lemma insert_by_start_sorted c l : Sorted start_le l -> Sorted start_le (insert_by_start c l).
Proof.
  induction 1 as [|d l Hs IH Hd]; simpl; [now repeat constructor|].
  case_if.
  - constructor; [now constructor|]. constructor. unfold start_le. lia.
  - constructor; [exact IH|]. apply insert_by_start_hd; [unfold start_le; lia|exact Hd].
Qed.

Lemma sort_by_start_sorted l : Sorted start_le (sort_by_start l).
Proof. induction l; simpl; [constructor|now apply insert_by_start_sorted]. Qed.

Lemma sort_by_start_with_start l n : with_start n (sort_by_start l) = with_start n l.
Proof.
  induction l as [|c l IH]; simpl; [reflexivity|].
  rewrite insert_by_start_with_start. unfold with_start in *; simpl. now rewrite IH.
Qed.

Lemma insert_by_start_perm c l : Permutation (insert_by_start c l) (c :: l).
Proof.
  induction l as [|d l IH]; simpl; [reflexivity|].
  case_if; [reflexivity|].
  rewrite IH. apply perm_swap.
Qed.

Lemma sort_by_start_perm l : Permutation (sort_by_start l) l.
Proof.
  induction l as [|c l IH]; simpl; [reflexivity|].
  rewrite insert_by_start_perm. now apply perm_skip.
Qed.

Lemma with_start_In c l : In c l -> In c (with_start (c_start c) l).
Proof. intros Hin. apply filter_In. split; [exact Hin|apply Nat.eqb_refl]. Qed.

Lemma sorted_head_le a b l : StronglySorted start_le (b :: l) -> In a (b :: l) ->
  c_start b <= c_start a.
Proof.
  intros Hs [<-|Hin]; [unfold start_le; lia|].
  apply StronglySorted_inv in Hs as [_ Hall].
  exact (proj1 (Forall_forall _ _) Hall a Hin).
Qed.

Lemma start_le_trans : Relations_1.Transitive start_le.
Proof. unfold start_le. intros a b c. lia. Qed.

(** Two lists sorted by start that agree on each start's subsequence are
    equal. *)
Lemma sorted_with_start_unique l1 : forall l2,
  Sorted start_le l1 -> Sorted start_le l2 ->
  (forall n, with_start n l1 = with_start n l2) -> l1 = l2.
Proof.
  induction l1 as [|a l1 IH]; intros l2 Hs1 Hs2 Hw.
  - destruct l2 as [|b l2]; [reflexivity|].
    specialize (Hw (c_start b)). unfold with_start in Hw; simpl in Hw.
    rewrite Nat.eqb_refl in Hw. discriminate.
  - destruct l2 as [|b l2].
    + specialize (Hw (c_start a)). unfold with_start in Hw; simpl in Hw.
      rewrite Nat.eqb_refl in Hw. discriminate.
    + apply Sorted_StronglySorted in Hs1 as Ss1; [|exact start_le_trans].
      apply Sorted_StronglySorted in Hs2 as Ss2; [|exact start_le_trans].
      assert (Ha : In a (b :: l2)).
      { apply (filter_In (fun c => c_start c =? c_start a)). fold (with_start (c_start a) (b :: l2)).
        rewrite <- Hw. apply with_start_In. now left. }
      assert (Hb : In b (a :: l1)).
      { apply (filter_In (fun c => c_start c =? c_start b)). fold (with_start (c_start b) (a :: l1)).
        rewrite Hw. apply with_start_In. now left. }
      pose proof (sorted_head_le a b l2 Ss2 Ha). pose proof (sorted_head_le b a l1 Ss1 Hb).
      pose proof (Hw (c_start a)) as Hk. unfold with_start in Hk; simpl in Hk.
      rewrite Nat.eqb_refl in Hk. replace (c_start b =? c_start a) with true in Hk
        by (symmetry; apply Nat.eqb_eq; lia).
      injection Hk as -> _. f_equal. apply IH.
      * now apply Sorted_inv in Hs1.
      * now apply Sorted_inv in Hs2.
      * intros n. specialize (Hw n). unfold with_start in *; simpl in Hw.
        destruct (c_start b =? n); [now injection Hw|exact Hw].
Qed.

(** C4: the sort of line 39 is pinned down by Python's specification of
    [sorted] with a key: [out] is a stable sort of [l] by start exactly
    when it is [sort_by_start l], whatever algorithm computes it. *)
Theorem sort_by_start_spec l out : stable_sort_of l out <-> out = sort_by_start l.
Proof.
  split.
  - intros [Hs Hw]. apply sorted_with_start_unique; [exact Hs|apply sort_by_start_sorted|].
    intros n. now rewrite Hw, sort_by_start_with_start.
  - intros ->. split; [apply sort_by_start_sorted|apply sort_by_start_with_start].
Qed.

(** ** Well-formed candidates *)

(** A candidate is a span of the text and carries the text it covers. *)
Definition cand_ok (text : str) (c : candidate) : Prop :=
  c_start c <= c_end c <= length text /\ c_text c = py_slice text (c_start c) (c_end c).

Section ResolverFacts.

Context {P : Type} `{Finditer P}.

Lemma collect_matches_ok (registry : list (str * P)) text c :
  In c (collect_matches registry text) ->
  cand_ok text c /\ In (c_kind c) (map fst registry).
Proof.
  unfold collect_matches. intros Hin. apply in_flat_map in Hin as [[entity pattern] [Hreg Hin]].
  apply in_map_iff in Hin as [[s e] [<- Hse]]. simpl.
  split; [split; [now apply (finditer_bounds pattern text)|reflexivity]|].
  apply in_map_iff. now exists (entity, pattern).
Qed.

(** Every candidate comes from a match of the pattern of its kind. *)
Lemma collect_matches_origin (registry : list (str * P)) text c :
  In c (collect_matches registry text) ->
  exists p, In (c_kind c, p) registry /\ In (c_start c, c_end c) (finditer p text).
Proof.
  unfold collect_matches. intros Hin. apply in_flat_map in Hin as [[entity pattern] [Hreg Hin]].
  apply in_map_iff in Hin as [[s e] [<- Hse]]. now exists pattern.
Qed.

Lemma collect_matches_of (registry : list (str * P)) text k p s e :
  In (k, p) registry -> In (s, e) (finditer p text) ->
  In (mk_candidate s e k (py_slice text s e)) (collect_matches registry text).
Proof.
  intros Hk Hse. unfold collect_matches. apply in_flat_map. exists (k, p). split; [exact Hk|].
  apply in_map_iff. exists (s, e). split; [reflexivity|exact Hse].
Qed.

Lemma filter_from_incl prev l m : In m (filter_from prev l) -> In m l.
Proof.
  revert prev. induction l as [|c l IH]; intros prev; simpl; [tauto|].
  case_if; simpl; [|intros Hm; right; eapply IH; eauto].
  intros [->|Hm]; [now left|right; eapply IH; eauto].
Qed.

(** The kept candidates form a chain of non-overlapping spans, from the
    offset [prev_end] stands for. *)
Lemma filter_from_chained len prev l :
  (forall c, In c l -> c_start c <= c_end c <= len) ->
  chained len (Z.to_nat prev) (map span (filter_from prev l)).
Proof.
  revert prev. induction l as [|c l IH]; intros prev Hl; simpl; [exact I|].
  case_if.
  - simpl. pose proof (Hl c (or_introl eq_refl)). split; [lia|]. split; [lia|].
    pose proof (IH (Z.of_nat (c_end c))) as IH'. rewrite Nat2Z.id in IH'.
    apply IH'. intros d Hd. apply Hl. now right.
  - apply IH. intros d Hd. apply Hl. now right.
Qed.

(** Every candidate the filter drops starts inside a kept span that
    starts no later, or before the initial [prev_end]. *)
Lemma filter_from_coverage prev l : Sorted start_le l -> forall m, In m l ->
  In m (filter_from prev l) \/ (Z.of_nat (c_start m) < prev)%Z \/
  exists k, In k (filter_from prev l) /\ c_start k <= c_start m < c_end k.
Proof.
  intros Hs. apply Sorted_StronglySorted in Hs; [|exact start_le_trans].
  revert prev. induction Hs as [|c l Hs IH Hall]; intros prev m Hm; [destruct Hm|]. simpl.
  case_if.
  - destruct Hm as [<-|Hm]; [left; now left|].
    pose proof (proj1 (Forall_forall _ _) Hall m Hm) as Hcm. unfold start_le in Hcm.
    destruct (IH (Z.of_nat (c_end c)) m Hm) as [Hk|[Hlt|[k [Hk Hkm]]]].
    + left. now right.
    + right. right. exists c. split; [now left|lia].
    + right. right. exists k. split; [now right|exact Hkm].
  - destruct Hm as [<-|Hm]; [right; left; lia|]. now apply IH.
Qed.

Lemma filter_from_app prev l1 l2 :
  filter_from prev (l1 ++ l2) = filter_from prev l1 ++ filter_from (filter_end prev l1) l2.
Proof.
  revert prev. induction l1 as [|m l1 IH]; intros prev; cbn [app filter_from filter_end]; [reflexivity|].
  case_if; cbn [app]; now rewrite IH.
Qed.

(** A kept candidate starts at or after the [prev_end] the loop had
    when it reached it, which never decreases. *)
Lemma filter_from_ge prev l m : (forall c, In c l -> c_start c <= c_end c) ->
  In m (filter_from prev l) -> (prev <= Z.of_nat (c_start m))%Z.
Proof.
  revert prev. induction l as [|c l IH]; intros prev Hl Hm; [destruct Hm|]. cbn [filter_from] in Hm.
  revert Hm. case_if; intros Hm.
  - destruct Hm as [<-|Hm]; [lia|].
    pose proof (Hl c (or_introl eq_refl)).
    pose proof (IH (Z.of_nat (c_end c)) (fun d Hd => Hl d (or_intror Hd)) Hm). lia.
  - exact (IH prev (fun d Hd => Hl d (or_intror Hd)) Hm).
Qed.

(** Once a non-empty candidate has been seen, [prev_end] is past its
    start: no candidate with the same start that comes after its first
    occurrence is kept. *)
Lemma filter_from_first_tie prev l1 x l2 d :
  (forall c, In c (l1 ++ x :: l2) -> c_start c <= c_end c) -> c_start x < c_end x ->
  In d (filter_from prev (l1 ++ x :: l2)) -> c_start d = c_start x -> In d l1 \/ d = x.
Proof.
  intros Hl Hx Hd Hs. rewrite filter_from_app in Hd. apply in_app_or in Hd as [Hd|Hd].
  - left. exact (filter_from_incl _ _ _ Hd).
  - assert (Hl2 : forall c, In c l2 -> c_start c <= c_end c)
      by (intros c Hc; apply Hl, in_or_app; right; now right).
    revert Hd. cbn [filter_from]. case_if; intros Hd.
    + destruct Hd as [<-|Hd]; [now right|].
      pose proof (filter_from_ge _ _ _ Hl2 Hd). lia.
    + pose proof (filter_from_ge _ _ _ Hl2 Hd). lia.
Qed.

Lemma kept_spans_chained (registry : list (str * P)) text :
  chained (length text) 0 (map span (kept_spans registry text)).
Proof.
  unfold kept_spans, filter_overlaps.
  apply (filter_from_chained (length text) (-1)%Z). intros c Hc.
  apply (Permutation_in _ (sort_by_start_perm _)) in Hc.
  apply collect_matches_ok in Hc as [[Hc _] _]. exact Hc.
Qed.

Lemma kept_spans_cand (registry : list (str * P)) text c :
  In c (kept_spans registry text) -> cand_ok text c /\ In (c_kind c) (map fst registry).
Proof.
  unfold kept_spans, filter_overlaps. intros Hc. apply filter_from_incl in Hc.
  apply (Permutation_in _ (sort_by_start_perm _)) in Hc. now apply collect_matches_ok.
Qed.

(** C3: the spans kept by conflict resolution are well-formed spans of the
    text carrying the text they cover, of a kind of the registry, and go
    left to right without overlapping ([kept[i].end <= kept[i+1].start]). *)
Theorem kept_spans_ok (registry : list (str * P)) text :
  chained (length text) 0 (map span (kept_spans registry text)) /\
  forall c, In c (kept_spans registry text) ->
    cand_ok text c /\ In (c_kind c) (map fst registry).
Proof. split; [apply kept_spans_chained|apply kept_spans_cand]. Qed.

Lemma with_start_split n l1 x l2 : c_start x = n ->
  with_start n (l1 ++ x :: l2) = with_start n l1 ++ x :: with_start n l2.
Proof. intros Hx. unfold with_start. rewrite filter_app. cbn [filter]. now rewrite Hx, Nat.eqb_refl. Qed.

(** Ties go to the order of line 36: a candidate with the same start as
    a non-empty candidate is kept only if it comes before it in the list
    of matches (registry order, then match order), or is that candidate. *)
Lemma kept_spans_ties (registry : list (str * P)) text l1 c l2 d :
  collect_matches registry text = l1 ++ c :: l2 -> c_start c < c_end c ->
  In d (kept_spans registry text) -> c_start d = c_start c -> In d l1 \/ d = c.
Proof.
  intros Hcol Hc Hd Hs.
  assert (Hwf : forall x, In x (sort_by_start (collect_matches registry text)) -> c_start x <= c_end x)
    by (intros x Hx; apply (Permutation_in _ (sort_by_start_perm _)), collect_matches_ok in Hx; apply Hx).
  assert (Hin : In c (sort_by_start (collect_matches registry text)))
    by (apply (Permutation_in _ (Permutation_sym (sort_by_start_perm _))); rewrite Hcol;
        apply in_or_app; right; now left).
  destruct (in_split_first candidate_eq_dec c _ Hin) as (a1 & a2 & Hsort & Hn).
  unfold kept_spans, filter_overlaps in Hd. rewrite Hsort in Hwf, Hd.
  destruct (filter_from_first_tie _ _ _ _ _ Hwf Hc Hd Hs) as [Ha| ->]; [left|now right].
  pose proof (sort_by_start_with_start (collect_matches registry text) (c_start c)) as Hw.
  rewrite Hsort, Hcol, !with_start_split in Hw by reflexivity.
  assert (Hd1 : In d (with_start (c_start c) a1)) by (apply filter_In; split; [exact Ha|now apply Nat.eqb_eq]).
  apply (split_first_prefix c _ _ _ _ Hw) in Hd1; [exact (proj1 (proj1 (filter_In _ _ _) Hd1))|].
  intros Hx. apply Hn. exact (proj1 (proj1 (filter_In _ _ _) Hx)).
Qed.

(** C5: earliest start wins, ties to the order of the matches: every
    candidate a pattern produced is kept, or starts inside a kept span
    that starts no later than it; and a kept span with the same start as
    a non-empty candidate comes before that candidate in the list of
    matches of line 36 (registry order, then match order), or is it. *)
Theorem kept_spans_cover (registry : list (str * P)) text :
  (forall c, In c (collect_matches registry text) ->
   In c (kept_spans registry text) \/
   exists k, In k (kept_spans registry text) /\ c_start k <= c_start c < c_end k) /\
  (forall l1 c l2 d, collect_matches registry text = l1 ++ c :: l2 -> c_start c < c_end c ->
   In d (kept_spans registry text) -> c_start d = c_start c -> In d l1 \/ d = c).
Proof.
  split; [|exact (kept_spans_ties registry text)].
  intros c Hc. apply (Permutation_in _ (Permutation_sym (sort_by_start_perm _))) in Hc.
  destruct (filter_from_coverage (-1)%Z _ (sort_by_start_sorted _) c Hc) as [H1|[H2|H3]];
    [now left|lia|now right].
Qed.

Lemma kept_spans_origin (registry : list (str * P)) text c :
  In c (kept_spans registry text) ->
  exists p, In (c_kind c, p) registry /\ In (c_start c, c_end c) (finditer p text).
Proof.
  intros Hc. apply filter_from_incl in Hc.
  apply (Permutation_in _ (sort_by_start_perm _)) in Hc. now apply collect_matches_origin.
Qed.

End ResolverFacts.

#[export] Hint Resolve kept_spans_chained kept_spans_cand filter_from_incl : pii.
