(* ===== verification/Masker.v ===== *)
(** * The masker: [mask_pii] of [src/utils.py] (lines 20-61)

    After conflict resolution ([Resolver.kept_spans]), [mask_pii] walks the
    kept spans from the rightmost to the leftmost (line 50), appends one
    record [{"position": [start, end], "classification": entity,
    "entity": original}] per span to [masked_entities] (lines 51-55) and
    replaces the span by the tag [f"[{entity}]"] in the working text
    (line 56); the record list is reversed at the end (line 59).

    The main theorem, [mask_pii_render], states what this loop computes in
    terms of a left-to-right reference rendering: the text with each kept
    span replaced by its tag, using the original offsets; the records are
    those of the kept spans in left-to-right order. *)

From Stdlib Require Import Ascii String.
From Stdlib Require Import List Arith Lia Bool ZArith.
From S2P Require Import Prelude Resolver.
Import ListNotations.
Open Scope list_scope.

(** A masked-entity record: the dictionary of lines 51-55. [position] is
    the Python list [[start, end]]. *)
Record masked_entity : Type := mk_masked_entity {
  position : list Z;
  classification : str;
  entity : str
}.

(** The placeholder [f"[{entity}]"]. *)
Definition tag (kind : str) : str := "["%char :: kind ++ ["]"%char].

Definition to_record (c : candidate) : masked_entity :=
  mk_masked_entity [Z.of_nat (c_start c); Z.of_nat (c_end c)] (c_kind c) (c_text c).

(** One iteration of the loop of lines 50-56. *)
Definition mask_step (acc : str * list masked_entity) (c : candidate)
    : str * list masked_entity :=
  let '(masked_text, masked_entities) := acc in
  (py_take masked_text (c_start c) ++ tag (c_kind c) ++ py_drop masked_text (c_end c),
   masked_entities ++ [to_record c]).

Section Masker.

Context {P : Type} `{Finditer P}.

(** [mask_pii(text)] with the given registry ([PATTERNS] in the source). *)
Definition mask_pii (registry : list (str * P)) (text : str) : str * list masked_entity :=
  let filtered_matches := kept_spans registry text in
  let '(masked_text, masked_entities) :=
    fold_left mask_step (rev filtered_matches) (text, []) in
  (masked_text, rev masked_entities).

End Masker.

(** The reference: the text from [pos] with each span of [spans] replaced
    by its tag, read left to right. *)
Fixpoint render (text : str) (pos : nat) (spans : list candidate) : str :=
  match spans with
  | [] => py_drop text pos
  | c :: cs => py_slice text pos (c_start c) ++ tag (c_kind c) ++ render text (c_end c) cs
  end.

(** ** What the loop computes *)

Lemma mask_fold_records l : forall acc,
  snd (fold_left mask_step l acc) = snd acc ++ map to_record l.
Proof.
  induction l as [|c l IH]; intros [mt ents]; simpl; [now rewrite app_nil_r|].
  rewrite IH. simpl. now rewrite <- app_assoc.
Qed.

(** Replacing the spans right to left, each at its original offsets, is
    rendering them left to right: a replacement never moves the text to
    its left, where the spans still to be replaced lie. *)
Lemma mask_fold_text text spans : forall pos ents,
  chained (length text) pos (map span spans) ->
  fst (fold_left mask_step (rev spans) (text, ents)) = py_take text pos ++ render text pos spans.
Proof.
  induction spans as [|c cs IH]; intros pos ents Hch; simpl.
  - unfold py_take, py_drop. symmetry. apply firstn_skipn.
  - destruct Hch as (H1 & H2 & H3). rewrite fold_left_app. simpl.
    destruct (fold_left mask_step (rev cs) (text, ents)) as [mt es] eqn:Ef.
    pose proof (IH (c_end c) ents H3) as Hmt. rewrite Ef in Hmt. simpl in Hmt. subst mt. simpl.
    rewrite py_take_app_le by (rewrite length_py_take; lia).
    rewrite py_take_take by lia.
    rewrite py_drop_app_le by (rewrite length_py_take; lia).
    rewrite py_drop_take, py_slice_nil. simpl.
    rewrite app_assoc, py_take_slice by lia. reflexivity.
Qed.

Section MaskerFacts.

Context {P : Type} `{Finditer P}.

Lemma mask_pii_text (registry : list (str * P)) text :
  fst (mask_pii registry text) = render text 0 (kept_spans registry text).
Proof.
  unfold mask_pii.
  pose proof (mask_fold_text text (kept_spans registry text) 0 []
                (kept_spans_chained registry text)) as Ht.
  destruct (fold_left mask_step _ _) as [mt es]. exact Ht.
Qed.

Lemma mask_pii_snd (registry : list (str * P)) text :
  snd (mask_pii registry text) = map to_record (kept_spans registry text).
Proof.
  unfold mask_pii.
  pose proof (mask_fold_records (rev (kept_spans registry text)) (text, [])) as Hr.
  destruct (fold_left mask_step _ _) as [mt es]. cbn in Hr |- *. subst es.
  now rewrite map_rev, rev_involutive.
Qed.

(** C2: [mask_pii] returns the text with every kept span replaced by its
    tag (offsets of the original text, read left to right), and one record
    per kept span, in left-to-right order. *)
Theorem mask_pii_render (registry : list (str * P)) text :
  mask_pii registry text =
  (render text 0 (kept_spans registry text), map to_record (kept_spans registry text)).
Proof.
  rewrite (surjective_pairing (mask_pii registry text)).
  now rewrite mask_pii_text, mask_pii_snd.
Qed.

End MaskerFacts.

Section RecordFacts.

Context {P : Type} `{Finditer P}.

(** C7: the records [mask_pii] returns are in left-to-right order and do
    not overlap ([position[0]] ascending, each [end] at most the next
    [start]); each carries the original text of its span and a kind of
    the registry. *)
Theorem mask_pii_records (registry : list (str * P)) text :
  (exists spans, chained (length text) 0 spans /\
     map position (snd (mask_pii registry text)) =
     map (fun '(s, e) => [Z.of_nat s; Z.of_nat e]) spans) /\
  forall r, In r (snd (mask_pii registry text)) ->
    exists s e, position r = [Z.of_nat s; Z.of_nat e] /\ s <= e <= length text /\
      entity r = py_slice text s e /\ In (classification r) (map fst registry).
Proof.
  rewrite mask_pii_snd. pose proof (kept_spans_chained registry text) as Hch.
  pose proof (kept_spans_cand registry text) as Hok.
  split.
  - exists (map span (kept_spans registry text)). split; [exact Hch|].
    rewrite !map_map. apply map_ext. reflexivity.
  - intros r Hr. apply in_map_iff in Hr as [c [<- Hc]].
    destruct (Hok c Hc) as [[Hb Ht] Hk]. exists (c_start c), (c_end c). simpl. auto.
Qed.

End RecordFacts.

(** ** The length of the masked text *)

(** The characters the spans cover, and the characters of their tags. *)
Definition covered (spans : list candidate) : nat :=
  fold_right (fun c acc => (c_end c - c_start c) + acc) 0 spans.

Definition tagged (spans : list candidate) : nat :=
  fold_right (fun c acc => length (tag (c_kind c)) + acc) 0 spans.

Lemma render_length text spans : forall pos,
  pos <= length text -> chained (length text) pos (map span spans) ->
  length (render text pos spans) + covered spans = length text - pos + tagged spans.
Proof.
  induction spans as [|c cs IH]; intros pos Hpos Hch; cbn [render covered tagged fold_right].
  - unfold py_drop. rewrite length_skipn. cbn. lia.
  - destruct Hch as (H1 & H2 & H3). fold (covered cs) (tagged cs).
    rewrite !length_app, length_py_slice by lia.
    specialize (IH (c_end c) H2 H3). lia.
Qed.

Section LengthFacts.

Context {P : Type} `{Finditer P}.

(** C31: the masked text is the text with each kept span's characters
    replaced by its tag's: its length plus the characters the spans cover
    is the length of the text plus the characters of the tags. *)
Theorem mask_pii_length (registry : list (str * P)) text :
  length (fst (mask_pii registry text)) + covered (kept_spans registry text) =
  length text + tagged (kept_spans registry text).
Proof.
  rewrite mask_pii_text, render_length by (auto with pii; lia). lia.
Qed.

End LengthFacts.

