(* ===== verification/Demasker.v ===== *)
(** * The demasker: [demask_pii] of [src/utils.py] (lines 63-78)

    [demask_pii] walks the records in reverse (line 69), unpacks
    [position] into two names (line 70, a [ValueError] when the list does
    not have two elements), builds the tag (line 73), looks for its FIRST
    occurrence in the whole working text with [str.find] (line 75: the
    comment says "starting from start position", the call passes no
    start), and when found splices the original entity text in its place
    (lines 76-77); a tag that is not found is skipped silently.

    [demask_mask_roundtrip] shows when this inverts [mask_pii]: when no
    tag occurs in the masked text before the place of its own span and no
    kind contains a bracket.  [demask_same_tag_swapped] shows that the
    condition is needed: with two tags of one kind the originals come
    back swapped, whatever the texts around them.
    [tags_unambiguous_distinct] derives the condition from the
    specification's own reading of it: a text without [[], kinds without
    brackets and masked records of pairwise different kinds
    ([demask_mask_distinct]). *)

From Stdlib Require Import Ascii String.
From Stdlib Require Import List Arith Lia Bool ZArith.
From S2P Require Import Prelude Resolver Masker.
Import ListNotations.
Open Scope list_scope.

(** ** [str.find] *)

Fixpoint is_prefix (p s : str) : bool :=
  match p, s with
  | [], _ => true
  | a :: p', b :: s' => Ascii.eqb a b && is_prefix p' s'
  | _ :: _, [] => false
  end.

(** The first index, counted from [i], at which [sub] occurs in [s]. *)
Fixpoint find_from (sub s : str) (i : nat) : option nat :=
  if is_prefix sub s then Some i
  else match s with
       | [] => None
       | _ :: s' => find_from sub s' (S i)
       end.

(** [s.find(sub)]: the lowest index of [sub] in [s], or [-1]. *)
Definition py_find (s sub : str) : Z :=
  match find_from sub s 0 with
  | Some i => Z.of_nat i
  | None => (-1)%Z
  end.

(** ** [demask_pii] *)

(** One iteration of the loop of lines 69-77. *)
Definition demask_step (acc : outcome str) (entity_info : masked_entity) : outcome str :=
  (demasked_text <- acc ;;
   match position entity_info with
   | [_; _] =>
       let tag_ := tag (classification entity_info) in
       let tag_pos := py_find demasked_text tag_ in
       if (tag_pos =? -1)%Z then Ret demasked_text
       else Ret (py_take demasked_text (Z.to_nat tag_pos) ++ entity entity_info ++
                 py_drop demasked_text (Z.to_nat tag_pos + length tag_))
   | _ => Raise ValueError
   end)%pii.

Definition demask_pii (masked_text : str) (masked_entities : list masked_entity) : outcome str :=
  fold_left demask_step (rev masked_entities) (Ret masked_text).

(** ** Finding a tag *)

Lemma is_prefix_refl p s : is_prefix p (p ++ s) = true.
Proof. induction p as [|a p IH]; simpl; [reflexivity|]. now rewrite Ascii.eqb_refl, IH. Qed.

Lemma is_prefix_app p a b : is_prefix p (a ++ b) = true ->
  is_prefix p a = true \/ exists p2, p = a ++ p2 /\ p2 <> [] /\ is_prefix p2 b = true.
Proof.
  revert p. induction a as [|x a IH]; intros p H.
  - destruct p as [|y p]; [now left|]. right. exists (y :: p). simpl. split; [reflexivity|]. now split.
  - destruct p as [|y p]; [now left|]. simpl in H |- *. apply andb_prop in H as [Hyx H].
    apply Ascii.eqb_eq in Hyx. subst y. rewrite Ascii.eqb_refl. simpl.
    destruct (IH p H) as [H1|[p2 [-> H2]]]; [now left|]. right. now exists p2.
Qed.

Lemma find_from_shift sub s i : find_from sub s i = option_map (Nat.add i) (find_from sub s 0).
Proof.
  revert i. induction s as [|x s IH]; intros i; simpl.
  - destruct (is_prefix sub []); simpl; [now rewrite Nat.add_0_r|reflexivity].
  - destruct (is_prefix sub (x :: s)); simpl; [now rewrite Nat.add_0_r|].
    rewrite (IH (S i)), (IH 1). destruct (find_from sub s 0); simpl; [f_equal; lia|reflexivity].
Qed.

(** The characters of a tag after its opening bracket are not brackets,
    when the kind has none. *)
Lemma tag_inner_no_bracket k p1 p2 : ~ In "["%char k ->
  tag k = p1 ++ p2 -> p1 <> [] -> p2 <> [] -> is_prefix ["["%char] p2 = false.
Proof.
  intros Hk Ht H1 H2. destruct p1 as [|a p1]; [congruence|]. injection Ht as _ Ht.
  destruct p2 as [|b p2]; [congruence|]. cbn [is_prefix].
  destruct (Ascii.eqb "["%char b) eqn:E; [|reflexivity]. apply Ascii.eqb_eq in E. subst b.
  exfalso. assert (Hin : In "["%char (k ++ ["]"%char])) by (rewrite Ht; apply in_or_app; now right; left).
  apply in_app_or in Hin as [Hin|[Hin|[]]]; [exact (Hk Hin)|discriminate].
Qed.

Lemma find_from_hit sub s i : is_prefix sub s = true -> find_from sub s i = Some i.
Proof. intros H. destruct s; simpl; now rewrite H. Qed.

Lemma find_from_miss sub a s i : is_prefix sub (a :: s) = false ->
  find_from sub (a :: s) i = find_from sub s (S i).
Proof. intros H. simpl. now rewrite H. Qed.

(** A tag that does not occur in [x] is first found right after [x]. *)
Lemma find_tag_after k x y i : ~ In "["%char k -> find_from (tag k) x 0 = None ->
  find_from (tag k) (x ++ tag k ++ y) i = Some (i + length x).
Proof.
  intros Hk. revert i. induction x as [|a x IH]; intros i Hx.
  - cbn [app]. rewrite find_from_hit by apply is_prefix_refl. f_equal. simpl. lia.
  - destruct (is_prefix (tag k) (a :: x)) eqn:Ep; [now rewrite find_from_hit in Hx|].
    rewrite find_from_miss in Hx by exact Ep.
    destruct (is_prefix (tag k) ((a :: x) ++ tag k ++ y)) eqn:Eq.
    + exfalso. apply is_prefix_app in Eq as [Eq|[p2 [Ht [Hp2 Eq]]]]; [congruence|].
      destruct (is_prefix ["["%char] p2) eqn:Eb.
      * rewrite (tag_inner_no_bracket k (a :: x) p2 Hk Ht ltac:(discriminate) Hp2) in Eb. discriminate.
      * destruct p2 as [|b p2]; [congruence|]. cbn [is_prefix tag app] in Eq, Eb.
        apply andb_prop in Eq as [Eq _]. rewrite andb_true_r in Eb.
        apply Ascii.eqb_eq in Eq. subst b. rewrite Ascii.eqb_refl in Eb. discriminate.
    + change ((a :: x) ++ tag k ++ y) with (a :: (x ++ tag k ++ y)) in Eq |- *.
      rewrite find_from_miss by exact Eq.
      rewrite find_from_shift in Hx. destruct (find_from (tag k) x 0) eqn:Ex; [discriminate|].
      rewrite IH by reflexivity. f_equal. simpl. lia.
Qed.

(** ** Rendering, read from the right *)

(** The rendering of spans that all end by [s] only reads the text before
    [s]. *)
Lemma render_take text s pos cs : pos <= s <= length text ->
  chained s pos (map span cs) ->
  render text pos cs = render (py_take text s) pos cs ++ py_drop text s.
Proof.
  revert pos. induction cs as [|d cs IH]; intros pos Hs Hch; cbn [render].
  - rewrite py_drop_take. now apply py_drop_slice.
  - destruct Hch as (H1 & H2 & H3). rewrite py_slice_take by lia.
    rewrite (IH (c_end d)) by (auto; lia). now rewrite !app_assoc.
Qed.

(** The masked text splits at the tag of its last span. *)
Lemma render_snoc text pos cs c :
  chained (length text) pos (map span (cs ++ [c])) ->
  render text pos (cs ++ [c]) =
  render (py_take text (c_start c)) pos cs ++ tag (c_kind c) ++ py_drop text (c_end c).
Proof.
  rewrite map_app. intros Hch. apply chained_snoc_inv in Hch as (Hcs & Hpos & He).
  revert pos Hcs Hpos. induction cs as [|d cs IH]; intros pos Hcs Hpos; cbn [render app].
  - now rewrite py_drop_take.
  - destruct Hcs as (H1 & H2 & H3). rewrite py_slice_take by lia.
    rewrite (IH (c_end d)) by (auto; lia). now rewrite !app_assoc.
Qed.

(** ** Demasking inverts masking *)

(** No tag occurs in the masked text before the place of its own span:
    then [str.find] lands on the right tag. *)
Definition tags_unambiguous (text : str) (spans : list candidate) : Prop :=
  forall cs1 c cs2, spans = cs1 ++ c :: cs2 ->
    find_from (tag (c_kind c)) (render (py_take text (c_start c)) 0 cs1) 0 = None.

(** Undoing the last span of the rendering. *)
Lemma demask_step_render text cs c :
  chained (length text) 0 (map span (cs ++ [c])) -> cand_ok text c -> ~ In "["%char (c_kind c) ->
  find_from (tag (c_kind c)) (render (py_take text (c_start c)) 0 cs) 0 = None ->
  demask_step (Ret (render text 0 (cs ++ [c]))) (to_record c) = Ret (render text 0 cs).
Proof.
  intros Hch [Hb Ht] Hk Hf. rewrite render_snoc by exact Hch.
  pose proof Hch as Hch'. rewrite map_app in Hch'. apply chained_snoc_inv in Hch' as (Hcs & _ & _).
  unfold demask_step, obind, to_record, py_find. cbn [position classification entity].
  rewrite find_tag_after by assumption. simpl (0 + _).
  destruct (Z.of_nat _ =? -1)%Z eqn:E; [apply Z.eqb_eq in E; lia|].
  rewrite Nat2Z.id, py_take_length, py_drop_length2, Ht. f_equal.
  rewrite (render_take text (c_start c) 0 cs) by (auto; lia).
  rewrite (py_drop_slice text (c_start c) (c_end c)) by lia. reflexivity.
Qed.

Lemma demask_render text spans :
  chained (length text) 0 (map span spans) ->
  (forall c, In c spans -> cand_ok text c /\ ~ In "["%char (c_kind c)) ->
  tags_unambiguous text spans ->
  demask_pii (render text 0 spans) (map to_record spans) = Ret text.
Proof.
  induction spans as [|c spans IH] using rev_ind; intros Hch Hok Hu; [reflexivity|].
  unfold demask_pii. rewrite map_app, rev_app_distr. cbn [map rev app fold_left].
  pose proof Hch as Hch'. rewrite map_app in Hch'. apply chained_snoc_inv in Hch' as (Hcs & Hse & He).
  destruct (Hok c) as [Hc Hk]; [apply in_or_app; now right; left|].
  rewrite demask_step_render; auto; [|now apply (Hu spans c [])].
  apply IH.
  - apply (chained_weaken (c_start c)); [lia|exact Hcs].
  - intros d Hd. apply Hok. apply in_or_app. now left.
  - intros cs1 d cs2 ->. apply (Hu cs1 d (cs2 ++ [c])). now rewrite <- app_assoc.
Qed.

Section RoundTrip.

Context {P : Type} `{Finditer P}.

(** C1: demasking the output of [mask_pii text] gives back [text] when no kind of
    the registry contains ['['] and no tag occurs in the masked text
    before the place of its own span. *)
Theorem demask_mask_roundtrip (registry : list (str * P)) text :
  (forall k, In k (map fst registry) -> ~ In "["%char k) ->
  tags_unambiguous text (kept_spans registry text) ->
  demask_pii (fst (mask_pii registry text)) (snd (mask_pii registry text)) = Ret text.
Proof.
  intros Hreg Hu. rewrite mask_pii_text, mask_pii_snd.
  apply demask_render; auto with pii.
  intros c Hc. destruct (kept_spans_cand registry text c Hc) as [Hc1 Hc2]. auto.
Qed.

End RoundTrip.

(** A decision procedure for [tags_unambiguous], walking the spans from
    the left with the ones already passed. *)
Fixpoint unambiguous_from (text : str) (before rest : list candidate) : bool :=
  match rest with
  | [] => true
  | c :: rest' =>
      match find_from (tag (c_kind c)) (render (py_take text (c_start c)) 0 before) 0 with
      | None => unambiguous_from text (before ++ [c]) rest'
      | Some _ => false
      end
  end.

Lemma unambiguous_from_spec text rest : forall before,
  unambiguous_from text before rest = true ->
  forall cs1 c cs2, rest = cs1 ++ c :: cs2 ->
    find_from (tag (c_kind c)) (render (py_take text (c_start c)) 0 (before ++ cs1)) 0 = None.
Proof.
  induction rest as [|c0 rest IH]; intros before Hu cs1 c cs2 Hrest;
    [destruct cs1; discriminate|].
  simpl in Hu. destruct (find_from _ _ 0) eqn:Ef; [discriminate|].
  destruct cs1 as [|c1 cs1]; injection Hrest as <- Hrest.
  - now rewrite app_nil_r.
  - replace (before ++ c0 :: cs1) with ((before ++ [c0]) ++ cs1) by now rewrite <- app_assoc.
    eapply IH; eauto.
Qed.

Lemma tags_unambiguous_dec text spans :
  unambiguous_from text [] spans = true -> tags_unambiguous text spans.
Proof. intros H cs1 c cs2 Hs. exact (unambiguous_from_spec text spans [] H cs1 c cs2 Hs). Qed.

(** ** A condition on the text and the kinds

    The specification states the round trip "for any text where masked
    spans do not produce duplicate-or-nested tag strings".  The condition
    [tags_unambiguous] follows from that reading: a text without [[], kinds
    without brackets, and kept spans of pairwise different kinds. *)

Definition no_brackets (k : str) : Prop := ~ In "["%char k /\ ~ In "]"%char k.

(** A segment without [[] holds no occurrence of a tag, nor the start of
    one: the search goes on after it. *)
Lemma find_tag_skip k x y i : ~ In "["%char x ->
  find_from (tag k) (x ++ y) i = find_from (tag k) y (i + length x).
Proof.
  revert i. induction x as [|a x IH]; intros i Hx; cbn [app length]; [now rewrite Nat.add_0_r|].
  assert (Ha : Ascii.eqb "["%char a = false).
  { destruct (Ascii.eqb "["%char a) eqn:E; [|reflexivity].
    apply Ascii.eqb_eq in E. subst a. exfalso. apply Hx. now left. }
  rewrite find_from_miss by (cbn [tag is_prefix]; now rewrite Ha).
  rewrite IH by (intros Hin; apply Hx; now right). f_equal. lia.
Qed.

(** The tag of [k] is not a prefix of the tag of another kind. *)
Lemma tag_prefix_other k kj y : no_brackets k -> no_brackets kj -> k <> kj ->
  is_prefix (tag k) (tag kj ++ y) = false.
Proof.
  intros [_ Hk] [_ Hkj] Hne. cbn [tag app is_prefix]. rewrite Ascii.eqb_refl. cbn [andb].
  revert kj Hkj Hne. induction k as [|a k IH]; intros [|b kj] Hkj Hne; cbn [app is_prefix].
  - contradiction.
  - destruct (Ascii.eqb "]"%char b) eqn:E; [|reflexivity].
    apply Ascii.eqb_eq in E. subst b. exfalso. apply Hkj. now left.
  - destruct (Ascii.eqb a "]"%char) eqn:E; [|reflexivity].
    apply Ascii.eqb_eq in E. subst a. exfalso. apply Hk. now left.
  - destruct (Ascii.eqb a b) eqn:E; [|reflexivity]. apply Ascii.eqb_eq in E. subst b. cbn [andb].
    apply IH; [intros Hin; apply Hk; now right|intros Hin; apply Hkj; now right|congruence].
Qed.

(** The rendering of a bracket-free text holds the tag of [k] only where
    a span of kind [k] was replaced. *)
Lemma find_tag_render text k pos cs i : ~ In "["%char text -> no_brackets k ->
  (forall c, In c cs -> no_brackets (c_kind c) /\ c_kind c <> k) ->
  find_from (tag k) (render text pos cs) i = None.
Proof.
  intros Ht Hk. revert pos i. induction cs as [|c cs IH]; intros pos i Hcs; cbn [render].
  - rewrite <- (app_nil_r (py_drop text pos)), find_tag_skip
      by (intros Hin; apply Ht; exact (In_py_drop _ _ _ Hin)).
    reflexivity.
  - rewrite find_tag_skip
      by (intros Hin; apply Ht; exact (In_py_slice _ _ _ _ Hin)).
    destruct (Hcs c (or_introl eq_refl)) as [Hc Hne].
    assert (Hp : is_prefix (tag k) (tag (c_kind c) ++ render text (c_end c) cs) = false)
      by (apply tag_prefix_other; auto).
    change (tag (c_kind c) ++ render text (c_end c) cs)
      with ("["%char :: ((c_kind c ++ ["]"%char]) ++ render text (c_end c) cs)) in Hp |- *.
    rewrite find_from_miss by exact Hp.
    rewrite find_tag_skip.
    + apply IH. intros d Hd. apply Hcs. now right.
    + intros Hin. apply in_app_or in Hin as [Hin|[Hin|[]]]; [exact (proj1 Hc Hin)|discriminate].
Qed.

Lemma tags_unambiguous_distinct text spans : ~ In "["%char text ->
  (forall c, In c spans -> no_brackets (c_kind c)) -> NoDup (map c_kind spans) ->
  tags_unambiguous text spans.
Proof.
  intros Ht Hk Hd cs1 c cs2 ->. apply find_tag_render.
  - intros Hin. apply Ht. exact (In_py_take _ _ _ Hin).
  - apply Hk. apply in_or_app. now right; left.
  - intros d Hd1. split; [apply Hk, in_or_app; now left|].
    rewrite map_app in Hd. cbn [map] in Hd. apply NoDup_remove_2 in Hd.
    intros Heq. apply Hd. apply in_or_app. left. rewrite <- Heq. now apply in_map.
Qed.

Section RoundTripDistinct.

Context {P : Type} `{Finditer P}.

(** The round trip under the specification's condition: a text without
    [[] whose masked records have pairwise different classifications
    comes back from [demask_pii]. *)
Lemma demask_mask_distinct (registry : list (str * P)) text :
  (forall k, In k (map fst registry) -> no_brackets k) -> ~ In "["%char text ->
  NoDup (map classification (snd (mask_pii registry text))) ->
  demask_pii (fst (mask_pii registry text)) (snd (mask_pii registry text)) = Ret text.
Proof.
  intros Hreg Ht Hd. rewrite mask_pii_snd, map_map in Hd. rewrite mask_pii_text, mask_pii_snd.
  assert (Hk : forall c, In c (kept_spans registry text) -> cand_ok text c /\ no_brackets (c_kind c))
    by (intros c Hc; destruct (kept_spans_cand registry text c Hc); auto).
  apply demask_render; [auto with pii|intros c Hc; split; apply Hk; auto|].
  apply tags_unambiguous_distinct; [exact Ht|intros c Hc; apply Hk; auto|exact Hd].
Qed.

End RoundTripDistinct.

(** ** Errors and silent skips *)

Lemma demask_fold_raise l e : fold_left demask_step l (Raise e) = Raise e.
Proof. induction l; simpl; auto. Qed.

(** One step on a record whose [position] has two elements never raises. *)
Lemma demask_step_ok s r : length (position r) = 2 -> exists s', demask_step (Ret s) r = Ret s'.
Proof.
  intros H. unfold demask_step, obind.
  destruct (position r) as [|a [|b [|x l]]]; try discriminate.
  destruct (py_find s _ =? -1)%Z; eexists; reflexivity.
Qed.

Lemma demask_step_bad s r : length (position r) <> 2 -> demask_step (Ret s) r = Raise ValueError.
Proof.
  intros H. unfold demask_step, obind.
  destruct (position r) as [|a [|b [|x l]]]; try reflexivity. now destruct H.
Qed.

Lemma demask_fold_total l : forall s,
  (forall r, In r l -> length (position r) = 2) -> exists s', fold_left demask_step l (Ret s) = Ret s'.
Proof.
  induction l as [|r l IH]; intros s Hall; cbn [fold_left]; [eauto|].
  destruct (demask_step_ok s r (Hall r (or_introl eq_refl))) as [s' ->].
  apply IH. intros r' Hr'. apply Hall. now right.
Qed.

(** C8: [demask_pii] raises [ValueError] exactly when some record's
    [position] is not a two-element list (the unpacking of line 70), and
    otherwise returns a text: a tag that is missing is skipped, never an
    error. *)
Theorem demask_pii_raises masked ents :
  (demask_pii masked ents = Raise ValueError <->
   exists r, In r ents /\ length (position r) <> 2) /\
  ((forall r, In r ents -> length (position r) = 2) ->
   exists s, demask_pii masked ents = Ret s).
Proof.
  unfold demask_pii. setoid_rewrite (in_rev ents). generalize (rev ents) as l. intros l.
  revert masked. induction l as [|r l IH]; intros s; cbn [fold_left].
  - split; [split; [discriminate|intros [r [[] _]]]|eauto].
  - destruct (Nat.eq_dec (length (position r)) 2) as [Hr|Hr].
    + destruct (demask_step_ok s r Hr) as [s' ->]. destruct (IH s') as [[H1 H2] H3].
      split; [split|].
      * intros Hf. destruct (H1 Hf) as [r' [Hin Hbad]]. exists r'. split; [now right|exact Hbad].
      * intros [r' [[<-|Hin] Hbad]]; [contradiction|]. apply H2. now exists r'.
      * intros Hall. apply H3. intros r' Hin. apply Hall. now right.
    + rewrite demask_step_bad, demask_fold_raise by exact Hr.
      split; [split; [intros _; exists r; split; [now left|exact Hr]|reflexivity]|].
      intros Hall. exfalso. apply Hr, Hall. now left.
Qed.

(** One step of the loop replaces the first occurrence of the record's
    tag: when the text before it has no [[], the step puts the entity
    there, whatever follows. *)
Lemma demask_step_first u y r a b :
  ~ In "["%char u -> position r = [a; b] ->
  demask_step (Ret (u ++ tag (classification r) ++ y)) r = Ret (u ++ entity r ++ y).
Proof.
  intros Hu Hp. unfold demask_step, obind. rewrite Hp. unfold py_find.
  rewrite find_tag_skip, find_from_hit by (exact Hu || apply is_prefix_refl).
  cbn [Nat.add]. case_test (Z.of_nat (length u) =? -1)%Z; [lia|]. rewrite Nat2Z.id.
  f_equal. rewrite py_take_app_le by lia. unfold py_take at 1. rewrite firstn_all.
  now rewrite (app_assoc u (tag (classification r)) y), <- length_app, py_drop_app_length.
Qed.

(** C6: [demask_pii] walks the records from the right but [str.find]
    returns the leftmost occurrence of a tag: when the masked text holds
    two tags of one kind and the text before the second has no [[]
    (the entity put back first included), the two entities come back
    swapped: the right one at the left tag and the left one at the right
    tag. *)
Theorem demask_same_tag_swapped u v w k e1 e2 p1 p2 :
  ~ In "["%char u -> ~ In "["%char v -> ~ In "["%char e2 -> length p1 = 2 -> length p2 = 2 ->
  demask_pii (u ++ tag k ++ v ++ tag k ++ w)
             [mk_masked_entity p1 k e1; mk_masked_entity p2 k e2] =
  Ret (u ++ e2 ++ v ++ e1 ++ w).
Proof.
  intros Hu Hv He H1 H2. unfold demask_pii. cbn [rev app fold_left].
  destruct p1 as [|a1 [|b1 [|]]], p2 as [|a2 [|b2 [|]]]; try discriminate.
  rewrite (demask_step_first u _ (mk_masked_entity [a2; b2] k e2) a2 b2) by auto. cbn [entity].
  rewrite app_assoc, app_assoc.
  rewrite (demask_step_first _ w (mk_masked_entity [a1; b1] k e1) a1 b1); cbn [entity];
    [now rewrite <- !app_assoc|rewrite !in_app_iff; tauto|reflexivity].
Qed.

Section Composition.

Context {P : Type} `{Finditer P}.

(** Demasking the records [mask_pii] produced never raises, whatever
    the registry and the text: every record's [position] is a two-element
    list, so the unpacking of line 70 always succeeds. *)
Lemma demask_mask_total (registry : list (str * P)) text :
  exists s, demask_pii (fst (mask_pii registry text)) (snd (mask_pii registry text)) = Ret s.
Proof.
  unfold demask_pii. apply demask_fold_total. intros r Hr.
  rewrite <- in_rev, mask_pii_snd, in_map_iff in Hr. destruct Hr as [c [<- _]]. reflexivity.
Qed.

End Composition.

