(* ===== verification/Pipeline.v ===== *)
(** * The masking engine on concrete inputs

    [mask_pii] and [demask_pii] instantiated with the registry [PATTERNS]
    and the regex engine.  [mask_pii_source] shows that this registry is
    the one the code compiles from its pattern strings.  Runs by
    [vm_compute] on the inputs of the specification's examples and on a
    few others are examples of the code's behaviour: they show where the code
    departs from the specification (the leading capitalised word joins a
    full name; a 16-digit card number and a 12-digit Aadhaar number are
    tagged as phone numbers, and the card's last digit stays in clear; two
    spans of one kind come back swapped after demasking; the last digit
    of a phone number written [+91 98765 43210] stays in clear; a name
    with a Latin-1 letter is cut inside a word), and they instantiate the
    general theorems of the other files.  The registry's soundness ([kept_spans_match]: every
    masked span is a match of its kind's pattern) and completeness
    ([candidates_complete]: every occurrence of a pattern yields a
    candidate) are proved here, where the engine and [PATTERNS] meet, and
    what [full_name] can mask ([full_name_ascii_only]: ASCII letters and
    white space only). *)

From Stdlib Require Import Ascii String.
From Stdlib Require Import List Arith Lia Bool ZArith.
From S2P Require Import Prelude Regex RegexComplete Patterns RegexParse Resolver Masker Demasker.
Import ListNotations.
Open Scope list_scope.

Lemma In_candidate_by_dec (c : candidate) (l : list candidate) :
  (if in_dec candidate_eq_dec c l then true else false) = true -> In c l.
Proof. destruct (in_dec candidate_eq_dec c l); [auto|discriminate]. Qed.

Lemma not_In_candidate_by_dec (c : candidate) (l : list candidate) :
  (if in_dec candidate_eq_dec c l then true else false) = false -> ~ In c l.
Proof. destruct (in_dec candidate_eq_dec c l); [discriminate|auto]. Qed.

(** ** The inputs of the specification's examples *)

Definition contact_email : str :=
  lit "Contact John Smith at john.smith@example.com or 9876543210.".

Definition card_email : str := lit "Card 1234567812345678 exp 12/25 cvv 123".

Definition aadhaar_email : str := lit "My aadhaar is 1234 5678 9012.".

Definition two_phones_email : str := lit "Call 9876543210 or 9123456780".

(** The candidate the [credit_debit_no] pattern finds on [card_email]. *)
Definition card_candidate : candidate :=
  mk_candidate 5 21 (lit "credit_debit_no") (lit "1234567812345678").

(** The candidate the [phone_number] pattern finds there. *)
Definition phone_candidate : candidate :=
  mk_candidate 5 20 (lit "phone_number") (lit "123456781234567").

(** ** [mask_pii] on the pattern strings *)

(** [mask_pii] as the source runs it, on the registry of pattern strings:
    the loop of lines 33-36 compiles each pattern when [re.finditer]
    reaches it (line 34), in the order of [PATTERNS.items()].  The loop
    has no effect before a compile error, so compiling the registry in
    that order first and then masking is the same. *)
Definition mask_pii_src (registry : list (str * str)) (text : str)
    : presult (str * list masked_entity) :=
  pbind (compile_registry registry) (fun compiled => inr (mask_pii compiled text)).

(** On every text, [mask_pii] with the pattern strings of the source,
    compiled by [re.compile], is [mask_pii] with the trees of [PATTERNS]:
    the registry the whole development reasons about is the one the code
    compiles. *)
Theorem mask_pii_source text : mask_pii_src PATTERN_STRINGS text = inr (mask_pii PATTERNS text).
Proof. unfold mask_pii_src. now rewrite PATTERNS_compiled. Qed.

(** A malformed pattern added to the registry is not a start-up
    failure: every call of [mask_pii], whatever the text, raises the
    compile error. *)
Example malformed_pattern_per_call text :
  mask_pii_src ((lit "broken", lit "(\d") :: PATTERN_STRINGS) text = inl MissingParen.
Proof. reflexivity. Qed.

(** ** Runs of [mask_pii] *)

(** On the specification's first example the leading capitalised word
    joins the full name ([[A-Z][a-z]+(?:\s[A-Z][a-z]+)+] matches "Contact
    John Smith"), so the masked text starts with the tag, where the
    specification expects "Contact [full_name] ...". *)
Example mask_contact_example :
  mask_pii PATTERNS contact_email =
  (lit "[full_name] at [email] or [phone_number].",
   [mk_masked_entity [0; 18]%Z (lit "full_name") (lit "Contact John Smith");
    mk_masked_entity [22; 44]%Z (lit "email") (lit "john.smith@example.com");
    mk_masked_entity [48; 58]%Z (lit "phone_number") (lit "9876543210")]).
Proof. vm_compute. reflexivity. Qed.

(** Numbers of the card and Aadhaar shapes are masked as phone
    numbers: the [phone_number] pattern matches the first 15 digits of a
    16-digit card number, and the whole of a 12-digit Aadhaar number, at
    the same start as the [credit_debit_no] or [aadhar_num] match; it
    comes first in [PATTERNS] and wins the tie.  The last digit of the
    card stays in the masked text. *)
Example mask_phone_shadows :
  mask_pii PATTERNS card_email =
  (lit "Card [phone_number]8 exp [expiry_no] cvv [cvv_no]",
   [mk_masked_entity [5; 20]%Z (lit "phone_number") (lit "123456781234567");
    mk_masked_entity [26; 31]%Z (lit "expiry_no") (lit "12/25");
    mk_masked_entity [36; 39]%Z (lit "cvv_no") (lit "123")]) /\
  mask_pii PATTERNS aadhaar_email =
  (lit "My aadhaar is [phone_number].",
   [mk_masked_entity [14; 28]%Z (lit "phone_number") (lit "1234 5678 9012")]).
Proof. split; vm_compute; reflexivity. Qed.

(** The specification's empty-input example: the empty text is returned
    unchanged with no records. *)
Example mask_empty : mask_pii PATTERNS [] = ([], []).
Proof. vm_compute. reflexivity. Qed.

(** With two spans of one kind, demasking puts the originals back in
    swapped places ([Demasker.demask_same_tag_swapped]). *)
Example demask_swaps_same_kind :
  fst (mask_pii PATTERNS two_phones_email) = lit "Call [phone_number] or [phone_number]" /\
  demask_pii (fst (mask_pii PATTERNS two_phones_email)) (snd (mask_pii PATTERNS two_phones_email))
  = Ret (lit "Call 9123456780 or 9876543210").
Proof. split; vm_compute; reflexivity. Qed.

(** A card number of 18 digits, and an Indian mobile number in its usual
    written form. *)
Definition long_card_email : str := lit "Card 123456781234567812".
Definition indian_phone_email : str := lit "Call +91 98765 43210 now".

(** Masking is not idempotent (the specification does not promise it):
    the masked text can still hold an entity the patterns detect:
    the 18-digit run is cut after the 15 digits of the phone pattern, and
    the remaining three digits, after the tag's closing bracket, match the
    [cvv_no] pattern, so masking the masked text masks more. *)
Example mask_leaves_detectable :
  fst (mask_pii PATTERNS long_card_email) = lit "Card [phone_number]812" /\
  fst (mask_pii PATTERNS (fst (mask_pii PATTERNS long_card_email))) =
  lit "Card [phone_number][cvv_no]".
Proof. split; vm_compute; reflexivity. Qed.

(** A phone number written [+91 98765 43210] is masked without its
    last digit: the pattern's last two groups take at most four digits
    each after an optional separator, so the masked span stops one digit
    short of the number. *)
Example mask_indian_phone :
  mask_pii PATTERNS indian_phone_email =
  (lit "Call [phone_number]0 now",
   [mk_masked_entity [5; 19]%Z (lit "phone_number") (lit "+91 98765 4321")]).
Proof. vm_compute. reflexivity. Qed.

(** The contact line with a Spanish name, in Latin-1: [é] is U+00E9 and
    [í] U+00ED. *)
Definition accented_name_email : str :=
  lit "Contact Jos" ++ [ascii_of_nat 233] ++ lit " Garc" ++ [ascii_of_nat 237] ++ lit "a at 555-1234".

(** A name with a non-ASCII letter is cut inside a word: [[a-z]+]
    stops before [é] and the pattern has no [\b] at its end, so
    [full_name] masks [Contact Jos] and leaves [é García] in clear, while
    [\b] around [555] and [1234] (a Unicode word boundary) splits the
    phone number into two [cvv_no] spans. *)
Example mask_accented_name :
  mask_pii PATTERNS accented_name_email =
  (lit "[full_name]" ++ [ascii_of_nat 233] ++ lit " Garc" ++ [ascii_of_nat 237] ++ lit "a at [cvv_no]-[cvv_no]",
   [mk_masked_entity [0; 11]%Z (lit "full_name") (lit "Contact Jos");
    mk_masked_entity [23; 26]%Z (lit "cvv_no") (lit "555");
    mk_masked_entity [27; 31]%Z (lit "cvv_no") (lit "1234")]).
Proof. vm_compute. reflexivity. Qed.

(** ** The general theorems at concrete inputs *)

(** The two phone numbers of [two_phones_email], masked and demasked. *)
Lemma demask_same_tag_swapped_witness :
  ~ In "["%char (lit "Call ") /\ ~ In "["%char (lit " or ") /\ ~ In "["%char (lit "9123456780") /\
  length [5%Z; 15%Z] = 2 /\ length [19%Z; 29%Z] = 2 /\
  demask_pii (lit "Call " ++ tag (lit "phone_number") ++ lit " or " ++ tag (lit "phone_number") ++ [])
    [mk_masked_entity [5; 15]%Z (lit "phone_number") (lit "9876543210");
     mk_masked_entity [19; 29]%Z (lit "phone_number") (lit "9123456780")] =
  Ret (lit "Call " ++ lit "9123456780" ++ lit " or " ++ lit "9876543210" ++ []).
Proof.
  assert (H1 : ~ In "["%char (lit "Call ")) by (vm_compute; intuition discriminate).
  assert (H2 : ~ In "["%char (lit " or ")) by (vm_compute; intuition discriminate).
  assert (H3 : ~ In "["%char (lit "9123456780")) by (vm_compute; intuition discriminate).
  assert (H4 : length [5%Z; 15%Z] = 2) by reflexivity.
  assert (H5 : length [19%Z; 29%Z] = 2) by reflexivity.
  split; [exact H1|]. split; [exact H2|]. split; [exact H3|]. split; [exact H4|]. split; [exact H5|].
  exact (demask_same_tag_swapped _ _ [] _ (lit "9876543210") _ _ _ H1 H2 H3 H4 H5).
Defined.

(** The round trip holds on the specification's first example. *)
Lemma demask_mask_roundtrip_witness :
  (forall k, In k (map fst PATTERNS) -> ~ In "["%char k) /\
  tags_unambiguous contact_email (kept_spans PATTERNS contact_email) /\
  demask_pii (fst (mask_pii PATTERNS contact_email)) (snd (mask_pii PATTERNS contact_email))
  = Ret contact_email.
Proof.
  assert (Hk : forall k, In k (map fst PATTERNS) -> ~ In "["%char k).
  { intros k Hin. vm_compute in Hin.
    repeat (destruct Hin as [<-|Hin]; [vm_compute; intuition discriminate|]); destruct Hin. }
  assert (Hu : tags_unambiguous contact_email (kept_spans PATTERNS contact_email)).
  { apply tags_unambiguous_dec. vm_compute. reflexivity. }
  split; [exact Hk|]. split; [exact Hu|]. exact (demask_mask_roundtrip PATTERNS contact_email Hk Hu).
Defined.

(** The dropped card-number candidate lies inside the kept phone span,
    and the phone candidate, the first match at offset 5, is the only
    kept span that starts there. *)
Lemma kept_spans_cover_witness :
  In card_candidate (collect_matches PATTERNS card_email) /\
  ~ In card_candidate (kept_spans PATTERNS card_email) /\
  (In card_candidate (kept_spans PATTERNS card_email) \/
   exists k, In k (kept_spans PATTERNS card_email) /\
     c_start k <= c_start card_candidate < c_end k) /\
  collect_matches PATTERNS card_email = [] ++ phone_candidate :: tl (collect_matches PATTERNS card_email) /\
  (forall d, In d (kept_spans PATTERNS card_email) -> c_start d = c_start phone_candidate ->
   In d [] \/ d = phone_candidate).
Proof.
  assert (Hin : In card_candidate (collect_matches PATTERNS card_email))
    by (apply In_candidate_by_dec; vm_compute; reflexivity).
  assert (Hcol : collect_matches PATTERNS card_email = [] ++ phone_candidate :: tl (collect_matches PATTERNS card_email))
    by (vm_compute; reflexivity).
  destruct (kept_spans_cover PATTERNS card_email) as [Hcov Hties].
  split; [exact Hin|]. split; [apply not_In_candidate_by_dec; vm_compute; reflexivity|].
  split; [exact (Hcov card_candidate Hin)|]. split; [exact Hcol|].
  intros d Hd Hs. exact (Hties [] phone_candidate _ d Hcol ltac:(cbn; lia) Hd Hs).
Defined.

(** The repetition [\d{13,16}] at offset 5 of [card_email] with more fuel
    than the matcher gives it. *)
Lemma rep_fuel_enough_witness :
  5 <= length card_email /\ rep_fuel card_email 13 5 <= rep_fuel card_email 13 5 + 7 /\
  rep_loop (sre_match card_email digit) true 13 (Some 16) (accept false 5) (rep_fuel card_email 13 5 + 7) 0 5 true
  = sre_match card_email (RRep true 13 (Some 16) digit) 5 (accept false 5).
Proof.
  assert (H5 : 5 <= length card_email) by (vm_compute; lia).
  split; [exact H5|]. split; [lia|]. apply rep_fuel_enough; [exact H5|lia].
Defined.

(** The finditer loop of the [credit_debit_no] pattern over [card_email]
    with 100 steps of fuel. *)
Lemma finditer_fuel_enough_witness :
  2 * length card_email + 2 <= 100 /\
  finditer_loop card_email credit_debit_no_re 100 0 false = re_finditer card_email credit_debit_no_re.
Proof.
  assert (H : 2 * length card_email + 2 <= 100) by (vm_compute; lia).
  split; [exact H|]. exact (finditer_fuel_enough card_email credit_debit_no_re 100 H).
Defined.

(** ** Every masked span is a match of its pattern *)

Lemma PATTERNS_wf : forall k r, In (k, r) PATTERNS -> wf_regex r = true.
Proof.
  intros k r Hin. vm_compute in Hin.
  repeat (destruct Hin as [Heq|Hin]; [injection Heq as _ <-; reflexivity|]). destruct Hin.
Qed.

(** C16: every span [mask_pii] masks, for any text, is a match of the
    pattern [PATTERNS] gives its kind, in the declarative meaning of the
    regular expression. *)
Theorem kept_spans_match text c : In c (kept_spans PATTERNS text) ->
  exists r, In (c_kind c, r) PATTERNS /\ matches text r (c_start c) (c_end c).
Proof.
  intros Hc. destruct (kept_spans_origin PATTERNS text c Hc) as [r [Hr Hf]].
  exists r. split; [exact Hr|]. eapply finditer_loop_sem; [eapply PATTERNS_wf; eauto|exact Hf].
Qed.

(** The phone-number span kept on [card_email]. *)
Definition card_phone_candidate : candidate :=
  mk_candidate 5 20 (lit "phone_number") (lit "123456781234567").

Lemma kept_spans_match_witness :
  In card_phone_candidate (kept_spans PATTERNS card_email) /\
  exists r, In (c_kind card_phone_candidate, r) PATTERNS /\
    matches card_email r (c_start card_phone_candidate) (c_end card_phone_candidate).
Proof.
  assert (Hc : In card_phone_candidate (kept_spans PATTERNS card_email))
    by (apply In_candidate_by_dec; vm_compute; reflexivity).
  split; [exact Hc|]. exact (kept_spans_match card_email card_phone_candidate Hc).
Defined.

(** The card number's [credit_debit_no] match, in the language of the
    pattern. *)
Lemma re_finditer_sound_witness :
  wf_regex credit_debit_no_re = true /\
  In (5, 21) (re_finditer card_email credit_debit_no_re) /\
  matches card_email credit_debit_no_re 5 21.
Proof.
  assert (Hwf : wf_regex credit_debit_no_re = true) by (vm_compute; reflexivity).
  assert (Hin : In (5, 21) (re_finditer card_email credit_debit_no_re)) by (vm_compute; left; reflexivity).
  split; [exact Hwf|]. split; [exact Hin|]. exact (re_finditer_sound card_email _ 5 21 Hwf Hin).
Defined.

(** ** Every occurrence of a pattern is found *)

(** The card number's [credit_debit_no] match, in the language of the
    pattern, found by the scanner. *)
Lemma card_matches : matches card_email credit_debit_no_re 5 21.
Proof.
  apply (finditer_loop_sem card_email credit_debit_no_re 5 21 eq_refl (2 * length card_email + 2) 0 false).
  vm_compute. left. reflexivity.
Qed.

Lemma re_finditer_complete_witness :
  matches card_email credit_debit_no_re 5 21 /\ 5 <= length card_email /\
  exists s' e', In (s', e') (re_finditer card_email credit_debit_no_re) /\ s' <= 5 /\ (5 < e' \/ s' = 5).
Proof.
  assert (H5 : 5 <= length card_email) by (vm_compute; lia).
  split; [exact card_matches|]. split; [exact H5|]. exact (re_finditer_complete _ _ _ _ card_matches H5).
Defined.

(** C30: the scanner misses no entity: for every pattern of [PATTERNS]
    and every occurrence of it in the text, [mask_pii]'s list of matches
    holds a candidate of that kind that starts at the occurrence or
    starts before it and ends after its start. *)
Theorem candidates_complete text k r s e :
  In (k, r) PATTERNS -> matches text r s e -> s <= length text ->
  exists c, In c (collect_matches PATTERNS text) /\ c_kind c = k /\
    c_start c <= s /\ (s < c_end c \/ c_start c = s).
Proof.
  intros Hk Hm Hs.
  destruct (finditer_loop_complete text r (2 * length text + 2) 0 false s e) as (s' & e' & Hin & H1 & H2);
    [unfold fi_need; lia|lia|exact Hm|intros [H _]; discriminate|].
  exists (mk_candidate s' e' k (py_slice text s' e')).
  split; [exact (collect_matches_of PATTERNS text k r s' e' Hk Hin)|]. cbn. auto.
Qed.

Lemma candidates_complete_witness :
  In (lit "credit_debit_no", credit_debit_no_re) PATTERNS /\
  matches card_email credit_debit_no_re 5 21 /\ 5 <= length card_email /\
  exists c, In c (collect_matches PATTERNS card_email) /\ c_kind c = lit "credit_debit_no" /\
    c_start c <= 5 /\ (5 < c_end c \/ c_start c = 5).
Proof.
  assert (Hk : In (lit "credit_debit_no", credit_debit_no_re) PATTERNS) by (cbn; tauto).
  assert (H5 : 5 <= length card_email) by (vm_compute; lia).
  split; [exact Hk|]. split; [exact card_matches|]. split; [exact H5|].
  exact (candidates_complete _ _ _ _ _ Hk card_matches H5).
Defined.

(** ** What [full_name] can mask *)

(** The characters [full_name]'s classes admit: [[A-Z]], [[a-z]] and
    [\s]. *)
Definition ascii_letter (a : ascii) : bool := in_range 65 90 a || in_range 97 122 a.

Definition name_char (a : ascii) : bool := ascii_letter a || is_space a.

Lemma PATTERNS_full_name r : In (lit "full_name", r) PATTERNS -> r = full_name_re.
Proof.
  intros Hin. vm_compute in Hin.
  repeat (destruct Hin as [Heq|Hin]; [first [discriminate Heq|injection Heq as <-; reflexivity]|]).
  destruct Hin.
Qed.

(** C34: every span [mask_pii] tags [full_name], in any text, consists
    of ASCII letters and white space only: [[A-Z][a-z]+] admits no other
    letter, so a name with a letter outside ASCII (Latin-1 [é], [í], ...)
    is never masked whole, the pattern stops before the letter, and the
    rest of the name stays in the masked text (see
    [mask_accented_name]). *)
Theorem full_name_ascii_only text c :
  In c (kept_spans PATTERNS text) -> c_kind c = lit "full_name" ->
  forall a, In a (c_text c) -> name_char a = true.
Proof.
  intros Hc Hk a Ha. destruct (kept_spans_cand _ _ _ Hc) as [[_ Ht] _]. rewrite Ht in Ha.
  destruct (kept_spans_origin _ _ _ Hc) as [r [Hr Hf]]. rewrite Hk in Hr.
  pose proof (PATTERNS_full_name r Hr) as ->.
  assert (Hm : matches text full_name_re (c_start c) (c_end c))
    by (eapply finditer_loop_sem; [reflexivity|exact Hf]).
  destruct (In_py_slice_nth _ _ _ _ Ha) as (k & Hk' & Hn).
  exact (matches_within text name_char full_name_re _ _ ltac:(vm_compute; reflexivity) Hm k a Hk' Hn).
Qed.

(** The span [Contact Jos] of the accented contact line. *)
Definition accented_name_candidate : candidate :=
  mk_candidate 0 11 (lit "full_name") (lit "Contact Jos").

Lemma full_name_ascii_only_witness :
  In accented_name_candidate (kept_spans PATTERNS accented_name_email) /\
  c_kind accented_name_candidate = lit "full_name" /\
  forall a, In a (c_text accented_name_candidate) -> name_char a = true.
Proof.
  assert (Hc : In accented_name_candidate (kept_spans PATTERNS accented_name_email))
    by (apply In_candidate_by_dec; vm_compute; reflexivity).
  assert (Hk : c_kind accented_name_candidate = lit "full_name") by reflexivity.
  split; [exact Hc|]. split; [exact Hk|]. exact (full_name_ascii_only _ _ Hc Hk).
Defined.
