(* ===== verification/Models.v ===== *)
(** * Training, saving and loading the classifier: [src/models.py]

    [train_model] (lines 13-37) reads a CSV file with pandas, takes the
    columns [email_body] and [category], splits the rows with
    [train_test_split] (test_size 0.2, random_state 42), fits a
    scikit-learn pipeline on the training part, prints a report on the test
    part and pickles the pipeline to [MODEL_PATH] (line 11).  [load_model]
    (lines 39-47) checks that the file exists and unpickles it;
    [classify_email] (lines 49-54) predicts the category of one text.

    The disk is a [filesystem]: a map from paths to files, each file
    either a table pandas reads as a [dataframe] or a pickled pipeline.
    The libraries are modelled at the calls the code makes:
    - [read_csv]: [FileNotFoundError] on a missing path,
      [UnicodeDecodeError] on a pickle; CSV parsing itself is not
      modelled, a CSV file is the [dataframe] pandas builds from it, with
      [None] for an empty field (NaN);
    - [df[key]] as [column]: [KeyError] when no column has that label;
    - [train_test_split] as sklearn computes it: [n_test = ceil(0.2 * n)]
      rows in the test part, the rest in the training part, [ValueError]
      when the lengths differ or the training part is empty, and the rows
      picked through a permutation of [0 .. n-1] (NumPy's seeded shuffle,
      a black box behind the [Shuffle] class with its one law);
    - sklearn's input validation: a NaN document or label raises
      [ValueError] ([strings]);
    - [Pipeline.fit] behind the [Estimator] class (it may raise, e.g. on
      an empty vocabulary), [Pipeline.predict] behind [Classifier];
    - [open(path, 'wb')] as [open_wb] (the file becomes [EmptyFile]) and
      [pickle.dump] as [pickle_dump]; [train_model] makes the two writes
      of its [with] block one write of [MODEL_PATH], equal to the two up
      to [fs_equiv] ([train_model_steps]); [pickle.load] of the empty
      file raises [EOFError], of a file that is not a pickle
      [UnpicklingError]; [pd.read_csv] of the empty file raises
      [EmptyDataError].
    The printed report goes to standard output and is not modelled. *)

From Stdlib Require Import Ascii String.
From Stdlib Require Import List Arith Lia Bool Permutation Setoid Morphisms.
From S2P Require Import Prelude.
Import ListNotations.
Open Scope list_scope.
Local Open Scope pii_scope.

(** ** The black boxes: the fitted pipeline and NumPy's seeded shuffle *)

(** [model.predict([text])[0]] on a fitted pipeline. *)
Class Classifier (Model : Type) := {
  predict : Model -> str -> str
}.

(** [Pipeline([('tfidf', ...), ('clf', ...)]).fit(X_train, y_train)]
    (lines 25-30) on documents and labels that passed validation. *)
Class Estimator (Model : Type) := {
  fit : list str -> list str -> outcome Model
}.

(** [np.random.RandomState(42).permutation(n)], the shuffle behind
    [train_test_split(..., random_state=42)]. *)
Class Shuffle := {
  permutation : nat -> list nat;
  permutation_perm : forall n, Permutation (permutation n) (seq 0 n)
}.

(** ** DataFrames *)

(** A cell of an object column: a string, or NaN for an empty field. *)
Definition cell : Type := option str.

(** The DataFrame [pd.read_csv] returns: the header and the rows. *)
Record dataframe : Type := mk_dataframe {
  df_columns : list str;
  df_rows : list (list cell)
}.

(** The position of the first column with label [key]. *)
Fixpoint find_index (key : str) (labels : list str) : option nat :=
  match labels with
  | [] => None
  | l :: labels' => if str_eqb l key then Some 0 else option_map S (find_index key labels')
  end.

(** [df[key]] (lines 20-21). *)
Definition column (df : dataframe) (key : str) : outcome (list cell) :=
  match find_index key (df_columns df) with
  | None => Raise (KeyError key)
  | Some i => Ret (map (fun row => nth i row None) (df_rows df))
  end.

(** sklearn's validation of a column of documents or labels: every cell
    must be a string. *)
Fixpoint strings (xs : list cell) : outcome (list str) :=
  match xs with
  | [] => Ret []
  | None :: _ => Raise ValueError
  | Some s :: xs' => l <- strings xs' ;; Ret (s :: l)
  end.

(** ** The disk *)

(** A file on disk: a table pandas reads, a pickled object, or the empty
    file [open(path, 'wb')] leaves until something is written to it. *)
Inductive file (Model : Type) : Type :=
| CsvFile (df : dataframe)
| PickleFile (obj : Model)
| EmptyFile.
Arguments CsvFile {Model} df.
Arguments PickleFile {Model} obj.
Arguments EmptyFile {Model}.

Definition filesystem (Model : Type) : Type := str -> option (file Model).

(** [os.path.exists]. *)
Definition path_exists {Model} (fs : filesystem Model) (path : str) : bool :=
  match fs path with Some _ => true | None => false end.

(** [open(path, 'wb')] followed by a complete write. *)
Definition fs_write {Model} (fs : filesystem Model) (path : str) (f : file Model) : filesystem Model :=
  fun q => if str_eqb q path then Some f else fs q.

(** [open(path, 'wb')] (line 36): the file is created or truncated. *)
Definition open_wb {Model} (fs : filesystem Model) (path : str) : filesystem Model :=
  fs_write fs path EmptyFile.

(** [pickle.dump(obj, f)] into the file opened at [path] (line 37). *)
Definition pickle_dump {Model} (fs : filesystem Model) (path : str) (obj : Model) : filesystem Model :=
  fs_write fs path (PickleFile obj).

(** Two disks holding the same file at every path. *)
Definition fs_equiv {Model} (fs1 fs2 : filesystem Model) : Prop := forall q, fs1 q = fs2 q.

#[export] Instance fs_equiv_Equivalence {Model} : Equivalence (@fs_equiv Model).
Proof. split; [intros fs q; reflexivity|intros f g E q; now rewrite E|intros f g h E1 E2 q; now rewrite E1, E2]. Qed.

#[export] Instance fs_write_Proper {Model} : Proper (fs_equiv ==> eq ==> eq ==> fs_equiv) (@fs_write Model).
Proof. intros f g E p _ <- x _ <- q. unfold fs_write. now rewrite (E q). Qed.

(** Line 11. *)
Definition MODEL_PATH : str := lit "email_classifier.pkl".

Section Models.

Context {Model : Type} `{Classifier Model} `{Estimator Model} `{Shuffle}.

(** [pd.read_csv(data_path)] (line 19). *)
Definition read_csv (fs : filesystem Model) (data_path : str) : outcome dataframe :=
  match fs data_path with
  | None => Raise (FileNotFoundError
                     (lit "[Errno 2] No such file or directory: '" ++ data_path ++ lit "'"))
  | Some (CsvFile df) => Ret df
  | Some (PickleFile _) => Raise UnicodeDecodeError
  | Some EmptyFile => Raise EmptyDataError
  end.

(** [ceil(test_size * n_samples)] with [test_size = 0.2]. *)
Definition n_test (n_samples : nat) : nat := (n_samples + 4) / 5.

Definition take_rows (xs : list cell) (idx : list nat) : list cell :=
  map (fun i => nth i xs None) idx.

(** [train_test_split(X, y, test_size=0.2, random_state=42)] (line 23):
    the test indices are the first [n_test] of the permutation, the
    training indices the next [n_samples - n_test]. *)
Definition train_test_split (X y : list cell)
    : outcome (list cell * list cell * list cell * list cell) :=
  if negb (length X =? length y) then Raise ValueError
  else
    let n_samples := length X in
    let n_test := n_test n_samples in
    let n_train := n_samples - n_test in
    if n_train =? 0 then Raise ValueError
    else
      let perm := permutation n_samples in
      let ind_test := firstn n_test perm in
      let ind_train := firstn n_train (skipn n_test perm) in
      Ret (take_rows X ind_train, take_rows X ind_test,
           take_rows y ind_train, take_rows y ind_test).

(** Lines 19-34 of [train_model]: read, split, fit, predict the test part
    and validate it for the printed report; the fitted pipeline. *)
Definition train_pipeline (data_path : str) (fs : filesystem Model) : outcome Model :=
  df <- read_csv fs data_path ;;
  X <- column df (lit "email_body") ;;
  y <- column df (lit "category") ;;
  parts <- train_test_split X y ;;
  let '(X_train, X_test, y_train, y_test) := parts in
  docs <- strings X_train ;;
  labels <- strings y_train ;;
  pipeline <- fit docs labels ;;
  test_docs <- strings X_test ;;
  let y_pred := map (predict pipeline) test_docs in
  test_labels <- strings y_test ;;
  Ret pipeline.

(** [train_model] (lines 13-37): the disk after a successful training.
    The [with] block of lines 36-37 is one write here, as the training
    script sees it; [Interleave] splits it into its two steps. *)
Definition train_model (data_path : str) (fs : filesystem Model) : outcome (filesystem Model) :=
  pipeline <- train_pipeline data_path fs ;;
  Ret (fs_write fs MODEL_PATH (PickleFile pipeline)).

(** [load_model] (lines 39-47). *)
Definition load_model (fs : filesystem Model) : outcome Model :=
  if negb (path_exists fs MODEL_PATH) then
    Raise (FileNotFoundError (lit "Model file not found. Train the model first."))
  else
    match fs MODEL_PATH with
    | Some (PickleFile m) => Ret m
    | Some EmptyFile => Raise EOFError
    | _ => Raise UnpicklingError
    end.

(** [classify_email] (lines 49-54). *)
Definition classify_email (model : Model) (email_text : str) : str := predict model email_text.

End Models.

(** ** Facts on the library calls *)

Lemma map_nth_seq {A : Type} (l : list A) (d : A) :
  map (fun i => nth i l d) (seq 0 (length l)) = l.
Proof.
  induction l as [|x l IH]; [reflexivity|].
  cbn [length seq map nth]. f_equal. rewrite <- seq_shift, map_map. exact IH.
Qed.

Lemma firstn_skipn_perm {A : Type} (p : list A) (a b : nat) :
  a + b = length p -> firstn a p ++ firstn b (skipn a p) = p.
Proof.
  intros Hl. assert (Hb : firstn b (skipn a p) = skipn a p)
    by (apply firstn_all2; rewrite length_skipn; lia).
  rewrite Hb. apply firstn_skipn.
Qed.

Lemma strings_Ret xs l : strings xs = Ret l -> xs = map Some l.
Proof.
  revert l. induction xs as [|[s|] xs IH]; intros l; cbn [strings].
  - intros [= <-]. reflexivity.
  - intros Hs. obind_inv. injection Hs as <-. cbn. f_equal. now apply IH.
  - discriminate.
Qed.

Lemma strings_map_Some l : strings (map Some l) = Ret l.
Proof. induction l as [|s l IH]; cbn; [reflexivity|]. now rewrite IH. Qed.

Lemma find_index_None key labels : find_index key labels = None <-> ~ In key labels.
Proof.
  induction labels as [|l labels IH]; cbn [find_index In]; [tauto|].
  destruct (str_eqb l key) eqn:E.
  - apply str_eqb_eq in E. split; [discriminate|tauto].
  - assert (l <> key) by (intros <-; now rewrite str_eqb_refl in E).
    destruct (find_index key labels); cbn; split; intuition congruence.
Qed.

Lemma column_Ret df key xs :
  column df key = Ret xs -> In key (df_columns df) /\ length xs = length (df_rows df).
Proof.
  unfold column. destruct (find_index key (df_columns df)) as [i|] eqn:E; [|discriminate].
  intros [= <-]. rewrite length_map. split; [|reflexivity].
  destruct (In_dec (list_eq_dec ascii_dec) key (df_columns df)) as [Hin|Hn]; [exact Hin|].
  apply find_index_None in Hn. congruence.
Qed.

Lemma column_missing df key : ~ In key (df_columns df) -> column df key = Raise (KeyError key).
Proof. intros Hn. unfold column. now rewrite (proj2 (find_index_None _ _) Hn). Qed.

Lemma n_test_le n : n_test n <= n.
Proof.
  unfold n_test. destruct n as [|n]; [reflexivity|].
  apply Nat.Div0.div_le_upper_bound; lia.
Qed.

Lemma n_train_zero n : n - n_test n = 0 <-> n <= 1.
Proof.
  unfold n_test. destruct n as [|[|n]]; [cbn; lia|cbn; lia|].
  assert ((S (S n) + 4) / 5 < S (S n)) by (apply Nat.Div0.div_lt_upper_bound; lia). lia.
Qed.

Section ModelFacts.

Context {Model : Type} `{Classifier Model} `{Estimator Model} `{Shuffle}.

Lemma combine_take_rows X y idx :
  length X = length y ->
  combine (take_rows X idx) (take_rows y idx) = map (fun i => nth i (combine X y) (None, None)) idx.
Proof.
  intros Hl. unfold take_rows in *. induction idx as [|i idx IH]; [reflexivity|].
  cbn [map combine]. rewrite IH, combine_nth by exact Hl. reflexivity.
Qed.

(** The rows a list of indices picks, when the indices are a permutation
    of all positions, are a permutation of the rows. *)
Lemma take_perm {A : Type} (l : list A) (d : A) idx :
  Permutation idx (seq 0 (length l)) -> Permutation (map (fun i => nth i l d) idx) l.
Proof.
  intros Hp. transitivity (map (fun i => nth i l d) (seq 0 (length l))).
  - now apply Permutation_map.
  - rewrite map_nth_seq. reflexivity.
Qed.

(** [train_test_split] puts [ceil(0.2 * n)] rows in the test part and
    the others in the training part, and keeps each e-mail with its label. *)
Lemma train_test_split_parts X y X_train X_test y_train y_test :
  train_test_split X y = Ret (X_train, X_test, y_train, y_test) ->
  length X_test = n_test (length X) /\
  length X_train = length X - n_test (length X) /\
  Permutation (combine X_train y_train ++ combine X_test y_test) (combine X y).
Proof.
  unfold train_test_split. case_if; [discriminate|]. apply Bool.negb_false_iff in E. pii_bool.
  case_if; [discriminate|]. intros [= <- <- <- <-].
  pose proof (n_test_le (length X)) as Hle.
  pose proof (Permutation_length (permutation_perm (length X))) as Hlp. rewrite length_seq in Hlp.
  unfold take_rows. rewrite !length_map, length_firstn, length_firstn, length_skipn.
  split; [lia|]. split; [lia|].
  fold (take_rows X (firstn (n_test (length X)) (permutation (length X)))).
  fold (take_rows X (firstn (length X - n_test (length X)) (skipn (n_test (length X)) (permutation (length X))))).
  fold (take_rows y (firstn (n_test (length X)) (permutation (length X)))).
  fold (take_rows y (firstn (length X - n_test (length X)) (skipn (n_test (length X)) (permutation (length X))))).
  rewrite !combine_take_rows by exact E. rewrite <- map_app.
  apply take_perm. rewrite length_combine, <- E, Nat.min_id.
  rewrite Permutation_app_comm, firstn_skipn_perm by lia. apply permutation_perm.
Qed.

Lemma train_test_split_Ret_len X y parts :
  train_test_split X y = Ret parts -> length X = length y /\ 2 <= length X.
Proof.
  unfold train_test_split. case_if; [discriminate|]. apply Bool.negb_false_iff in E. pii_bool.
  case_if; [discriminate|]. intros _. split; [exact E|].
  destruct (Nat.le_gt_cases (length X) 1) as [Hle|Hgt]; [|lia].
  apply n_train_zero in Hle. contradiction.
Qed.

Lemma In_combine_fst {A B : Type} (l : list A) (l' : list B) x :
  length l = length l' -> In x l -> exists y, In (x, y) (combine l l').
Proof.
  revert l'. induction l as [|a l IH]; intros [|b l'] Hl Hin; try discriminate; [destruct Hin|].
  destruct Hin as [<-|Hin]; [exists b; now left|].
  destruct (IH l' ltac:(cbn in Hl; lia) Hin) as [y Hy]. exists y. now right.
Qed.

Lemma In_combine_snd {A B : Type} (l : list A) (l' : list B) y :
  length l = length l' -> In y l' -> exists x, In (x, y) (combine l l').
Proof.
  revert l'. induction l as [|a l IH]; intros [|b l'] Hl Hin; try discriminate; [destruct Hin|].
  destruct Hin as [<-|Hin]; [exists a; now left|].
  destruct (IH l' ltac:(cbn in Hl; lia) Hin) as [x Hx]. exists x. now right.
Qed.

Lemma strings_no_NaN xs l : strings xs = Ret l -> ~ In None xs.
Proof. intros Hs Hin. apply strings_Ret in Hs. subst. apply in_map_iff in Hin. firstorder discriminate. Qed.

(** What a successful [train_model] went through, call by call. *)
Lemma train_model_Ret p fs fs' :
  train_model p fs = Ret fs' ->
  exists df X y X_train X_test y_train y_test docs labels m,
    read_csv fs p = Ret df /\
    column df (lit "email_body") = Ret X /\ column df (lit "category") = Ret y /\
    train_test_split X y = Ret (X_train, X_test, y_train, y_test) /\
    strings X_train = Ret docs /\ strings y_train = Ret labels /\
    fit docs labels = Ret m /\
    (exists test_docs, strings X_test = Ret test_docs) /\
    (exists test_labels, strings y_test = Ret test_labels) /\
    fs' = fs_write fs MODEL_PATH (PickleFile m).
Proof.
  unfold train_model. intros Ht. obind_inv. injection Ht as <-. rename a into pl.
  revert Hc. unfold train_pipeline. intros Ht. obind_inv.
  destruct a2 as [[[X_train X_test] y_train] y_test]. cbv zeta in Ht. obind_inv.
  injection Ht as <-. do 10 eexists. repeat split; eauto.
Qed.

Lemma read_csv_Ret (fs : filesystem Model) p df : read_csv fs p = Ret df -> fs p = Some (CsvFile df).
Proof. unfold read_csv. destruct (fs p) as [[df'|m|]|]; congruence. Qed.

(** A column that the split and the validation of both parts accepted
    holds no NaN. *)
Lemma split_no_NaN X y X_train X_test y_train y_test a b :
  train_test_split X y = Ret (X_train, X_test, y_train, y_test) ->
  ((strings X_train = Ret a /\ strings X_test = Ret b) -> ~ In None X) /\
  ((strings y_train = Ret a /\ strings y_test = Ret b) -> ~ In None y).
Proof.
  intros Hs. pose proof (train_test_split_Ret_len _ _ _ Hs) as [Hlen _].
  apply train_test_split_parts in Hs as (_ & _ & Hp). split; intros [Ha Hb] Hin.
  - destruct (In_combine_fst _ _ _ Hlen Hin) as [c Hc].
    apply (Permutation_in _ (Permutation_sym Hp)), in_app_or in Hc as [Hc|Hc];
      apply in_combine_l in Hc; [exact (strings_no_NaN _ _ Ha Hc)|exact (strings_no_NaN _ _ Hb Hc)].
  - destruct (In_combine_snd _ _ _ Hlen Hin) as [c Hc].
    apply (Permutation_in _ (Permutation_sym Hp)), in_app_or in Hc as [Hc|Hc];
      apply in_combine_r in Hc; [exact (strings_no_NaN _ _ Ha Hc)|exact (strings_no_NaN _ _ Hb Hc)].
Qed.

Lemma load_model_pickle (fs : filesystem Model) m :
  fs MODEL_PATH = Some (PickleFile m) -> load_model fs = Ret m.
Proof. intros Hp. unfold load_model, path_exists. now rewrite Hp. Qed.

Lemma fs_write_same {A : Type} (fs : filesystem A) path f : fs_write fs path f path = Some f.
Proof. unfold fs_write. now rewrite str_eqb_refl. Qed.

Lemma fs_write_other {A : Type} (fs : filesystem A) path f q : q <> path -> fs_write fs path f q = fs q.
Proof. intros Hq. unfold fs_write. now rewrite str_eqb_neq. Qed.

(** The file [open] has just truncated does not load. *)
Lemma load_model_open (fs : filesystem Model) : load_model (open_wb fs MODEL_PATH) = Raise EOFError.
Proof. unfold load_model, path_exists, open_wb. now rewrite fs_write_same. Qed.

(** ** Disks up to pointwise equality

    A disk is a function from paths to files, so two disks with the same
    files are equal only up to [fs_equiv]; the operations of the code
    respect it, which lets proofs rewrite a disk with an equivalent one. *)

Lemma fs_write_twice {A : Type} (fs : filesystem A) path f g :
  fs_equiv (fs_write (fs_write fs path f) path g) (fs_write fs path g).
Proof. intros q. unfold fs_write. now destruct (str_eqb q path). Qed.

#[export] Instance read_csv_Proper : Proper (fs_equiv ==> eq ==> eq) (read_csv (Model:=Model)).
Proof. intros fs1 fs2 E p _ <-. unfold read_csv. now rewrite (E p). Qed.

#[export] Instance train_pipeline_Proper :
  Proper (eq ==> fs_equiv ==> eq) (train_pipeline (Model:=Model)).
Proof. intros p _ <- fs1 fs2 E. unfold train_pipeline. now rewrite E. Qed.

#[export] Instance load_model_Proper : Proper (fs_equiv ==> eq) (load_model (Model:=Model)).
Proof. intros fs1 fs2 E. unfold load_model, path_exists. now rewrite (E MODEL_PATH). Qed.

(** The one write of [train_model] is the [open] then [pickle.dump] of
    lines 36-37, up to [fs_equiv]. *)
Lemma train_model_steps p fs fs' :
  train_model p fs = Ret fs' ->
  exists m, train_pipeline p fs = Ret m /\ fs_equiv fs' (pickle_dump (open_wb fs MODEL_PATH) MODEL_PATH m).
Proof.
  unfold train_model. intros Ht. obind_inv. injection Ht as <-.
  exists a. split; [exact Hc|]. unfold pickle_dump, open_wb. now rewrite fs_write_twice.
Qed.

Lemma load_model_write (fs : filesystem Model) m :
  load_model (fs_write fs MODEL_PATH (PickleFile m)) = Ret m.
Proof. apply load_model_pickle, fs_write_same. Qed.

#[local] Hint Resolve read_csv_Ret : pii.

(** C17: a successful [train_model p] read a CSV file at [p] with the
    columns [email_body] and [category] and at least two rows, fitted the
    pipeline on [n - ceil(0.2 * n)] documents that are e-mails of the file
    each with its own label, and wrote that pipeline to [MODEL_PATH] and
    nothing else. *)
Theorem train_model_saves p fs fs' :
  train_model p fs = Ret fs' ->
  exists df X y docs labels rest m,
    fs p = Some (CsvFile df) /\
    column df (lit "email_body") = Ret X /\ column df (lit "category") = Ret y /\
    2 <= length X /\
    Permutation (combine (map Some docs) (map Some labels) ++ rest) (combine X y) /\
    length docs = length X - n_test (length X) /\
    fit docs labels = Ret m /\ fs' = fs_write fs MODEL_PATH (PickleFile m).
Proof.
  intros Ht.
  destruct (train_model_Ret _ _ _ Ht) as (df & X & y & X_train & X_test & y_train & y_test & docs
    & labels & m & Hr & HX & Hy & Hs & Hd & Hl & Hf & _ & _ & ->).
  pose proof (train_test_split_Ret_len _ _ _ Hs) as [_ H2].
  apply train_test_split_parts in Hs as (_ & Hntr & Hp).
  apply strings_Ret in Hd, Hl. subst X_train y_train. rewrite length_map in Hntr.
  exists df, X, y, docs, labels, (combine X_test y_test), m.
  repeat split; auto with pii.
Qed.

(** C18: after a successful training, [load_model] returns the pipeline
    that training fitted, and every other file is as it was. *)
Theorem train_then_load p fs fs' :
  train_model p fs = Ret fs' ->
  exists docs labels m, fit docs labels = Ret m /\ load_model fs' = Ret m /\
    forall q, q <> MODEL_PATH -> fs' q = fs q.
Proof.
  intros Ht.
  destruct (train_model_Ret _ _ _ Ht) as (_ & _ & _ & _ & _ & _ & _ & docs & labels & m
    & _ & _ & _ & _ & _ & _ & Hf & _ & _ & ->).
  exists docs, labels, m. split; [exact Hf|]. split; [apply load_model_write|].
  intros q Hq. now apply fs_write_other.
Qed.

(** C19: a data file with an empty [email_body] or [category] field never
    yields a model file: whichever part the row falls in, sklearn rejects
    the NaN. *)
Theorem train_model_rejects_NaN p fs df X y :
  fs p = Some (CsvFile df) ->
  column df (lit "email_body") = Ret X -> column df (lit "category") = Ret y ->
  In None X \/ In None y ->
  forall fs', train_model p fs <> Ret fs'.
Proof.
  intros Hp HX Hy Hnan fs' Ht.
  destruct (train_model_Ret _ _ _ Ht) as (df' & X' & y' & X_train & X_test & y_train & y_test & docs
    & labels & m & Hr & HX' & Hy' & Hs & Hd & Hl & _ & [td Htd] & [tl Htl] & _).
  apply read_csv_Ret in Hr. rewrite Hp in Hr. injection Hr as <-.
  rewrite HX' in HX. rewrite Hy' in Hy. injection HX as ->. injection Hy as ->.
  destruct Hnan as [Hn|Hn].
  - exact (proj1 (split_no_NaN _ _ _ _ _ _ _ _ Hs) (conj Hd Htd) Hn).
  - exact (proj2 (split_no_NaN _ _ _ _ _ _ _ _ Hs) (conj Hl Htl) Hn).
Qed.

Lemma column_present df key :
  In key (df_columns df) -> exists xs, column df key = Ret xs /\ length xs = length (df_rows df).
Proof.
  intros Hin. unfold column. destruct (find_index key (df_columns df)) as [i|] eqn:E.
  - eexists. split; [reflexivity|]. apply length_map.
  - apply find_index_None in E. contradiction.
Qed.

Lemma train_test_split_short X y : length X <= 1 -> train_test_split X y = Raise ValueError.
Proof.
  intros Hle. unfold train_test_split. case_if; [reflexivity|].
  apply n_train_zero in Hle. cbv zeta. now rewrite Hle.
Qed.

(** C20: the ways [train_model] fails before fitting, in the order the
    code meets them: a missing data file ([FileNotFoundError] with
    pandas' message), a pickle where a CSV file is expected, a missing
    [email_body] or [category] column ([KeyError] with the column's name),
    and fewer than two rows (sklearn's [ValueError] for an empty training
    part). *)
Theorem train_model_errors p fs :
  (fs p = None ->
   train_model p fs = Raise (FileNotFoundError
     (lit "[Errno 2] No such file or directory: '" ++ p ++ lit "'"))) /\
  (forall m, fs p = Some (PickleFile m) -> train_model p fs = Raise UnicodeDecodeError) /\
  (forall df, fs p = Some (CsvFile df) -> ~ In (lit "email_body") (df_columns df) ->
   train_model p fs = Raise (KeyError (lit "email_body"))) /\
  (forall df, fs p = Some (CsvFile df) -> In (lit "email_body") (df_columns df) ->
   ~ In (lit "category") (df_columns df) -> train_model p fs = Raise (KeyError (lit "category"))) /\
  (forall df, fs p = Some (CsvFile df) -> In (lit "email_body") (df_columns df) ->
   In (lit "category") (df_columns df) -> length (df_rows df) <= 1 ->
   train_model p fs = Raise ValueError).
Proof.
  unfold train_model, train_pipeline, read_csv. repeat split.
  - intros Hp. now rewrite Hp.
  - intros m Hp. now rewrite Hp.
  - intros df Hp Hn. rewrite Hp. cbn [obind]. now rewrite column_missing.
  - intros df Hp Hin Hn. rewrite Hp. cbn [obind].
    destruct (column_present _ _ Hin) as (X & -> & _). cbn [obind]. now rewrite column_missing.
  - intros df Hp Hin1 Hin2 Hle. rewrite Hp. cbn [obind].
    destruct (column_present _ _ Hin1) as (X & -> & HX). cbn [obind].
    destruct (column_present _ _ Hin2) as (y & -> & _). cbn [obind].
    rewrite train_test_split_short by lia. reflexivity.
Qed.

(** C21: [load_model] raises [FileNotFoundError] with the code's message
    when [MODEL_PATH] does not exist, returns the pickled pipeline when
    the file holds one, raises [EOFError] on the empty file a training
    run leaves between [open] and [pickle.dump], and [UnpicklingError] on
    a file that is not a pickle. *)
Theorem load_model_spec (fs : filesystem Model) :
  (fs MODEL_PATH = None ->
   load_model fs = Raise (FileNotFoundError (lit "Model file not found. Train the model first."))) /\
  (forall m, load_model fs = Ret m <-> fs MODEL_PATH = Some (PickleFile m)) /\
  (fs MODEL_PATH = Some EmptyFile -> load_model fs = Raise EOFError) /\
  (forall df, fs MODEL_PATH = Some (CsvFile df) -> load_model fs = Raise UnpicklingError).
Proof.
  repeat split; [| |apply load_model_pickle| |]; unfold load_model, path_exists.
  - intros Hp. now rewrite Hp.
  - destruct (fs MODEL_PATH) as [[df|m'|]|]; cbn; congruence.
  - intros Hp. now rewrite Hp.
  - intros df Hp. now rewrite Hp.
Qed.

End ModelFacts.

#[export] Hint Resolve read_csv_Ret fs_write_same load_model_write : pii.
