(* ===== verification/Api.v ===== *)
(** * The classification service: [src/api.py] and [src/models.py]

    The FastAPI application keeps one piece of state, the global [model]
    (api.py, line 24), [None] until the startup handler
    [load_classification_model] (lines 26-32) loads the pickled pipeline
    with [models.load_model] (models.py, lines 39-47); a failure to load
    is printed and leaves [model] as it was.  The endpoint
    [classify_email_endpoint] (api.py, lines 34-49) answers HTTP 500 while
    [model] is unset; otherwise it masks the body with [utils.mask_pii]
    and classifies the MASKED text with [models.classify_email]
    (models.py, lines 49-54).

    The request body is the pydantic model [EmailRequest] (lines 9-10);
    the response, checked against [response_model=EmailResponse], holds
    the records as [MaskedEntity] values (lines 12-21).  [response_schema]
    shows that every response satisfies the specification's data model,
    [response_roundtrip] that it can be demasked from its own fields when
    its input has no [[] and its records have different classifications.

    The trained classifier is the black box [Classifier] of [Models], and
    [load_model] reads the disk of [Models].  The service is a step
    relation over its state, with start-up events (each carrying the disk
    as the process finds it) and request events; [System] runs it beside
    the training script on one disk. *)

From Stdlib Require Import Ascii String.
From Stdlib Require Import List Arith Lia Bool ZArith Setoid Morphisms.
From S2P Require Import Prelude Regex Patterns Resolver Masker Demasker Models.
Import ListNotations.
Open Scope list_scope.

Section Service.

Context {Model : Type} `{Classifier Model}.

(** The request model [EmailRequest] (api.py, lines 9-10). *)
Record EmailRequest : Type := mk_request { email_body : str }.

(** The response model [MaskedEntity] (api.py, lines 12-15). *)
Record MaskedEntity : Type := mk_MaskedEntity {
  me_position : list Z;
  me_classification : str;
  me_entity : str
}.

(** pydantic's validation of a record dictionary of [mask_pii] against
    [MaskedEntity], when [response_model=EmailResponse] (line 34) checks
    the response: the three fields are present with their types, so it
    always succeeds. *)
Definition to_MaskedEntity (d : masked_entity) : MaskedEntity :=
  mk_MaskedEntity (position d) (classification d) (entity d).

(** The response model [EmailResponse] (api.py, lines 17-21). *)
Record EmailResponse : Type := mk_response {
  input_email_body : str;
  list_of_masked_entities : list MaskedEntity;
  masked_email : str;
  category_of_the_email : str
}.

(** The global state of the application: [model] (api.py, line 24). *)
Record ServiceState : Type := mk_state { model : option Model }.

Definition initial_state : ServiceState := mk_state None.

(** The startup handler (api.py, lines 26-32): the exception is caught and
    printed, and [model] keeps its value. *)
Definition load_classification_model (disk : filesystem Model) (st : ServiceState)
    : ServiceState :=
  match load_model disk with
  | Ret m => mk_state (Some m)
  | Raise _ => st
  end.

(** The endpoint (api.py, lines 34-49), with the validation of the
    response dictionary against [response_model]. *)
Definition classify_email_endpoint (st : ServiceState) (request : EmailRequest)
    : outcome EmailResponse :=
  match model st with
  | None => Raise (HTTPException 500 (lit "Model not loaded"))
  | Some m =>
      let original_email := email_body request in
      let '(masked_email, masked_entities) := mask_pii PATTERNS original_email in
      let category := classify_email m masked_email in
      Ret (mk_response original_email (map to_MaskedEntity masked_entities) masked_email category)
  end.

Inductive event : Type :=
| Startup (disk : filesystem Model)
| Request (request : EmailRequest).

(** One event of the service and the answer it produces, if any. *)
Inductive step : ServiceState -> event -> ServiceState -> option (outcome EmailResponse) -> Prop :=
| step_startup st f :
    step st (Startup f) (load_classification_model f st) None
| step_request st req :
    step st (Request req) st (Some (classify_email_endpoint st req)).

(** Runs of the service: the events and the answers, in order. *)
Inductive run : ServiceState -> list event -> ServiceState -> list (option (outcome EmailResponse)) -> Prop :=
| run_nil st : run st [] st []
| run_cons st ev st' out evs st'' outs :
    step st ev st' out -> run st' evs st'' outs -> run st (ev :: evs) st'' (out :: outs).

End Service.

Arguments EmailResponse : clear implicits.
Arguments ServiceState : clear implicits.

Section ServiceFacts.

Context {Model : Type} `{Classifier Model}.

(** With a model loaded, a request is answered with a response. *)
Lemma endpoint_with_model (st : ServiceState Model) req m :
  model st = Some m -> exists resp, classify_email_endpoint st req = Ret resp.
Proof.
  intros Hm. unfold classify_email_endpoint. rewrite Hm.
  destruct (mask_pii _ (email_body req)). eauto.
Qed.

(** C12: a request leaves the state unchanged and is answered either with
    HTTP 500 "Model not loaded", when no model is loaded, or with the body,
    the records of its kept spans and the category the loaded model gives
    to the masked text, the body with every kept span replaced by its tag:
    the classifier never receives the raw body's spans. *)
Theorem request_answer (st st' : ServiceState Model) req out :
  step st (Request req) st' out ->
  st' = st /\
  ((model st = None /\ out = Some (Raise (HTTPException 500 (lit "Model not loaded")))) \/
   (exists m resp, model st = Some m /\ out = Some (Ret resp) /\
      input_email_body resp = email_body req /\
      list_of_masked_entities resp =
        map to_MaskedEntity (map to_record (kept_spans PATTERNS (email_body req))) /\
      masked_email resp = render (email_body req) 0 (kept_spans PATTERNS (email_body req)) /\
      category_of_the_email resp =
        predict m (render (email_body req) 0 (kept_spans PATTERNS (email_body req))))).
Proof.
  intros Hs. inversion Hs; subst. split; [reflexivity|].
  unfold classify_email_endpoint.
  match goal with |- context [model ?s] => destruct (model s) as [m|] end; [right|now left].
  rewrite (surjective_pairing (mask_pii PATTERNS (email_body req))), mask_pii_text, mask_pii_snd.
  eexists m, _. repeat split; reflexivity.
Qed.

(** The specification's data model of the records of a response to
    [text] (spec, section 3 and the order invariant of section 7): each
    [position] is [[start, end]] with [prev <= start <= end <= len(text)],
    [prev] the end of the record before; [entity] is [text[start:end]];
    the classification is a key of [PATTERNS]. *)
Fixpoint entities_ok (text : str) (prev : Z) (l : list MaskedEntity) : bool :=
  match l with
  | [] => true
  | me :: l' =>
      match me_position me with
      | [s; e] =>
          (prev <=? s)%Z && (s <=? e)%Z && (e <=? Z.of_nat (length text))%Z &&
          str_eqb (me_entity me) (py_slice text (Z.to_nat s) (Z.to_nat e)) &&
          existsb (str_eqb (me_classification me)) (map fst PATTERNS) &&
          entities_ok text e l'
      | _ => false
      end
  end.

Lemma entities_ok_kept text l : forall pos,
  chained (length text) pos (map span l) ->
  (forall c, In c l -> cand_ok text c /\ In (c_kind c) (map fst PATTERNS)) ->
  entities_ok text (Z.of_nat pos) (map to_MaskedEntity (map to_record l)) = true.
Proof.
  induction l as [|c l IH]; intros pos Hch Hok; [reflexivity|].
  destruct Hch as (H1 & H2 & H3). destruct (Hok c (or_introl eq_refl)) as [[_ Ht] Hk].
  cbn [map entities_ok to_MaskedEntity to_record me_position me_entity me_classification
       position entity classification].
  rewrite !Nat2Z.id, <- Ht, str_eqb_refl.
  assert (Hx : existsb (str_eqb (c_kind c)) (map fst PATTERNS) = true).
  { apply existsb_exists. exists (c_kind c). split; [exact Hk|apply str_eqb_refl]. }
  rewrite Hx, IH; [|exact H3|intros c' Hc'; apply Hok; now right].
  repeat (apply andb_true_intro; split); try reflexivity; apply Z.leb_le; lia.
Qed.

(** C25: every response of the endpoint conforms to the specification's
    data model: its records, in order, have positions [[start, end]] that
    go left to right without overlapping inside the input body, each
    carries the body's text at its position and a kind of [PATTERNS];
    [entities_ok] checks this by computation. *)
Theorem response_schema (st : ServiceState Model) req resp :
  classify_email_endpoint st req = Ret resp ->
  input_email_body resp = email_body req /\
  entities_ok (input_email_body resp) 0 (list_of_masked_entities resp) = true.
Proof.
  unfold classify_email_endpoint. destruct (model st) as [m|]; [|discriminate].
  rewrite (surjective_pairing (mask_pii PATTERNS (email_body req))), mask_pii_snd.
  intros [= <-]. cbn [input_email_body list_of_masked_entities]. split; [reflexivity|].
  apply (entities_ok_kept _ _ 0); [auto with pii|apply kept_spans_cand].
Qed.

(** A record of a response read back as the dictionary [demask_pii]
    takes (the persisted form of spec, section 6). *)
Definition of_MaskedEntity (me : MaskedEntity) : masked_entity :=
  mk_masked_entity (me_position me) (me_classification me) (me_entity me).

Lemma PATTERNS_keys_no_brackets : forall k, In k (map fst PATTERNS) -> no_brackets k.
Proof.
  intros k Hin. cbn in Hin.
  repeat (destruct Hin as [<-|Hin]; [split; cbn; intuition discriminate|]). destruct Hin.
Qed.

Lemma of_to_MaskedEntity l : map of_MaskedEntity (map to_MaskedEntity l) = l.
Proof. rewrite map_map. induction l as [|[p c e] l IH]; cbn; [reflexivity|]. now rewrite IH. Qed.

(** C32: a response can be demasked later from its own fields (the
    persisted form of the specification, section 6): when the input has
    no [[] and the response's records have pairwise different
    classifications (no duplicate tag, spec section 8), [demask_pii] on
    [masked_email] and the records of [list_of_masked_entities] returns
    [input_email_body]. *)
Theorem response_roundtrip (st : ServiceState Model) req resp :
  classify_email_endpoint st req = Ret resp ->
  ~ In "["%char (input_email_body resp) ->
  NoDup (map me_classification (list_of_masked_entities resp)) ->
  demask_pii (masked_email resp) (map of_MaskedEntity (list_of_masked_entities resp)) =
  Ret (input_email_body resp).
Proof.
  unfold classify_email_endpoint. destruct (model st) as [m|]; [|discriminate].
  rewrite (surjective_pairing (mask_pii PATTERNS (email_body req))).
  intros [= <-]. cbn [masked_email list_of_masked_entities input_email_body].
  rewrite of_to_MaskedEntity, map_map. intros Ht Hd.
  apply demask_mask_distinct; [exact PATTERNS_keys_no_brackets|exact Ht|exact Hd].
Qed.

(** The model a start-up on [disk] loads, or [acc] when loading fails. *)
Definition loaded (disk : filesystem Model) (acc : option Model) : option Model :=
  match load_model disk with Ret m => Some m | Raise _ => acc end.

(** The model the start-up events of a trace load last, if any. *)
Definition last_loaded (evs : list (@event Model)) : option Model :=
  fold_left (fun acc ev => match ev with Startup d => loaded d acc | _ => acc end) evs None.

Lemma fold_last_loaded evs : forall acc,
  fold_left (fun acc ev => match ev with Startup d => loaded d acc | _ => acc end) evs acc =
  match last_loaded evs with Some m => Some m | None => acc end.
Proof.
  unfold last_loaded. induction evs as [|ev evs IH]; intros acc; [reflexivity|].
  destruct ev as [d|body]; cbn [fold_left]; [|now rewrite (IH acc)].
  rewrite (IH (loaded d acc)), (IH (loaded d None)).
  destruct (fold_left _ evs None); [reflexivity|].
  unfold loaded. destruct (load_model d); reflexivity.
Qed.

Lemma last_loaded_cons ev evs :
  last_loaded (ev :: evs) =
  match last_loaded evs with
  | Some m => Some m
  | None => match ev with Startup d => loaded d None | _ => None end
  end.
Proof. unfold last_loaded at 1. cbn [fold_left]. apply fold_last_loaded. Qed.

(** C13: after any run the loaded model is the one of the last start-up
    that found the model file; failed start-ups and requests leave it
    unchanged. *)
Theorem run_model (st0 st : ServiceState Model) evs outs :
  run st0 evs st outs ->
  model st = match last_loaded evs with Some m => Some m | None => model st0 end.
Proof.
  induction 1 as [st|st ev st' out evs st'' outs Hs Hr IH]; [reflexivity|].
  rewrite IH, last_loaded_cons.
  inversion Hs as [s d|s body]; subst; destruct (last_loaded evs); try reflexivity.
  unfold loaded, load_classification_model. destruct (load_model d); reflexivity.
Qed.

(** The start-up handler reads the disk only through [load_model]. *)
#[export] Instance load_classification_model_Proper :
  Proper (fs_equiv ==> eq ==> eq) (load_classification_model (Model:=Model)).
Proof. intros f g E st _ <-. unfold load_classification_model. now rewrite E. Qed.

End ServiceFacts.

(** ** The service at concrete inputs, with a stub classifier *)

(** A classifier that answers its own name, whatever the text. *)
#[local] Instance stub_classifier : Classifier str := { predict := fun m _ => m }.

Definition stub_state : ServiceState str := mk_state (Some (lit "Spam")).

(** A disk with no file, and one holding the stub pipeline at [MODEL_PATH]. *)
Definition empty_disk : filesystem str := fun _ => None.
Definition trained_disk : filesystem str := fs_write empty_disk MODEL_PATH (PickleFile (lit "Spam")).

Definition jane_request : EmailRequest := mk_request (lit "Jane Doe").

Lemma request_answer_witness :
  step stub_state (Request jane_request) stub_state
       (Some (classify_email_endpoint stub_state jane_request)) /\
  stub_state = stub_state /\
  ((model stub_state = None /\
    Some (classify_email_endpoint stub_state jane_request) =
    Some (Raise (HTTPException 500 (lit "Model not loaded")))) \/
   (exists m resp, model stub_state = Some m /\
      Some (classify_email_endpoint stub_state jane_request) = Some (Ret resp) /\
      input_email_body resp = email_body jane_request /\
      list_of_masked_entities resp =
        map to_MaskedEntity (map to_record (kept_spans PATTERNS (email_body jane_request))) /\
      masked_email resp = render (email_body jane_request) 0 (kept_spans PATTERNS (email_body jane_request)) /\
      category_of_the_email resp =
        predict m (render (email_body jane_request) 0 (kept_spans PATTERNS (email_body jane_request))))).
Proof.
  assert (Hs : step stub_state (Request jane_request) stub_state
                 (Some (classify_email_endpoint stub_state jane_request))) by constructor.
  split; [exact Hs|]. exact (request_answer _ _ _ _ Hs).
Defined.

Lemma run_model_witness :
  run initial_state [Startup empty_disk; Request (mk_request []); Startup trained_disk; Request (mk_request [])] stub_state
      [None; Some (classify_email_endpoint initial_state (mk_request [])); None;
       Some (classify_email_endpoint stub_state (mk_request []))] /\
  model stub_state =
  match last_loaded [Startup empty_disk; Request (mk_request []); Startup trained_disk; Request (mk_request [])] with
  | Some m => Some m
  | None => model (@initial_state str)
  end.
Proof.
  assert (Hr : run initial_state [Startup empty_disk; Request (mk_request []); Startup trained_disk; Request (mk_request [])]
                 stub_state [None; Some (classify_email_endpoint initial_state (mk_request [])); None;
                             Some (classify_email_endpoint stub_state (mk_request []))]).
  { apply (run_cons _ _ initial_state); [constructor|].
    apply (run_cons _ _ initial_state); [constructor|].
    apply (run_cons _ _ stub_state); [constructor|].
    apply (run_cons _ _ stub_state); [constructor|constructor]. }
  split; [exact Hr|]. exact (run_model _ _ _ _ Hr).
Defined.

Definition jane_response : EmailResponse :=
  match classify_email_endpoint stub_state jane_request with
  | Ret r => r
  | Raise _ => mk_response [] [] [] []
  end.

Lemma response_schema_witness :
  classify_email_endpoint stub_state jane_request = Ret jane_response /\
  input_email_body jane_response = email_body jane_request /\
  entities_ok (input_email_body jane_response) 0 (list_of_masked_entities jane_response) = true.
Proof.
  assert (H : classify_email_endpoint stub_state jane_request = Ret jane_response)
    by (vm_compute; reflexivity).
  split; [exact H|]. exact (response_schema _ _ _ H).
Defined.

(** The specification's contact example sent to the service. *)
Definition contact_request : EmailRequest :=
  mk_request (lit "Contact John Smith at john.smith@example.com or 9876543210.").

Definition contact_response : EmailResponse :=
  mk_response (email_body contact_request)
    [mk_MaskedEntity [0; 18]%Z (lit "full_name") (lit "Contact John Smith");
     mk_MaskedEntity [22; 44]%Z (lit "email") (lit "john.smith@example.com");
     mk_MaskedEntity [48; 58]%Z (lit "phone_number") (lit "9876543210")]
    (lit "[full_name] at [email] or [phone_number].") (lit "Spam").

Lemma response_roundtrip_witness :
  classify_email_endpoint stub_state contact_request = Ret contact_response /\
  ~ In "["%char (input_email_body contact_response) /\
  NoDup (map me_classification (list_of_masked_entities contact_response)) /\
  demask_pii (masked_email contact_response) (map of_MaskedEntity (list_of_masked_entities contact_response)) =
  Ret (input_email_body contact_response).
Proof.
  assert (H : classify_email_endpoint stub_state contact_request = Ret contact_response)
    by (vm_compute; reflexivity).
  assert (Ht : ~ In "["%char (input_email_body contact_response))
    by (cbn; intuition discriminate).
  assert (Hd : NoDup (map me_classification (list_of_masked_entities contact_response))).
  { cbn [list_of_masked_entities map me_classification].
    repeat constructor; cbn; intuition discriminate. }
  split; [exact H|]. split; [exact Ht|]. split; [exact Hd|].
  exact (response_roundtrip _ _ _ H Ht Hd).
Defined.
