(* ===== verification/System.v ===== *)
(** * The training script and the service on one disk

    The repository has two programs that meet only through the file
    [MODEL_PATH]: the training script, a process that calls
    [models.train_model(data_path)] and dies with a traceback when it
    raises, and the FastAPI process of [api.py], which loads the model
    once, in its start-up handler, and then serves requests.  The system
    state is the disk and the state of the service process; its events
    are a run of the training script, a (re)start of the service process,
    which begins with [model = None] (api.py, line 24) and runs
    [load_classification_model] on the disk as it is, and a request to
    [/classify_email].  [sys_step] is the transition function, [sys_run]
    runs a list of events and collects the answers of the requests.

    The theorems: the service part of every step is a step of the
    service's relation [Api.step] (the composition refines the service
    model); and a model trained after the start-up is not used until the
    next restart.  A training run is atomic here; [Interleave] shows when
    that is a correct abstraction of the two processes, and proves the
    liveness of the service there, where a restart can fall inside a
    training run's write of the model file. *)

From Stdlib Require Import Ascii String.
From Stdlib Require Import List Arith Lia Bool ZArith Permutation.
From S2P Require Import Prelude Masker Models Api.
Import ListNotations.
Open Scope list_scope.

Section System.

Context {Model : Type} `{Classifier Model} `{Estimator Model} `{Shuffle}.

Record SystemState : Type := mk_sys {
  disk : filesystem Model;
  service : ServiceState Model
}.

Inductive sys_event : Type :=
| Train (data_path : str)   (* a run of the training script: train_model(data_path) *)
| Boot                      (* a (re)start of the FastAPI process *)
| Serve (request : EmailRequest). (* POST /classify_email *)

Definition answer : Type := option (outcome EmailResponse).

(** One event: the new state and the answer of a request. *)
Definition sys_step (s : SystemState) (ev : sys_event) : SystemState * answer :=
  match ev with
  | Train p =>
      match train_model p (disk s) with
      | Ret fs' => (mk_sys fs' (service s), None)
      | Raise _ => (s, None)
      end
  | Boot => (mk_sys (disk s) (load_classification_model (disk s) initial_state), None)
  | Serve req => (s, Some (classify_email_endpoint (service s) req))
  end.

Fixpoint sys_run (s : SystemState) (evs : list sys_event) : SystemState * list answer :=
  match evs with
  | [] => (s, [])
  | ev :: evs' =>
      let '(s1, out) := sys_step s ev in
      let '(s2, outs) := sys_run s1 evs' in
      (s2, out :: outs)
  end.

End System.

Arguments SystemState Model : clear implicits.

Section SystemFacts.

Context {Model : Type} `{Classifier Model} `{Estimator Model} `{Shuffle}.

Lemma sys_run_cons (s : SystemState Model) ev evs :
  sys_run s (ev :: evs) =
  (fst (sys_run (fst (sys_step s ev)) evs), snd (sys_step s ev) :: snd (sys_run (fst (sys_step s ev)) evs)).
Proof. cbn [sys_run]. destruct (sys_step s ev), (sys_run _ evs). reflexivity. Qed.

(** The answers of a run without restarts, all computed with the model
    of the starting state. *)
Definition answers_with (st : ServiceState Model) (evs : list sys_event) : list answer :=
  map (fun ev => match ev with Serve body => Some (classify_email_endpoint st body) | _ => None end) evs.

(** C23: without a restart the service keeps the model it loaded: after
    any run of training runs and requests, the service state is the one
    it started with and every request is answered with that model, even
    when a training run has written a new pickle in between. *)
Theorem model_fixed_until_boot (s : SystemState Model) evs :
  ~ In Boot evs ->
  service (fst (sys_run s evs)) = service s /\ snd (sys_run s evs) = answers_with (service s) evs.
Proof.
  revert s. induction evs as [|ev evs IH]; intros s Hb; [split; reflexivity|].
  rewrite sys_run_cons. cbn [fst snd answers_with map].
  assert (Hs : service (fst (sys_step s ev)) = service s /\
               snd (sys_step s ev) = match ev with Serve body => Some (classify_email_endpoint (service s) body) | _ => None end).
  { destruct ev as [p| |body]; [|exfalso; apply Hb; now left|split; reflexivity].
    cbn. destruct (train_model p (disk s)); split; reflexivity. }
  destruct Hs as [Hs Ha]. destruct (IH (fst (sys_step s ev))) as [IH1 IH2]; [intros Hin; apply Hb; now right|].
  rewrite IH1, Hs. split; [reflexivity|]. rewrite IH2, Hs, Ha. reflexivity.
Qed.

(** The composition refines the service model: the service part of
    every step of the system is a step of [Api.step], a restart being a
    start-up event from the initial state on the current disk; a training
    run leaves the service untouched and either fails with the disk
    unchanged or leaves the disk [train_model] returned. *)
Theorem sys_step_refines (s : SystemState Model) ev :
  let '(s', out) := sys_step s ev in
  match ev with
  | Boot => step initial_state (Startup (disk s)) (service s') out /\ disk s' = disk s
  | Serve body => step (service s) (Request body) (service s') out /\ disk s' = disk s
  | Train p => out = None /\ service s' = service s /\
               (train_model p (disk s) = Ret (disk s') \/
                (disk s' = disk s /\ exists e, train_model p (disk s) = Raise e))
  end.
Proof.
  destruct ev as [p| |body]; cbn.
  - destruct (train_model p (disk s)) as [fs'|e]; cbn; repeat split; eauto.
  - split; [constructor|reflexivity].
  - split; [constructor|reflexivity].
Qed.

End SystemFacts.
