(* ===== verification/Interleave.v ===== *)
(** * The model file written in two steps, interleaved with restarts

    [System] runs a training run as one event: [train_model] reads the
    data, fits, and writes [MODEL_PATH] at once.  The code writes the
    file in two steps (models.py, lines 36-37): [open(MODEL_PATH, 'wb')]
    creates or truncates it, then [pickle.dump] fills it; and the
    training script and the service are two processes.  Here a training
    run is three events of the training process: [TStart p] runs lines
    19-34 on the disk ([train_pipeline]) and keeps the fitted pipeline,
    [TOpen] truncates [MODEL_PATH] ([open_wb]), [TDump] writes the
    pipeline ([pickle_dump]).  The service events are those of [System]:
    a (re)start [CBoot] and a request [CServe].

    [interleaved_refines]: every run in which the service is not
    restarted between an [open] and its [dump] answers its requests as a
    run of the atomic system of [System] does, so the theorems of
    [System] hold for it.  [restart_during_dump]: a restart inside that
    window loads the empty file; the start-up handler swallows the
    [EOFError] and the service answers HTTP 500 although the training
    succeeded and the disk now holds the new pickle.
    [served_outside_window]: the liveness of the service, once it has a
    model and the disk a pickle, every request of every schedule without
    a restart in such a window is answered with a response.

    Only one training process runs at a time ([TStart] is enabled when
    the trainer is idle); the partial writes of [pickle.dump] are not
    modelled (a reader then sees the empty file or a truncated pickle,
    and both fail to load). *)

From Stdlib Require Import Ascii String.
From Stdlib Require Import List Arith Lia Bool ZArith Setoid Morphisms.
From S2P Require Import Prelude Masker Models Api System.
Import ListNotations.
Open Scope list_scope.

Section Interleave.

Context {Model : Type} `{Classifier Model} `{Estimator Model} `{Shuffle}.

(** The training process: idle (not started, finished, or died with a
    traceback), holding the pipeline it fitted on the data at [p], or
    with [MODEL_PATH] open for writing. *)
Inductive trainer : Type :=
| TIdle
| TFitted (p : str) (m : Model)
| TOpened (p : str) (m : Model).

Record CState : Type := mk_cstate {
  cdisk : filesystem Model;
  cservice : ServiceState Model;
  ctrainer : trainer
}.

Inductive cevent : Type :=
| TStart (p : str)                 (* train_model(p), lines 19-34 *)
| TOpen                            (* line 36: open(MODEL_PATH, 'wb') *)
| TDump                            (* line 37: pickle.dump(pipeline, f) *)
| CBoot                            (* a (re)start of the FastAPI process *)
| CServe (request : EmailRequest). (* POST /classify_email *)

(** One event, when the process it belongs to can take it. *)
Definition cstep (s : CState) (ev : cevent) : option (CState * answer) :=
  match ev, ctrainer s with
  | TStart p, TIdle =>
      match train_pipeline p (cdisk s) with
      | Ret m => Some (mk_cstate (cdisk s) (cservice s) (TFitted p m), None)
      | Raise _ => Some (s, None)
      end
  | TOpen, TFitted p m =>
      Some (mk_cstate (open_wb (cdisk s) MODEL_PATH) (cservice s) (TOpened p m), None)
  | TDump, TOpened p m =>
      Some (mk_cstate (pickle_dump (cdisk s) MODEL_PATH m) (cservice s) TIdle, None)
  | CBoot, _ =>
      Some (mk_cstate (cdisk s) (load_classification_model (cdisk s) initial_state) (ctrainer s), None)
  | CServe req, _ => Some (s, Some (classify_email_endpoint (cservice s) req))
  | _, _ => None
  end.

(** A schedule of events; [None] when one of them is not enabled. *)
Fixpoint crun (s : CState) (evs : list cevent) : option (CState * list answer) :=
  match evs with
  | [] => Some (s, [])
  | ev :: evs' =>
      match cstep s ev with
      | None => None
      | Some (s1, out) =>
          match crun s1 evs' with
          | None => None
          | Some (s2, outs) => Some (s2, out :: outs)
          end
      end
  end.

Definition opened (tr : trainer) : bool :=
  match tr with TOpened _ _ => true | _ => false end.

(** No restart of the service between an [open] and the next [dump];
    [o] tells whether the file is open at the start. *)
Fixpoint no_boot_in_window (o : bool) (evs : list cevent) : bool :=
  match evs with
  | [] => true
  | TOpen :: evs' => no_boot_in_window true evs'
  | TDump :: evs' => no_boot_in_window false evs'
  | CBoot :: evs' => negb o && no_boot_in_window o evs'
  | _ :: evs' => no_boot_in_window o evs'
  end.

(** The answers to the requests of a run, in order. *)
Definition responses (outs : list answer) : list (outcome EmailResponse) :=
  flat_map (fun a => match a with Some r => [r] | None => [] end) outs.

(** The interleaved state [c] stands for the atomic state [a]: same
    service; the disk of [a] is the one the training run read, and [c]'s
    is that disk, or it with [MODEL_PATH] truncated while open. *)
Definition sim (c : CState) (a : SystemState Model) : Prop :=
  cservice c = service a /\
  match ctrainer c with
  | TIdle => fs_equiv (cdisk c) (disk a)
  | TFitted p m => fs_equiv (cdisk c) (disk a) /\ train_pipeline p (disk a) = Ret m
  | TOpened p m => fs_equiv (cdisk c) (open_wb (disk a) MODEL_PATH) /\ train_pipeline p (disk a) = Ret m
  end.

End Interleave.

Arguments trainer Model : clear implicits.
Arguments CState Model : clear implicits.

Section InterleaveFacts.

Context {Model : Type} `{Classifier Model} `{Estimator Model} `{Shuffle}.

Lemma responses_app (l1 l2 : list answer) : responses (l1 ++ l2) = responses l1 ++ responses l2.
Proof. apply flat_map_app. Qed.

Lemma sys_run_app (a : SystemState Model) l1 l2 :
  sys_run a (l1 ++ l2) =
  (fst (sys_run (fst (sys_run a l1)) l2), snd (sys_run a l1) ++ snd (sys_run (fst (sys_run a l1)) l2)).
Proof.
  revert a. induction l1 as [|ev l1 IH]; intros a; cbn [app].
  - cbn [sys_run fst snd app]. now destruct (sys_run a l2).
  - rewrite !sys_run_cons, IH. reflexivity.
Qed.

Lemma train_model_pipeline p (fs : filesystem Model) m :
  train_pipeline p fs = Ret m -> train_model p fs = Ret (fs_write fs MODEL_PATH (PickleFile m)).
Proof. intros Hp. unfold train_model. now rewrite Hp. Qed.

(** Each step outside the window is matched by at most one step of the
    atomic system, with the same answers. *)
Lemma cstep_sim (c c' : CState Model) a ev out :
  sim c a -> cstep c ev = Some (c', out) -> (ev = CBoot -> opened (ctrainer c) = false) ->
  exists aevs, sim c' (fst (sys_run a aevs)) /\ responses (snd (sys_run a aevs)) = responses [out].
Proof.
  destruct c as [d sv tr]. intros [Hsv Htr] Hst Hb. cbn [cservice ctrainer cdisk] in *. subst sv.
  destruct ev as [p| | | |req]; [destruct tr as [|p0 m0|p0 m0]..|]; cbn in Hst; try discriminate.
  - destruct (train_pipeline p d) as [m|e] eqn:Ep; injection Hst as <- <-; exists [].
    + split; [|reflexivity]. split; [reflexivity|]. cbn. split; [exact Htr|].
      now rewrite <- (train_pipeline_Proper p p eq_refl _ _ Htr).
    + split; [split; [reflexivity|exact Htr]|reflexivity].
  - injection Hst as <- <-. exists []. destruct Htr as [Hd Hp].
    split; [|reflexivity]. split; [reflexivity|]. cbn. split; [|exact Hp].
    apply fs_write_Proper; auto.
  - injection Hst as <- <-. destruct Htr as [Hd Hp]. exists [Train p0].
    cbn [sys_run sys_step]. rewrite (train_model_pipeline _ _ _ Hp).
    split; [|reflexivity]. split; [reflexivity|]. cbn.
    transitivity (pickle_dump (open_wb (disk a) MODEL_PATH) MODEL_PATH m0);
      [apply fs_write_Proper; auto|apply fs_write_twice].
  - injection Hst as <- <-. exists [Boot]. split; [|reflexivity].
    split; [cbn; now apply load_classification_model_Proper|exact Htr].
  - injection Hst as <- <-. exists [Boot]. destruct Htr as [Hd Hp].
    split; [|reflexivity]. split; [cbn; now apply load_classification_model_Proper|split; assumption].
  - discriminate (Hb eq_refl).
  - injection Hst as <- <-. exists [Serve req]. split; [split; [reflexivity|exact Htr]|reflexivity].
Qed.

(** The window flag follows the trainer along the run. *)
Lemma no_boot_step (c c' : CState Model) ev out evs :
  cstep c ev = Some (c', out) -> no_boot_in_window (opened (ctrainer c)) (ev :: evs) = true ->
  (ev = CBoot -> opened (ctrainer c) = false) /\ no_boot_in_window (opened (ctrainer c')) evs = true.
Proof.
  destruct c as [d sv tr]. cbn [ctrainer].
  destruct ev as [p| | | |req], tr as [|p0 m0|p0 m0]; cbn; try discriminate;
    try (destruct (train_pipeline p d)); intros Hst Hw; injection Hst as <- <-; cbn;
    repeat match goal with H : _ && _ = true |- _ => apply andb_prop in H as [? ?] end;
    (split; [intros Hev; try discriminate; cbn in *; now apply negb_true_iff|assumption]).
Qed.

(** C24: the atomic system of [System] is a correct abstraction of the
    interleaved one as long as the service is not restarted while the
    model file is open: every such run answers its requests exactly as
    some run of [sys_run] does, and ends in a state that again stands for
    the atomic one.  (Requests, training steps and restarts outside the
    window interleave freely.) *)
Theorem interleaved_refines (c c' : CState Model) a evs outs :
  sim c a -> no_boot_in_window (opened (ctrainer c)) evs = true -> crun c evs = Some (c', outs) ->
  exists aevs, sim c' (fst (sys_run a aevs)) /\ responses (snd (sys_run a aevs)) = responses outs.
Proof.
  revert c a outs. induction evs as [|ev evs IH]; intros c a outs Hs Hw Hr.
  - injection Hr as <- <-. exists []. split; [exact Hs|reflexivity].
  - cbn [crun] in Hr. destruct (cstep c ev) as [[c1 out]|] eqn:E1; [|discriminate].
    destruct (crun c1 evs) as [[c2 outs2]|] eqn:E2; [|discriminate]. injection Hr as <- <-.
    destruct (no_boot_step _ _ _ _ _ E1 Hw) as [Hb Hw'].
    destruct (cstep_sim _ _ _ _ _ Hs E1 Hb) as (aevs1 & Hs1 & Hr1).
    destruct (IH _ _ _ Hs1 Hw' E2) as (aevs2 & Hs2 & Hr2).
    exists (aevs1 ++ aevs2). rewrite sys_run_app. cbn [fst snd]. split; [exact Hs2|].
    change (out :: outs2) with ([out] ++ outs2). now rewrite !responses_app, Hr1, Hr2.
Qed.

(** C33: a restart of the service between the [open] and the [dump] of a
    successful training run leaves it without a model: it loads the
    empty file, the start-up handler swallows the [EOFError], and the
    next request is answered HTTP 500, whatever model the service had
    before, although the disk now holds the new pickle. *)
Theorem restart_during_dump (c : CState Model) p m req :
  ctrainer c = TIdle -> train_pipeline p (cdisk c) = Ret m ->
  crun c [TStart p; TOpen; CBoot; TDump; CServe req] =
  Some (mk_cstate (pickle_dump (open_wb (cdisk c) MODEL_PATH) MODEL_PATH m) initial_state TIdle,
        [None; None; None; None; Some (Raise (HTTPException 500 (lit "Model not loaded")))]).
Proof.
  destruct c as [d sv tr]. cbn [ctrainer cdisk]. intros -> Hp.
  cbn [crun cstep ctrainer cdisk cservice]. rewrite Hp.
  cbn [crun cstep ctrainer cdisk cservice]. unfold load_classification_model.
  rewrite load_model_open. reflexivity.
Qed.

(** The service has a model, and the disk holds a pickle whenever the
    model file is not open for writing. *)
Definition cserving (c : CState Model) : Prop :=
  (exists m, model (cservice c) = Some m) /\
  (opened (ctrainer c) = false -> exists m, cdisk c MODEL_PATH = Some (PickleFile m)).

(** Every step but a restart inside the window keeps [cserving]. *)
Lemma cstep_serving (c c' : CState Model) ev out :
  cserving c -> cstep c ev = Some (c', out) -> (ev = CBoot -> opened (ctrainer c) = false) ->
  cserving c'.
Proof.
  destruct c as [d sv tr]. intros [Hm Hd] Hst Hb. cbn [cservice cdisk ctrainer] in *.
  destruct ev as [p| | | |req]; [destruct tr as [|p0 m0|p0 m0]..|]; cbn in Hst, Hd; try discriminate.
  - destruct (train_pipeline p d); injection Hst as <- <-; split; auto.
  - injection Hst as <- <-. split; [exact Hm|discriminate].
  - injection Hst as <- <-. split; [exact Hm|intros _; exists m0; apply fs_write_same].
  - injection Hst as <- <-. destruct (Hd (Hb eq_refl)) as [m Hp].
    split; [|exact Hd]. cbn. unfold load_classification_model. rewrite (load_model_pickle _ _ Hp). eexists; reflexivity.
  - injection Hst as <- <-. destruct (Hd (Hb eq_refl)) as [m Hp].
    split; [|exact Hd]. cbn. unfold load_classification_model. rewrite (load_model_pickle _ _ Hp). eexists; reflexivity.
  - discriminate (Hb eq_refl).
  - injection Hst as <- <-. split; assumption.
Qed.

(** A state with a model answers a request with a response. *)
Lemma cstep_serving_answer (c c' : CState Model) ev a :
  cserving c -> cstep c ev = Some (c', Some a) -> exists resp, a = Ret resp.
Proof.
  destruct c as [d sv tr]. intros [[m Hm] _] Hst. cbn [cservice] in Hm.
  destruct ev as [p| | | |req]; [destruct tr as [|p0 m0|p0 m0]..|]; cbn in Hst; try discriminate;
    try (destruct (train_pipeline p d)); injection Hst as <- Ha; try discriminate.
  subst a. exact (endpoint_with_model _ req m Hm).
Qed.

(** C22: once the service has loaded a model and the model file holds a
    pickle, every request of every later schedule is answered with a
    response, never with HTTP 500, whatever the training runs (failed or
    successful) and restarts, provided no restart falls between an
    [open(MODEL_PATH, 'wb')] and its [pickle.dump]: a restart outside
    that window finds a pickle, the one of the last completed training
    run or the one that was there.  [restart_during_dump] shows the
    proviso is needed. *)
Theorem served_outside_window (c c' : CState Model) evs outs :
  (exists m, model (cservice c) = Some m) -> (exists m, cdisk c MODEL_PATH = Some (PickleFile m)) ->
  ctrainer c = TIdle -> no_boot_in_window false evs = true -> crun c evs = Some (c', outs) ->
  forall a, In a (responses outs) -> exists resp, a = Ret resp.
Proof.
  intros Hm Hd Ht. replace false with (opened (ctrainer c)) by now rewrite Ht.
  assert (Hs : cserving c) by (split; [exact Hm|intros _; exact Hd]). clear Hm Hd Ht.
  revert c outs Hs. induction evs as [|ev evs IH]; intros c outs Hs Hw Hr a Ha.
  - injection Hr as <- <-. destruct Ha.
  - cbn [crun] in Hr. destruct (cstep c ev) as [[c1 out]|] eqn:E1; [|discriminate].
    destruct (crun c1 evs) as [[c2 outs2]|] eqn:E2; [|discriminate]. injection Hr as <- <-.
    destruct (no_boot_step _ _ _ _ _ E1 Hw) as [Hb Hw'].
    change (out :: outs2) with ([out] ++ outs2) in Ha. rewrite responses_app in Ha.
    apply in_app_or in Ha as [Ha|Ha].
    + destruct out as [o|]; [|destruct Ha]. destruct Ha as [<-|[]].
      exact (cstep_serving_answer _ _ _ _ Hs E1).
    + exact (IH _ _ (cstep_serving _ _ _ _ Hs E1 Hb) Hw' E2 a Ha).
Qed.

End InterleaveFacts.
