(* ===== verification/Deploy.v ===== *)
(** * Process start: the module imports and the spaCy pipeline

    [System] starts from a service process that is already running.  A
    process that runs [api.py] first executes the module's top level:
    its imports (api.py, lines 1-5), which execute [utils.py] (lines
    1-6: [import re], [import spacy], and [nlp = spacy.load
    ("en_core_web_sm")]) and [models.py] (lines 1-9: [os], [pickle],
    [pandas] and five [sklearn] modules), and then [app = FastAPI()]
    (line 7).  An import of a package that is not installed raises
    [ModuleNotFoundError]; [spacy.load] of a pipeline that is not
    installed raises [OSError].  Nothing catches them: the process dies
    with a traceback before the start-up handler runs, and no request
    reaches [/classify_email].  The training script imports [models.py]
    (and not [utils.py]).

    [PyEnv] is the installation: the top-level packages that can be
    imported and the spaCy pipelines installed.  A [from a.b import c]
    is modelled by the import of its top-level package [a]; the
    sub-modules named are part of every installation of [a].
    [DState] is the disk and the service process, [None] while it is
    not running; [dstep]/[drun] are [System]'s events with the imports
    in front.  The theorems: the process starts exactly when every
    imported package and the pipeline [en_core_web_sm] are installed;
    without that pipeline no request of any run is ever answered,
    although [nlp] is used nowhere (finding); with a complete
    installation, [drun] is [sys_run] step for step. *)

From Stdlib Require Import Ascii String.
From Stdlib Require Import List Arith Lia Bool ZArith.
From S2P Require Import Prelude Masker Models Api System.
Import ListNotations.
Open Scope list_scope.
Local Open Scope pii_scope.

(** The installation the processes run in. *)
Record PyEnv : Type := mk_env {
  installed : list str;        (* top-level packages on sys.path *)
  spacy_pipelines : list str   (* spaCy pipelines installed as packages *)
}.

(** [import name]: the top-level package [name] is found or the import
    raises [ModuleNotFoundError]. *)
Definition import (env : PyEnv) (name : str) : outcome unit :=
  if existsb (str_eqb name) (installed env) then Ret tt
  else Raise (ModuleNotFoundError name).

(** utils.py, line 6: [spacy.load(name)]. *)
Definition spacy_load (env : PyEnv) (name : str) : outcome unit :=
  if existsb (str_eqb name) (spacy_pipelines env) then Ret tt
  else Raise (OSError (lit "[E050] Can't find model 'en_core_web_sm'. It doesn't seem to be a Python package or a valid path to a data directory.")).

(** utils.py, lines 1-6; the [PATTERNS] literal (lines 8-18) and the
    [def]s cannot raise. *)
Definition import_utils (env : PyEnv) : outcome unit :=
  _ <- import env (lit "re") ;;
  _ <- import env (lit "spacy") ;;
  _ <- import env (lit "typing") ;;
  spacy_load env (lit "en_core_web_sm").

(** models.py, lines 1-9; [MODEL_PATH] and the [def]s cannot raise. *)
Definition import_models (env : PyEnv) : outcome unit :=
  _ <- import env (lit "os") ;;
  _ <- import env (lit "pickle") ;;
  _ <- import env (lit "typing") ;;
  _ <- import env (lit "pandas") ;;
  _ <- import env (lit "sklearn") ;;   (* feature_extraction.text *)
  _ <- import env (lit "sklearn") ;;   (* ensemble *)
  _ <- import env (lit "sklearn") ;;   (* pipeline *)
  _ <- import env (lit "sklearn") ;;   (* model_selection *)
  import env (lit "sklearn").          (* metrics *)

(** api.py, lines 1-7: the imports, then [app = FastAPI()]. *)
Definition import_api (env : PyEnv) : outcome unit :=
  _ <- import env (lit "fastapi") ;;
  _ <- import env (lit "pydantic") ;;
  _ <- import env (lit "typing") ;;
  _ <- import_utils env ;;
  import_models env.

Section Deploy.

Context {Model : Type} `{Classifier Model} `{Estimator Model} `{Shuffle}.

(** A start of the service process: the module's top level (line 24:
    [model = None]), then the start-up handler on the disk. *)
Definition start_service (env : PyEnv) (d : filesystem Model) : outcome (ServiceState Model) :=
  _ <- import_api env ;;
  Ret (load_classification_model d initial_state).

Record DState : Type := mk_dstate {
  ddisk : filesystem Model;
  dproc : option (ServiceState Model)  (* None: the service process is not running *)
}.

(** What a client of [/classify_email] gets. *)
Inductive reply : Type :=
| NoReply                               (* the event is not a request *)
| Refused                               (* no process listens: connection refused *)
| Answer (r : outcome EmailResponse).   (* the endpoint's response or exception *)

(** One event: a training run (the script imports [models.py] first), a
    (re)start of the service process, a request. *)
Definition dstep (env : PyEnv) (s : DState) (ev : sys_event) : DState * reply :=
  match ev with
  | Train p =>
      match import_models env with
      | Raise _ => (s, NoReply)
      | Ret _ =>
          match train_model p (ddisk s) with
          | Ret fs' => (mk_dstate fs' (dproc s), NoReply)
          | Raise _ => (s, NoReply)
          end
      end
  | Boot =>
      match start_service env (ddisk s) with
      | Ret st => (mk_dstate (ddisk s) (Some st), NoReply)
      | Raise _ => (mk_dstate (ddisk s) None, NoReply)
      end
  | Serve req =>
      match dproc s with
      | None => (s, Refused)
      | Some st => (s, Answer (classify_email_endpoint st req))
      end
  end.

Fixpoint drun (env : PyEnv) (s : DState) (evs : list sys_event) : DState * list reply :=
  match evs with
  | [] => (s, [])
  | ev :: evs' =>
      let '(s1, out) := dstep env s ev in
      let '(s2, outs) := drun env s1 evs' in
      (s2, out :: outs)
  end.

(** The running deployment standing for a state of [System]. *)
Definition of_sys (a : SystemState Model) : DState := mk_dstate (disk a) (Some (service a)).

Definition of_answer (o : answer) : reply :=
  match o with None => NoReply | Some r => Answer r end.

End Deploy.

Arguments DState Model : clear implicits.
Arguments reply : clear implicits.

(** The packages the imports of [api.py] need, in the order they run. *)
Definition API_PACKAGES : list str :=
  map lit ["fastapi"; "pydantic"; "typing"; "re"; "spacy"; "typing";
           "os"; "pickle"; "typing"; "pandas"; "sklearn"]%string.

(** Each import of [import_api] in turn: a [unit] computation followed
    by another returns exactly when both do. *)
Lemma obind_unit_Ret {B : Type} (c : outcome unit) (k : unit -> outcome B) (b : B) :
  obind c k = Ret b <-> c = Ret tt /\ k tt = Ret b.
Proof. destruct c as [[]|e]; cbn; intuition congruence. Qed.

Lemma import_Ret env n u : import env n = Ret u <-> In n (installed env).
Proof.
  destruct u. unfold import. rewrite <- existsb_str_eqb.
  destruct (existsb _ _); intuition congruence.
Qed.

Lemma spacy_load_Ret env n u : spacy_load env n = Ret u <-> In n (spacy_pipelines env).
Proof.
  destruct u. unfold spacy_load. rewrite <- existsb_str_eqb.
  destruct (existsb _ _); intuition congruence.
Qed.

Create Rewrite HintDb deploy_rw.
#[export] Hint Rewrite @obind_unit_Ret import_Ret spacy_load_Ret : deploy_rw.

(** The imports of [api.py] succeed exactly when every package of
    [API_PACKAGES] and the pipeline [en_core_web_sm] are installed. *)
Lemma import_api_Ret env u :
  import_api env = Ret u <->
  (forall p, In p API_PACKAGES -> In p (installed env)) /\ In (lit "en_core_web_sm") (spacy_pipelines env).
Proof.
  destruct u. unfold import_api, import_utils, import_models.
  autorewrite with deploy_rw. cbn [API_PACKAGES map In].
  split; [intros; intuition subst; assumption|].
  intros [Hp Hs]. repeat split; try apply Hp; auto 12.
Qed.

Lemma import_api_models env : import_api env = Ret tt -> import_models env = Ret tt.
Proof. unfold import_api. now rewrite !obind_unit_Ret. Qed.

Lemma import_api_spacy env :
  ~ In (lit "en_core_web_sm") (spacy_pipelines env) -> exists e, import_api env = Raise e.
Proof.
  intros Hn. destruct (import_api env) as [u|e] eqn:E; [|eauto].
  apply import_api_Ret in E as [_ Hs]. contradiction.
Qed.

Section DeployFacts.

Context {Model : Type} `{Classifier Model} `{Estimator Model} `{Shuffle}.

Lemma drun_cons env (s : DState Model) ev evs :
  drun env s (ev :: evs) =
  (fst (drun env (fst (dstep env s ev)) evs), snd (dstep env s ev) :: snd (drun env (fst (dstep env s ev)) evs)).
Proof. cbn [drun]. destruct (dstep env s ev), (drun env _ evs). reflexivity. Qed.

(** The process starts exactly when the imports succeed, and then with
    the state the start-up handler computes on the disk. *)
Lemma start_service_spec env (d : filesystem Model) st :
  start_service env d = Ret st <->
  (forall p, In p API_PACKAGES -> In p (installed env)) /\ In (lit "en_core_web_sm") (spacy_pipelines env) /\
  st = load_classification_model d initial_state.
Proof.
  unfold start_service. rewrite obind_unit_Ret, import_api_Ret.
  split; [intros [[? ?] [= ->]]|intros (? & ? & ->)]; auto.
Qed.

(** Without the pipeline, a step leaves the service process down and
    answers no request. *)
Lemma dstep_down env (s : DState Model) ev :
  ~ In (lit "en_core_web_sm") (spacy_pipelines env) -> dproc s = None ->
  dproc (fst (dstep env s ev)) = None /\ (snd (dstep env s ev) = NoReply \/ snd (dstep env s ev) = Refused).
Proof.
  intros Hn Hs. destruct (import_api_spacy env Hn) as [e He].
  destruct ev as [p| |req]; cbn [dstep].
  - destruct (import_models env); [destruct (train_model p (ddisk s))|]; auto.
  - unfold start_service. rewrite He. auto.
  - rewrite Hs. auto.
Qed.

(** With a complete installation, one step of the deployment is the step
    of [System] on the state it stands for. *)
Lemma dstep_of_sys env (a : SystemState Model) ev :
  import_api env = Ret tt ->
  dstep env (of_sys a) ev = (of_sys (fst (sys_step a ev)), of_answer (snd (sys_step a ev))).
Proof.
  intros Hi. destruct ev as [p| |req]; cbn [dstep sys_step].
  - rewrite (import_api_models _ Hi). cbn [ddisk of_sys].
    now destruct (train_model p (disk a)).
  - unfold start_service. now rewrite Hi.
  - reflexivity.
Qed.

(** With a complete installation, a deployment whose service process
    runs answers every run of events exactly as [System] does: [drun] is
    [sys_run] step for step, so the theorems of [System] hold for it. *)
Lemma drun_of_sys env (a : SystemState Model) evs :
  import_api env = Ret tt ->
  drun env (of_sys a) evs = (of_sys (fst (sys_run a evs)), map of_answer (snd (sys_run a evs))).
Proof.
  intros Hi. revert a. induction evs as [|ev evs IH]; intros a; [reflexivity|].
  rewrite drun_cons, sys_run_cons, dstep_of_sys by exact Hi. cbn [fst snd]. now rewrite IH.
Qed.

(** C28: [utils.py] loads the spaCy pipeline [en_core_web_sm] at import
    (line 6) although [nlp] is used nowhere.  In an installation without
    it, every start of the service process dies in the import of [api.py]
    before the start-up handler runs: in every run of training runs,
    restarts and requests from a deployment whose service is down, the
    service stays down and every request is refused, whatever the disk
    and the trained model. *)
Theorem no_pipeline_never_served env (s : DState Model) evs :
  ~ In (lit "en_core_web_sm") (spacy_pipelines env) -> dproc s = None ->
  dproc (fst (drun env s evs)) = None /\
  Forall (fun r => r = NoReply \/ r = Refused) (snd (drun env s evs)).
Proof.
  intros Hn. revert s. induction evs as [|ev evs IH]; intros s Hs; [split; [exact Hs|constructor]|].
  rewrite drun_cons. cbn [fst snd]. destruct (dstep_down env s ev Hn Hs) as [Hd Hr].
  destruct (IH _ Hd) as [Hd' Hf]. split; [exact Hd'|constructor; assumption].
Qed.

End DeployFacts.
