(* ===== verification/Scenario.v ===== *)
(** * The training script and the service at concrete inputs

    Stub instances of the black boxes ([Estimator]: the pipeline fitted
    on a training part is its first label; [Shuffle]: the reversed
    identity; [Classifier]: the pipeline answers itself), a data file of
    three labelled e-mails, and runs of [train_model], [load_model] and
    the whole system computed by [vm_compute].  They instantiate the
    theorems of [Models] and [System] at inputs where their hypotheses
    hold. *)

From Stdlib Require Import Ascii String.
From Stdlib Require Import List Arith Lia Bool ZArith Permutation.
From S2P Require Import Prelude Masker Models Api System Interleave Deploy.
Import ListNotations.
Open Scope list_scope.

#[local] Instance first_label : Estimator str :=
  { fit := fun docs labels => match labels with [] => Raise ValueError | l :: _ => Ret l end }.

#[local] Program Instance reversed_shuffle : Shuffle := { permutation := fun n => rev (seq 0 n) }.
Next Obligation. apply Permutation_sym, Permutation_rev. Qed.

#[local] Instance echo_classifier : Classifier str := { predict := fun m _ => m }.

Definition empty_fs : filesystem str := fun _ => None.

Definition data_path : str := lit "emails.csv".

(** [emails.csv]: three e-mails with their categories. *)
Definition emails_df : dataframe :=
  mk_dataframe [lit "email_body"; lit "category"]
    [[Some (lit "My card was lost"); Some (lit "Incident")];
     [Some (lit "Please refund my order"); Some (lit "Request")];
     [Some (lit "The server is down"); Some (lit "Incident")]].

(** The same file with an empty [category] field in its last row. *)
Definition gappy_df : dataframe :=
  mk_dataframe [lit "email_body"; lit "category"]
    [[Some (lit "My card was lost"); Some (lit "Incident")];
     [Some (lit "Please refund my order"); Some (lit "Request")];
     [Some (lit "The server is down"); None]].

Definition data_fs : filesystem str := fs_write empty_fs data_path (CsvFile emails_df).
Definition gappy_fs : filesystem str := fs_write empty_fs data_path (CsvFile gappy_df).

(** The disk after training on [emails.csv]: the test part is the last
    row, the pipeline is fitted on the two others. *)
Definition trained_fs : filesystem str := fs_write data_fs MODEL_PATH (PickleFile (lit "Request")).

Lemma train_emails : train_model data_path data_fs = Ret trained_fs.
Proof. vm_compute. reflexivity. Qed.

Lemma train_model_saves_witness :
  train_model data_path data_fs = Ret trained_fs /\
  exists df X y docs labels rest m,
    data_fs data_path = Some (CsvFile df) /\
    column df (lit "email_body") = Ret X /\ column df (lit "category") = Ret y /\
    2 <= length X /\
    Permutation (combine (map Some docs) (map Some labels) ++ rest) (combine X y) /\
    length docs = length X - n_test (length X) /\
    fit docs labels = Ret m /\ trained_fs = fs_write data_fs MODEL_PATH (PickleFile m).
Proof. split; [exact train_emails|]. exact (train_model_saves _ _ _ train_emails). Defined.

Lemma train_then_load_witness :
  train_model data_path data_fs = Ret trained_fs /\
  exists docs labels m, fit docs labels = Ret m /\ load_model trained_fs = Ret m /\
    forall q, q <> MODEL_PATH -> trained_fs q = data_fs q.
Proof. split; [exact train_emails|]. exact (train_then_load _ _ _ train_emails). Defined.

Lemma train_model_rejects_NaN_witness :
  gappy_fs data_path = Some (CsvFile gappy_df) /\
  column gappy_df (lit "email_body") = Ret (map (fun row => nth 0 row None) (df_rows gappy_df)) /\
  column gappy_df (lit "category") = Ret (map (fun row => nth 1 row None) (df_rows gappy_df)) /\
  forall fs', train_model data_path gappy_fs <> Ret fs'.
Proof.
  assert (Hp : gappy_fs data_path = Some (CsvFile gappy_df)) by reflexivity.
  assert (HX : column gappy_df (lit "email_body") = Ret (map (fun row => nth 0 row None) (df_rows gappy_df)))
    by reflexivity.
  assert (Hy : column gappy_df (lit "category") = Ret (map (fun row => nth 1 row None) (df_rows gappy_df)))
    by reflexivity.
  split; [exact Hp|]. split; [exact HX|]. split; [exact Hy|].
  apply (train_model_rejects_NaN _ _ _ _ _ Hp HX Hy). right. cbn. right; right; left. reflexivity.
Defined.

(** ** The whole system *)

Definition sys0 : SystemState str := mk_sys data_fs initial_state.

Definition events : list sys_event :=
  [Train data_path; Boot; Serve (mk_request (lit "Card 1234 lost")); Train (lit "missing.csv"); Boot;
   Serve (mk_request (lit "Hello"))].

(** A service started on the trained disk, then a training run on a file
    that makes a different pipeline: requests still use the first one. *)
Definition booted : SystemState str := mk_sys trained_fs (mk_state (Some (lit "Request"))).

Definition retrain_fs : filesystem str :=
  fs_write trained_fs (lit "new.csv")
    (CsvFile (mk_dataframe [lit "email_body"; lit "category"]
       [[Some (lit "a"); Some (lit "Problem")]; [Some (lit "b"); Some (lit "Problem")]])).

Lemma model_fixed_until_boot_witness :
  ~ In Boot [Train (lit "new.csv"); Serve (mk_request (lit "Hi"))] /\
  service (fst (sys_run (mk_sys retrain_fs (service booted)) [Train (lit "new.csv"); Serve (mk_request (lit "Hi"))]))
    = service (mk_sys retrain_fs (service booted)) /\
  snd (sys_run (mk_sys retrain_fs (service booted)) [Train (lit "new.csv"); Serve (mk_request (lit "Hi"))])
    = answers_with (service (mk_sys retrain_fs (service booted))) [Train (lit "new.csv"); Serve (mk_request (lit "Hi"))].
Proof.
  assert (Hb : ~ In Boot [Train (lit "new.csv"); Serve (mk_request (lit "Hi"))]) by (cbn; intuition discriminate).
  split; [exact Hb|]. exact (model_fixed_until_boot _ _ Hb).
Defined.

(** ** The two processes interleaved *)

(** Training on [emails.csv] while the service runs, with a request
    before the restart (HTTP 500: no model yet) and one after it. *)
Definition c0 : CState str := mk_cstate data_fs initial_state TIdle.
Definition a0 : SystemState str := mk_sys data_fs initial_state.

Definition cevs : list cevent :=
  [TStart data_path; CServe (mk_request (lit "Card 1234 lost")); TOpen; TDump; CBoot;
   CServe (mk_request (lit "Hello"))].

Lemma interleaved_refines_witness :
  sim c0 a0 /\ no_boot_in_window (opened (ctrainer c0)) cevs = true /\
  exists c' outs, crun c0 cevs = Some (c', outs) /\
    exists aevs, sim c' (fst (sys_run a0 aevs)) /\ responses (snd (sys_run a0 aevs)) = responses outs.
Proof.
  assert (Hs : sim c0 a0) by (split; [reflexivity|cbn; reflexivity]).
  assert (Hw : no_boot_in_window (opened (ctrainer c0)) cevs = true) by reflexivity.
  split; [exact Hs|]. split; [exact Hw|].
  destruct (crun c0 cevs) as [[c' outs]|] eqn:E; [|vm_compute in E; discriminate].
  exists c', outs. split; [reflexivity|]. exact (interleaved_refines c0 c' a0 cevs outs Hs Hw E).
Defined.

(** The service has loaded the pipeline of a first training run; the
    same training is run again and the service restarted in the window. *)
Definition serving_c : CState str := mk_cstate trained_fs (mk_state (Some (lit "Request"))) TIdle.

(** The same service through a second training run, with requests while
    the model file is open and a restart after the dump. *)
Definition retrain_evs : list cevent :=
  [TStart data_path; CServe (mk_request (lit "Hi")); TOpen; CServe (mk_request (lit "Card 1234 lost"));
   TDump; CBoot; CServe (mk_request (lit "Hello")); TStart (lit "missing.csv"); CBoot;
   CServe (mk_request (lit "Bye"))].

Lemma served_outside_window_witness :
  (exists m, model (cservice serving_c) = Some m) /\
  (exists m, cdisk serving_c MODEL_PATH = Some (PickleFile m)) /\
  ctrainer serving_c = TIdle /\ no_boot_in_window false retrain_evs = true /\
  exists c' outs, crun serving_c retrain_evs = Some (c', outs) /\
    forall a, In a (responses outs) -> exists resp, a = Ret resp.
Proof.
  assert (Hm : exists m, model (cservice serving_c) = Some m) by (eexists; reflexivity).
  assert (Hd : exists m, cdisk serving_c MODEL_PATH = Some (PickleFile m)) by (eexists; vm_compute; reflexivity).
  assert (Ht : ctrainer serving_c = TIdle) by reflexivity.
  assert (Hw : no_boot_in_window false retrain_evs = true) by reflexivity.
  split; [exact Hm|]. split; [exact Hd|]. split; [exact Ht|]. split; [exact Hw|].
  destruct (crun serving_c retrain_evs) as [[c' outs]|] eqn:E; [|vm_compute in E; discriminate].
  exists c', outs. split; [reflexivity|]. exact (served_outside_window serving_c c' retrain_evs outs Hm Hd Ht Hw E).
Defined.

Lemma restart_during_dump_witness :
  ctrainer serving_c = TIdle /\ train_pipeline data_path (cdisk serving_c) = Ret (lit "Request") /\
  crun serving_c [TStart data_path; TOpen; CBoot; TDump; CServe (mk_request (lit "Hello"))] =
  Some (mk_cstate (pickle_dump (open_wb trained_fs MODEL_PATH) MODEL_PATH (lit "Request")) initial_state TIdle,
        [None; None; None; None; Some (Raise (HTTPException 500 (lit "Model not loaded")))]).
Proof.
  assert (Ht : ctrainer serving_c = TIdle) by reflexivity.
  assert (Hp : train_pipeline data_path (cdisk serving_c) = Ret (lit "Request")) by (vm_compute; reflexivity).
  split; [exact Ht|]. split; [exact Hp|].
  exact (restart_during_dump serving_c data_path (lit "Request") (mk_request (lit "Hello")) Ht Hp).
Defined.

(** ** The deployment *)

(** Every package [api.py] imports is installed, the spaCy pipeline is
    not: the service process dies at every start, before and after the
    training run, and both requests are refused. *)
Definition env_no_pipeline : PyEnv := mk_env API_PACKAGES [].

Definition d0 : DState str := mk_dstate data_fs None.

Lemma no_pipeline_never_served_witness :
  ~ In (lit "en_core_web_sm") (spacy_pipelines env_no_pipeline) /\ dproc d0 = None /\
  dproc (fst (drun env_no_pipeline d0 events)) = None /\
  Forall (fun r => r = NoReply \/ r = Refused) (snd (drun env_no_pipeline d0 events)).
Proof.
  assert (Hn : ~ In (lit "en_core_web_sm") (spacy_pipelines env_no_pipeline)) by (cbn; tauto).
  assert (Hd : dproc d0 = None) by reflexivity.
  split; [exact Hn|]. split; [exact Hd|]. exact (no_pipeline_never_served env_no_pipeline d0 events Hn Hd).
Defined.
